(** * contentful-batch-migrator: a shallow embedding of the migration engine

    The development follows the repository's scripts:
    - [Split]   : bin/split.js   (relationship partitioner)
    - [Limiter] : bin/rateLimiter.js (dual token bucket, over exact fractions)
    - [Float64], [RateLimiter] : bin/rateLimiter.js (the same in doubles)
    - [Importer]: bin/import.js  (state store, batch loop with retries)
    - [Sdk]     : bin/import.js  (one batch against the management SDK)
    - [Resume]  : bin/resume.js  (resume coordinator)
    - [Cleanup] : bin/cleanup-drafts.js (draft cleanup)
    - [Usage]   : bin/rateLimiter.js (the limiter over a sequence of calls)
    - [RunLog], [Retry] : bin/import.js  (what a run of the batch loop leaves behind)
    - [StateFile] : bin/import.js, bin/resume.js (the state file between them)
    - [Handoff] : bin/resume.js, bin/import.js (the command line between them)
    - [Requests]: bin/import.js  (the requests of one batch)
    - [Report]  : bin/cleanup-drafts.js (analysis and report)
    - [Validate]: bin/validate.js (target counts and checks)

    The definitions come first, one module per script; the modules named
    [...Facts] hold what is proved about them.

    JavaScript values that the scripts obtain from [JSON.parse] are modelled
    by the tree type [value]; the parts of a document that a script reads at
    fixed paths ([sys.id], [sys.version], ...) are record fields. *)

From Stdlib Require Import ZArith QArith Qround Qminmax Lqa String Ascii List Lia Bool.
From Stdlib Require Import DecimalString DecimalNat.
From Stdlib Require SpecFloat.
From stdpp Require Import base gmap sets list strings.

Set Warnings "-register-all".
Local Open Scope string_scope.
Local Open Scope list_scope.

(** ** JSON documents *)

Module Json.

(** A parsed JSON tree.  An object is the list of its own properties in
    enumeration order; [JSON.parse] never yields two properties with the same
    key.  The payload of a number is never inspected by the code modelled
    here, an integer stands for it. *)
Inductive value : Type :=
| JNull
| JBool (b : bool)
| JNum (n : Z)
| JStr (s : string)
| JArr (items : list value)
| JObj (members : list (string * value)).

Fixpoint assoc {A : Type} (k : string) (ms : list (string * A)) : option A :=
  match ms with
  | [] => None
  | (k', v) :: rest => if String.eqb k k' then Some v else assoc k rest
  end.

(** [o.k] for a value [o] that is not null: [undefined] ([None]) unless [o]
    is an object that owns [k].  Arrays and strings own no property named
    sys, type, linkType or id. *)
Definition get (k : string) (o : value) : option value :=
  match o with
  | JObj ms => assoc k ms
  | _ => None
  end.

(** [x === 'lit'] for a property read. *)
Definition is_str (lit : string) (x : option value) : bool :=
  match x with
  | Some (JStr s) => String.eqb s lit
  | _ => false
  end.

(** [inside v v']: the value [v'] occurs in [v], at any depth. *)
Inductive inside : value -> value -> Prop :=
| inside_here (v : value) : inside v v
| inside_item (items : list value) (x v' : value) :
    In x items -> inside x v' -> inside (JArr items) v'
| inside_member (members : list (string * value)) (k : string) (x v' : value) :
    In (k, x) members -> inside x v' -> inside (JObj members) v'.

(** Induction on a JSON tree, with the hypothesis for every child. *)
Fixpoint value_rect' (P : value -> Prop)
    (Hnull : P JNull) (Hbool : forall b, P (JBool b)) (Hnum : forall n, P (JNum n))
    (Hstr : forall s, P (JStr s))
    (Harr : forall items, Forall P items -> P (JArr items))
    (Hobj : forall members, Forall (fun kv => P (snd kv)) members -> P (JObj members))
    (v : value) : P v :=
  match v with
  | JNull => Hnull
  | JBool b => Hbool b
  | JNum n => Hnum n
  | JStr s => Hstr s
  | JArr items =>
      Harr items
        ((fix all (l : list value) : Forall P l :=
            match l with
            | [] => @List.Forall_nil value P
            | x :: rest =>
                @List.Forall_cons value P x rest
                  (value_rect' P Hnull Hbool Hnum Hstr Harr Hobj x) (all rest)
            end) items)
  | JObj members =>
      Hobj members
        ((fix all (l : list (string * value)) : Forall (fun kv => P (snd kv)) l :=
            match l with
            | [] => @List.Forall_nil (string * value) (fun kv => P (snd kv))
            | kv :: rest =>
                @List.Forall_cons (string * value) (fun kv => P (snd kv)) kv rest
                  (value_rect' P Hnull Hbool Hnum Hstr Harr Hobj (snd kv)) (all rest)
            end) members)
  end.

End Json.
Import Json.

(** ** Batch identifiers: [String(i).padStart(2, '0')] *)

Definition String_of_nat (i : nat) : string :=
  NilEmpty.string_of_uint (Nat.to_uint i).

Definition padStart2 (s : string) : string :=
  match String.length s with
  | 0 => String.append "00" s
  | 1 => String.append "0" s
  | _ => s
  end.

Definition batchNumOf (i : nat) : string := padStart2 (String_of_nat i).

(** ** bin/split.js *)

Module Split.

Record entry := { entry_id : string; entry_fields : value }.
Record asset := { asset_id : string; asset_fields : value }.

(** The export document, and also the shape of every batch document. *)
Record export := {
  contentTypes : list value;
  entries : list entry;
  assets : list asset;
  tags : list value;
  locales : list value;
  editorInterfaces : list value;
  webhooks : list value
}.

(** [Set.prototype.add] on a set kept in insertion order. *)
Definition set_add (x : string) (s : list string) : list string :=
  if existsb (String.eqb x) s then s else s ++ [x].

(** The test [obj.sys && obj.sys.type === 'Link' && obj.sys.linkType === 'Asset']
    together with the id that is added.  Asset ids are strings
    ([asset_id]); a link whose [sys.id] is not a string can never be equal to
    one of them, so it is left out of the collected set. *)
Definition assetLinkId (obj : value) : option string :=
  match get "sys" obj with
  | Some sys =>
      if is_str "Link" (get "type" sys) && is_str "Asset" (get "linkType" sys)
      then match get "id" sys with Some (JStr i) => Some i | _ => None end
      else None
  | None => None
  end.

(** [traverseFields], with the set [assetIds] of the enclosing function
    threaded through. *)
Fixpoint traverseFields (obj : value) (assetIds : list string) : list string :=
  match obj with
  | JArr items =>
      fold_left (fun acc item => traverseFields item acc) items assetIds
  | JObj members =>
      let assetIds1 :=
        match assetLinkId obj with
        | Some i => set_add i assetIds
        | None => assetIds
        end in
      fold_left (fun acc kv => traverseFields (snd kv) acc) members assetIds1
  | _ => assetIds
  end.

(** [if (entry.fields) traverseFields(entry.fields)]: a falsy [fields] is not
    an object, on which [traverseFields] returns at once. *)
Definition getAssetReferencesFromEntry (e : entry) : list string :=
  traverseFields (entry_fields e) [].

(** [entryToAssets]: a [Map] keyed by entry id; a later [set] with the same
    key overwrites. *)
Definition buildEntryToAssets (es : list entry) : gmap string (list string) :=
  fold_left (fun m e => <[entry_id e := getAssetReferencesFromEntry e]> m) es ∅.

(** [assets.slice(i, j)] for [i <= j]. *)
Definition slice {A : Type} (i j : nat) (l : list A) : list A :=
  firstn (j - i) (skipn i l).

(** [for (let i = 0; i < assets.length; i += batchSize) push(slice)].  The
    loop does not terminate for [batchSize = 0] on a non-empty collection;
    [None] stands for that. *)
Fixpoint sliceLoop (fuel batchSize i : nat) (l : list asset)
  : option (list (list asset)) :=
  if Nat.ltb i (length l) then
    match fuel with
    | 0 => None
    | S fuel' =>
        match sliceLoop fuel' batchSize (i + batchSize) l with
        | Some rest => Some (slice i (i + batchSize) l :: rest)
        | None => None
        end
    end
  else Some [].

Definition makeAssetBatches (batchSize : nat) (l : list asset)
  : option (list (list asset)) :=
  sliceLoop (length l) batchSize 0 l.

(** [entryAssets.some(assetId => batchAssetIds.has(assetId))] with
    [entryAssets = entryToAssets.get(id) || []]. *)
Definition referencesBatch (entryToAssets : gmap string (list string))
    (batchAssetIds : gset string) (id : string) : bool :=
  existsb (fun assetId => bool_decide (assetId ∈ batchAssetIds))
          (default [] (entryToAssets !! id)).

Definition idsOfAssets (l : list asset) : gset string :=
  list_to_set (map asset_id l).

Section Loop.
Variable E : export.
Variable entryToAssets : gmap string (list string).

Definition claimable (processedEntries : gset string)
    (batchAssets : list asset) (e : entry) : bool :=
  if bool_decide (entry_id e ∈ processedEntries) then false
  else referencesBatch entryToAssets (idsOfAssets batchAssets) (entry_id e).

(** The entry id has a link, in [entryToAssets], to an asset of the chunk. *)
Definition hits (chunk : list asset) (id : string) : Prop :=
  referencesBatch entryToAssets (idsOfAssets chunk) id = true.

(** The body of the loop over [assetBatches]; the result is the list of
    batch documents written and the final [processedEntries]. *)
Fixpoint batchLoop (batchIndex : nat) (assetBatches : list (list asset))
    (processedEntries : gset string) : list export * gset string :=
  match assetBatches with
  | [] => ([], processedEntries)
  | batchAssets :: rest =>
      let batchEntries :=
        List.filter (claimable processedEntries batchAssets) (entries E) in
      let processedEntries' :=
        fold_left (fun s e => s ∪ {[ entry_id e ]}) batchEntries
                  processedEntries in
      let first := Nat.eqb batchIndex 0 in
      let batchData := {|
        contentTypes := if first then contentTypes E else [];
        tags := if first then tags E else [];
        locales := if first then locales E else [];
        editorInterfaces := if first then editorInterfaces E else [];
        webhooks := if first then webhooks E else [];
        entries := batchEntries;
        assets := batchAssets |} in
      let '(more, final) := batchLoop (S batchIndex) rest processedEntries' in
      (batchData :: more, final)
  end.
End Loop.

Record manifestBatch := {
  batchNumber : nat;
  batchId : string;
  mb_assets : nat;
  mb_entries : nat;
  hasContentModel : bool
}.

Record manifest := {
  totalBatches : nat;
  totalAssets : nat;
  totalEntries : nat;
  m_batchSize : nat;
  batches : list manifestBatch
}.

Definition manifestEntry (i : nat) (b : export) : manifestBatch := {|
  batchNumber := i;
  batchId := String.append "batch-" (batchNumOf i);
  mb_assets := length (assets b);
  mb_entries := length (entries b);
  hasContentModel := negb (Nat.eqb (length (contentTypes b)) 0) |}.

Definition orphanBatch (orphanedEntries : list entry) : export := {|
  contentTypes := []; tags := []; locales := []; editorInterfaces := [];
  webhooks := []; entries := orphanedEntries; assets := [] |}.

(** [splitExport]: the batch documents in the order batch-01, batch-02, ...
    and the manifest.  Copying the asset files does not change either. *)
Definition splitExport (batchSize : nat) (E : export)
  : option (list export * manifest) :=
  match makeAssetBatches batchSize (assets E) with
  | None => None
  | Some assetBatches =>
      let entryToAssets := buildEntryToAssets (entries E) in
      let '(written, processedEntries) :=
        batchLoop E entryToAssets 0 assetBatches ∅ in
      let orphanedEntries :=
        List.filter (fun e => negb (bool_decide (entry_id e ∈ processedEntries)))
                    (entries E) in
      let all :=
        if Nat.ltb 0 (length orphanedEntries)
        then written ++ [orphanBatch orphanedEntries]
        else written in
      Some (all,
            {| totalBatches := length all;
               totalAssets := length (assets E);
               totalEntries := length (entries E);
               m_batchSize := batchSize;
               batches := imap (fun k b => manifestEntry (S k) b) all |})
  end.

(** *** Statements about the result *)

Definition entryIds (b : export) : list string := map entry_id (entries b).

(** The entry holds a link to an asset of the chunk. *)
Definition references (e : entry) (chunk : list asset) : Prop :=
  exists a, In a (getAssetReferencesFromEntry e) /\ In a (map asset_id chunk).

Definition emptyModel (b : export) : Prop :=
  contentTypes b = [] /\ tags b = [] /\ locales b = [] /\
  editorInterfaces b = [] /\ webhooks b = [].

Definition sameModel (b E : export) : Prop :=
  contentTypes b = contentTypes E /\ tags b = tags E /\ locales b = locales E /\
  editorInterfaces b = editorInterfaces E /\ webhooks b = webhooks E.

(** Content-model singularity as the specification words it. *)
Definition contentModelOnlyInFirst (batchSize : nat) (E : export) : Prop :=
  exists out man,
    splitExport batchSize E = Some (out, man) /\
    (exists b0, out !! 0 = Some b0 /\ contentTypes b0 <> []) /\
    (forall i b, out !! i = Some b -> i <> 0 -> emptyModel b).

(** *** Sample exports *)

Definition sampleAsset (id : string) : asset :=
  {| asset_id := id; asset_fields := JObj [] |}.

Definition assetLink (id : string) : value :=
  JObj [("sys", JObj [("type", JStr "Link"); ("linkType", JStr "Asset");
                      ("id", JStr id)])].

(** Three assets; e1 links to a1 and a3, e2 to a3 inside a rich-text tree,
    e3 to nothing. *)
Definition sampleExport : export := {|
  contentTypes := [JObj [("name", JStr "post")]];
  entries :=
    [{| entry_id := "e1";
        entry_fields := JObj [("hero", JObj [("en-US", assetLink "a1")]);
                              ("gallery", JObj [("en-US", JArr [assetLink "a3"])])] |};
     {| entry_id := "e2";
        entry_fields :=
          JObj [("body", JObj [("en-US",
                   JObj [("content", JArr [JObj [("data",
                            JObj [("target", assetLink "a3")])]])])])] |};
     {| entry_id := "e3";
        entry_fields := JObj [("title", JObj [("en-US", JStr "hello")])] |}];
  assets := [sampleAsset "a1"; sampleAsset "a2"; sampleAsset "a3"];
  tags := []; locales := [JObj [("code", JStr "en-US")]];
  editorInterfaces := []; webhooks := [] |}.

(** An export with one asset and no content type. *)
Definition exportWithoutContentTypes : export := {|
  contentTypes := []; entries := []; assets := [sampleAsset "a1"];
  tags := []; locales := []; editorInterfaces := []; webhooks := [] |}.

End Split.

(** ** bin/rateLimiter.js *)

Module Limiter.

Local Open Scope Q_scope.

(** Token counts and rates are JavaScript numbers; they are modelled by exact
    rationals.  Timestamps ([Date.now()]) and durations are integer
    milliseconds. *)
Record bucket := {
  capacity : Q;
  tokens : Q;
  refillRate : Q;
  lastRefill : Z
}.

Record stats := {
  totalRequests : nat;
  totalWaitTime : Z;
  throttledRequests : nat;
  startTime : Z
}.

Record limiter := {
  secondBucket : bucket;
  hourBucket : bucket;
  lstats : stats;
  verbose : bool
}.

(** Rate limits are request counts. *)
Record options := {
  requestsPerSecond : option N;
  requestsPerHour : option N;
  opt_verbose : option bool
}.

(** [x || d] for a count: [undefined] and [0] are falsy. *)
Definition orDefault (x : option N) (d : N) : N :=
  match x with
  | Some (Npos p) => Npos p
  | _ => d
  end.

Definition ofCount (n : N) : Q := inject_Z (Z.of_N n).

(** The constructor; [now] is the clock when the object is built. *)
Definition new (o : options) (now : Z) : limiter :=
  let rps := orDefault (requestsPerSecond o) 10%N in
  let rph := orDefault (requestsPerHour o) 36000%N in
  {| secondBucket := {| capacity := ofCount rps; tokens := ofCount rps;
                        refillRate := ofCount rps; lastRefill := now |};
     hourBucket := {| capacity := ofCount rph; tokens := ofCount rph;
                      refillRate := ofCount rph / 3600; lastRefill := now |};
     lstats := {| totalRequests := 0; totalWaitTime := 0;
                  throttledRequests := 0; startTime := now |};
     verbose := match opt_verbose o with Some false => false | _ => true end |}.

Definition setTokens (b : bucket) (t : Q) : bucket :=
  {| capacity := capacity b; tokens := t; refillRate := refillRate b;
     lastRefill := lastRefill b |}.

(** [refillBucket(bucket)] when [Date.now()] returns [now]. *)
Definition refillBucket (now : Z) (b : bucket) : bucket :=
  let timePassed := inject_Z (now - lastRefill b) / 1000 in
  let tokensToAdd := timePassed * refillRate b in
  {| capacity := capacity b;
     tokens := Qmin (capacity b) (tokens b + tokensToAdd);
     refillRate := refillRate b;
     lastRefill := now |}.

(** What an admission does, in order. *)
Inductive event :=
| EvRefill (which : string) (after : Q)
| EvSleep (ms : Z)
| EvDeduct (which : string) (before : Q)
| EvCall (start finish : Z).

Definition waitTimeFor (b : bucket) : Z :=
  Qceiling ((1 - tokens b) / refillRate b * 1000).

(** [waitForToken(bucket, bucketName)] entered at time [now].  A timer set
    for [ms] fires [ms + late] after it was set.  The result is the bucket,
    the statistics, the clock on return and what was done. *)
Definition waitForToken (now late : Z) (bucketName : string)
    (b : bucket) (s : stats) : bucket * stats * Z * list event :=
  let b1 := refillBucket now b in
  if Qlt_le_dec (tokens b1) 1 then
    let waitTime := waitTimeFor b1 in
    let s' := {| totalRequests := totalRequests s;
                 totalWaitTime := (totalWaitTime s + waitTime)%Z;
                 throttledRequests := S (throttledRequests s);
                 startTime := startTime s |} in
    let now' := (now + waitTime + late)%Z in
    let b2 := refillBucket now' b1 in
    (setTokens b2 (tokens b2 - 1), s', now',
     [EvRefill bucketName (tokens b1); EvSleep waitTime;
      EvRefill bucketName (tokens b2); EvDeduct bucketName (tokens b2)])
  else
    (setTokens b1 (tokens b1 - 1), s, now,
     [EvRefill bucketName (tokens b1); EvDeduct bucketName (tokens b1)]).

Record jsError := {
  message : string;
  status : option Z;
  statusCode : option Z
}.

Inductive outcome (A : Type) :=
| Resolved (a : A)
| Rejected (e : jsError).
Arguments Resolved {A} a.
Arguments Rejected {A} e.

(** [error.status === 429 || error.statusCode === 429] *)
Definition is429 (e : jsError) : bool :=
  match status e with
  | Some 429%Z => true
  | _ => match statusCode e with Some 429%Z => true | _ => false end
  end.

(** How late each of the three timers of one [throttle] call fires. *)
Record lateness := { lateSecond : Z; lateHour : Z; lateCooldown : Z }.

Definition bumpRequests (s : stats) : stats :=
  {| totalRequests := S (totalRequests s); totalWaitTime := totalWaitTime s;
     throttledRequests := throttledRequests s; startTime := startTime s |}.

(** The first statements of [throttle]: a token of each bucket is awaited
    and taken, and the request is counted.  The result is the limiter, the
    clock and what was done. *)
Definition acquireTokens (now : Z) (late : lateness) (l : limiter)
  : limiter * Z * list event :=
  let '(sb, s1, t1, ev1) :=
    waitForToken now (lateSecond late) "per-second" (secondBucket l) (lstats l) in
  let '(hb, s2, t2, ev2) :=
    waitForToken t1 (lateHour late) "per-hour" (hourBucket l) s1 in
  ({| secondBucket := sb; hourBucket := hb; lstats := bumpRequests s2;
      verbose := verbose l |}, t2, ev1 ++ ev2).

(** The [catch] branch for a 429: the two assignments after the pause. *)
Definition conservativeReset (l : limiter) : limiter :=
  {| secondBucket := setTokens (secondBucket l) 0;
     hourBucket := setTokens (hourBucket l)
                     (Qmin (tokens (hourBucket l))
                           (capacity (hourBucket l) * (1 # 2)));
     lstats := lstats l; verbose := verbose l |}.

(** [throttle(fn)] entered at time [now].  The wrapped operation, started at
    time [t], settles [fst (fn t)] milliseconds later with [snd (fn t)]. *)
Definition throttle {A : Type} (now : Z) (late : lateness)
    (fn : Z -> Z * outcome A) (l : limiter)
  : limiter * Z * outcome A * list event :=
  let '(l1, t2, ev) := acquireTokens now late l in
  let '(d, r) := fn t2 in
  let t3 := (t2 + d)%Z in
  match r with
  | Resolved a => (l1, t3, Resolved a, ev ++ [EvCall t2 t3])
  | Rejected e =>
      if is429 e then
        (conservativeReset l1, (t3 + 60000 + lateCooldown late)%Z, Rejected e,
         ev ++ [EvCall t2 t3; EvSleep 60000])
      else (l1, t3, Rejected e, ev ++ [EvCall t2 t3])
  end.

(** [updateFromHeaders(headers)]; the arguments are the two [parseInt]
    results, [None] for [NaN]. *)
Definition updateFromHeaders (secondRemaining hourRemaining : option Z)
    (l : limiter) : limiter :=
  let sb := match secondRemaining with
            | Some r => setTokens (secondBucket l)
                          (Qmin (tokens (secondBucket l)) (inject_Z r))
            | None => secondBucket l
            end in
  let hb := match hourRemaining with
            | Some r => setTokens (hourBucket l)
                          (Qmin (tokens (hourBucket l)) (inject_Z r))
            | None => hourBucket l
            end in
  {| secondBucket := sb; hourBucket := hb; lstats := lstats l;
     verbose := verbose l |}.

(** *** Statements about the buckets *)

(** The bound on the token count, together with what it rests on: a bucket
    that holds at least one token when full, a positive refill rate, and a
    last refill that is not in the future. *)
Definition bucketOk (now : Z) (b : bucket) : Prop :=
  0 <= tokens b /\ tokens b <= capacity b /\
  1 <= capacity b /\ 0 < refillRate b /\ (lastRefill b <= now)%Z.

Definition limiterOk (now : Z) (l : limiter) : Prop :=
  bucketOk now (secondBucket l) /\ bucketOk now (hourBucket l).

Definition lateOk (late : lateness) : Prop :=
  (0 <= lateSecond late /\ 0 <= lateHour late /\ 0 <= lateCooldown late)%Z.

(** A reported count of remaining requests is not negative. *)
Definition remainingOk (r : option Z) : Prop :=
  match r with Some n => (0 <= n)%Z | None => True end.

(** The limiters that a process can hold at time [now]: built by the
    constructor and used through [throttle] and [updateFromHeaders] while
    time passes. *)
Inductive reachable : Z -> limiter -> Prop :=
| reach_new (o : options) (now : Z) : reachable now (new o now)
| reach_later (now now' : Z) (l : limiter) :
    reachable now l -> (now <= now')%Z -> reachable now' l
| reach_throttle (A : Type) (now now' : Z) (late : lateness)
    (fn : Z -> Z * outcome A) (l l' : limiter) (r : outcome A) (ev : list event) :
    reachable now l -> lateOk late -> (forall t, 0 <= fst (fn t))%Z ->
    throttle now late fn l = (l', now', r, ev) -> reachable now' l'
| reach_headers (now : Z) (sr hr : option Z) (l : limiter) :
    reachable now l -> remainingOk sr -> remainingOk hr ->
    reachable now (updateFromHeaders sr hr l).

(** *** Sample runs *)

Definition defaults : options :=
  {| requestsPerSecond := None; requestsPerHour := None; opt_verbose := None |}.

Definition onTime : lateness :=
  {| lateSecond := 0; lateHour := 0; lateCooldown := 0 |}.

Definition tooManyRequests : jsError :=
  {| message := "Too Many Requests"; status := Some 429%Z; statusCode := None |}.

(** One request per second: the second admission has to wait. *)
Definition onePerSecond : options :=
  {| requestsPerSecond := Some 1%N; requestsPerHour := None; opt_verbose := None |}.

(** An operation that resolves after 5 ms. *)
Definition resolved (t : Z) : Z * outcome unit := (5%Z, Resolved tt).

(** An operation that is rejected with a 429 after 5 ms. *)
Definition rejected429 (t : Z) : Z * outcome unit := (5%Z, Rejected tooManyRequests).

End Limiter.

(** ** JavaScript numbers as IEEE 754 binary64 *)

Module Float64.
Import SpecFloat.
Local Open Scope Z_scope.

Definition prec : Z := 53.
Definition emax : Z := 1024.

(** A JavaScript number: a double, as the sign, mantissa and exponent of
    its value [m * 2 ^ e]. *)
Definition number : Type := spec_float.

(** The number an integer converts to (exact up to [2 ^ 53]). *)
Definition ofZ (z : Z) : number := binary_normalize prec emax z 0 false.

(** The literal [0.5]. *)
Definition half : number := binary_normalize prec emax 1 (-1) false.

(** [x + y], [x - y], [x * y], [x / y], rounded to the nearest double, ties
    to even. *)
Definition add : number -> number -> number := SFadd prec emax.
Definition sub : number -> number -> number := SFsub prec emax.
Definition mul : number -> number -> number := SFmul prec emax.
Definition div : number -> number -> number := SFdiv prec emax.

(** [x < y]; false when an operand is [NaN]. *)
Definition ltb : number -> number -> bool := SFltb.

Definition isNegative (x : number) : bool :=
  match x with
  | S754_zero s | S754_infinity s | S754_finite s _ _ => s
  | S754_nan => false
  end.

(** [Math.min(x, y)] *)
Definition min (x y : number) : number :=
  match SFcompare x y with
  | Some Lt => x
  | Some Gt => y
  | Some Eq => if isNegative x then x else y
  | None => S754_nan
  end.

(** The least integer that is not below a finite number. *)
Definition ceilZ (x : number) : option Z :=
  match x with
  | S754_zero _ => Some 0
  | S754_finite s m e =>
      let v := if s then Z.neg m else Z.pos m in
      Some (if 0 <=? e then v * 2 ^ e else - ((- v) / 2 ^ (- e)))
  | _ => None
  end.

(** [Math.ceil(x)] *)
Definition ceil (x : number) : number :=
  match ceilZ x with
  | Some z => if (z =? 0) && isNegative x then S754_zero true else ofZ z
  | None => x
  end.

(** The delay of [setTimeout(f, x)] in milliseconds: Node.js truncates the
    number to an integer and uses 1 ms when the result is below 1, above
    [2 ^ 31 - 1] or not a number. *)
Definition timerDelay (x : number) : Z :=
  match x with
  | S754_finite s m e =>
      let v := if s then Z.neg m else Z.pos m in
      let t := if 0 <=? e then v * 2 ^ e else Z.quot v (2 ^ (- e)) in
      if (1 <=? t) && (t <=? 2147483647) then t else 1
  | _ => 1
  end.

(** The value of a finite number, as a fraction. *)
Definition valueOf (x : number) : option Q :=
  match x with
  | S754_zero _ => Some (0 # 1)%Q
  | S754_finite s m e =>
      let v := if s then Z.neg m else Z.pos m in
      Some (if 0 <=? e then inject_Z (v * 2 ^ e)
            else (v # Z.to_pos (2 ^ (- e)))%Q)
  | _ => None
  end.

(** The finite number [x] has the value [q]. *)
Definition hasValue (x : number) (q : Q) : Prop :=
  match valueOf x with
  | Some v => (v == q)%Q
  | None => False
  end.

End Float64.

(** ** bin/rateLimiter.js in double precision *)

(** The class as the engine runs it: token counts and rates are doubles,
    and every operation on them rounds.  [Limiter] above is the same
    algorithm over exact fractions. *)
Module RateLimiter.
Import Float64.

Record bucket := {
  capacity : number;
  tokens : number;
  refillRate : number;
  lastRefill : Z
}.

Record stats := {
  totalRequests : nat;
  totalWaitTime : number;
  throttledRequests : nat;
  startTime : Z
}.

Record limiter := {
  secondBucket : bucket;
  hourBucket : bucket;
  lstats : stats;
  verbose : bool
}.

Definition ofCount (n : N) : number := ofZ (Z.of_N n).

(** The constructor; [now] is what [Date.now()] returns. *)
Definition new (o : Limiter.options) (now : Z) : limiter :=
  let rps := Limiter.orDefault (Limiter.requestsPerSecond o) 10%N in
  let rph := Limiter.orDefault (Limiter.requestsPerHour o) 36000%N in
  {| secondBucket := {| capacity := ofCount rps; tokens := ofCount rps;
                        refillRate := ofCount rps; lastRefill := now |};
     hourBucket := {| capacity := ofCount rph; tokens := ofCount rph;
                      refillRate := div (ofCount rph) (ofZ 3600);
                      lastRefill := now |};
     lstats := {| totalRequests := 0; totalWaitTime := ofZ 0;
                  throttledRequests := 0; startTime := now |};
     verbose := match Limiter.opt_verbose o with Some false => false | _ => true end |}.

Definition setTokens (b : bucket) (t : number) : bucket :=
  {| capacity := capacity b; tokens := t; refillRate := refillRate b;
     lastRefill := lastRefill b |}.

(** [refillBucket(bucket)] when [Date.now()] returns [now]. *)
Definition refillBucket (now : Z) (b : bucket) : bucket :=
  let timePassed := div (sub (ofZ now) (ofZ (lastRefill b))) (ofZ 1000) in
  let tokensToAdd := mul timePassed (refillRate b) in
  {| capacity := capacity b;
     tokens := min (capacity b) (add (tokens b) tokensToAdd);
     refillRate := refillRate b;
     lastRefill := now |}.

(** What an admission does, in order. *)
Inductive event :=
| EvRefill (which : string) (after : number)
| EvSleep (ms : number)
| EvDeduct (which : string) (before : number)
| EvCall (start finish : Z).

(** [Math.ceil((tokensNeeded / bucket.refillRate) * 1000)] *)
Definition waitTimeFor (b : bucket) : number :=
  let tokensNeeded := sub (ofZ 1) (tokens b) in
  ceil (mul (div tokensNeeded (refillRate b)) (ofZ 1000)).

(** [waitForToken(bucket, bucketName)] entered at time [now]; the timer
    fires [late] ms after its delay has passed ([late] is negative for a
    timer that fires early by the clock [Date.now()] reads). *)
Definition waitForToken (now late : Z) (bucketName : string)
    (b : bucket) (s : stats) : bucket * stats * Z * list event :=
  let b1 := refillBucket now b in
  if ltb (tokens b1) (ofZ 1) then
    let waitTime := waitTimeFor b1 in
    let s' := {| totalRequests := totalRequests s;
                 totalWaitTime := add (totalWaitTime s) waitTime;
                 throttledRequests := S (throttledRequests s);
                 startTime := startTime s |} in
    let now' := (now + timerDelay waitTime + late)%Z in
    let b2 := refillBucket now' b1 in
    (setTokens b2 (sub (tokens b2) (ofZ 1)), s', now',
     [EvRefill bucketName (tokens b1); EvSleep waitTime;
      EvRefill bucketName (tokens b2); EvDeduct bucketName (tokens b2)])
  else
    (setTokens b1 (sub (tokens b1) (ofZ 1)), s, now,
     [EvRefill bucketName (tokens b1); EvDeduct bucketName (tokens b1)]).

Definition bumpRequests (s : stats) : stats :=
  {| totalRequests := S (totalRequests s); totalWaitTime := totalWaitTime s;
     throttledRequests := throttledRequests s; startTime := startTime s |}.

(** [throttle(fn)] entered at time [now].  The wrapped operation, started at
    time [t], settles [fst (fn t)] milliseconds later with [snd (fn t)]. *)
Definition throttle {A : Type} (now : Z) (late : Limiter.lateness)
    (fn : Z -> Z * Limiter.outcome A) (l : limiter)
  : limiter * Z * Limiter.outcome A * list event :=
  let '(sb, s1, t1, ev1) :=
    waitForToken now (Limiter.lateSecond late) "per-second" (secondBucket l) (lstats l) in
  let '(hb, s2, t2, ev2) :=
    waitForToken t1 (Limiter.lateHour late) "per-hour" (hourBucket l) s1 in
  let l1 := {| secondBucket := sb; hourBucket := hb; lstats := bumpRequests s2;
               verbose := verbose l |} in
  let '(d, r) := fn t2 in
  let t3 := (t2 + d)%Z in
  match r with
  | Limiter.Resolved a => (l1, t3, Limiter.Resolved a, ev1 ++ ev2 ++ [EvCall t2 t3])
  | Limiter.Rejected e =>
      if Limiter.is429 e then
        ({| secondBucket := setTokens sb (ofZ 0);
            hourBucket := setTokens hb (min (tokens hb) (mul (capacity hb) half));
            lstats := bumpRequests s2; verbose := verbose l |},
         (t3 + 60000 + Limiter.lateCooldown late)%Z, Limiter.Rejected e,
         ev1 ++ ev2 ++ [EvCall t2 t3; EvSleep (ofZ 60000)])
      else (l1, t3, Limiter.Rejected e, ev1 ++ ev2 ++ [EvCall t2 t3])
  end.

(** [updateFromHeaders(headers)]; the arguments are the two [parseInt]
    results, [None] for [NaN]. *)
Definition updateFromHeaders (secondRemaining hourRemaining : option Z)
    (l : limiter) : limiter :=
  let sb := match secondRemaining with
            | Some r => setTokens (secondBucket l) (min (tokens (secondBucket l)) (ofZ r))
            | None => secondBucket l
            end in
  let hb := match hourRemaining with
            | Some r => setTokens (hourBucket l) (min (tokens (hourBucket l)) (ofZ r))
            | None => hourBucket l
            end in
  {| secondBucket := sb; hourBucket := hb; lstats := lstats l;
     verbose := verbose l |}.

(** *** The bound on the token count *)

(** [0 <= tokens <= capacity] *)
Definition withinBounds (b : bucket) : bool :=
  SpecFloat.SFleb (ofZ 0) (tokens b) && SpecFloat.SFleb (tokens b) (capacity b).

(** *** Runs *)

(** A caller that enters [throttle] when the clock reads each of [arrivals]
    in turn (or when the call before has returned, if that is later), with an
    operation that resolves at once.  The result is the limiter, the clock
    and the events of each call. *)
Fixpoint calls (late : Limiter.lateness) (arrivals : list Z) (now : Z) (l : limiter)
  : limiter * Z * list (list event) :=
  match arrivals with
  | [] => (l, now, [])
  | t :: rest =>
      let '(l1, now1, _, ev) :=
        throttle (Z.max now t) late (fun _ => (0%Z, Limiter.Resolved tt)) l in
      let '(l2, now2, evs) := calls late rest now1 l1 in
      (l2, now2, ev :: evs)
  end.

(** The clock when the sample process starts (2023-11-14T22:13:20Z). *)
Definition clock0 : Z := 1700000000000.

(** Ten calls in the first millisecond and one 8 ms later. *)
Definition burstAndOne : list Z :=
  repeat clock0 10 ++ [(clock0 + 8)%Z].

(** The same, followed by calls 114 ms and 200 ms after the start. *)
Definition burstAndThree : list Z :=
  burstAndOne ++ [(clock0 + 114)%Z; (clock0 + 200)%Z].

(** Every timer fires 1 ms before its delay has passed. *)
Definition oneEarly : Limiter.lateness :=
  {| Limiter.lateSecond := -1; Limiter.lateHour := -1; Limiter.lateCooldown := -1 |}.

(** [0.08], [0.9999999999999999], [-1.1102230246251565e-16] and
    [-2.220446049250313e-16] as doubles. *)
Definition d0_08 : number := SpecFloat.S754_finite false 5764607523034235 (-56).
Definition belowOne : number := SpecFloat.S754_finite false 9007199254740991 (-53).
Definition minusUlp : number := SpecFloat.S754_finite true 4503599627370496 (-105).
Definition minusTwoUlp : number := SpecFloat.S754_finite true 4503599627370496 (-104).

End RateLimiter.

(** ** bin/import.js: state store and batch loop *)

Module Importer.

Record failedBatch := { batch : string; error : string; timestamp : string }.

(** The document kept in import-state.json. *)
Record importState := {
  startedAt : string;
  completedBatches : list string;
  failedBatches : list failedBatch;
  currentBatch : option string
}.

Record importOptions := {
  maxRetries : nat;
  retryDelay : Z;
  delayBetweenBatches : Z;
  uploadAssets : bool;
  skipContentPublishing : bool;
  skipContentUpdates : bool;
  skipAssetUpdates : bool
}.

(** *** The state file *)

(** [JSON.stringify(s)] for a string.  Strings are byte strings here; the
    quote, the backslash and the control characters are escaped as
    [JSON.stringify] escapes them. *)
Definition dquote : ascii := ascii_of_nat 34.
Definition backslash : ascii := ascii_of_nat 92.

Definition hexDigit (n : nat) : ascii :=
  if Nat.ltb n 10 then ascii_of_nat (48 + n) else ascii_of_nat (87 + n).

Definition escapeChar (c : ascii) : string :=
  let n := nat_of_ascii c in
  if Ascii.eqb c dquote then String backslash (String c EmptyString)
  else if Ascii.eqb c backslash then String backslash (String c EmptyString)
  else if Nat.eqb n 8 then String backslash "b"
  else if Nat.eqb n 9 then String backslash "t"
  else if Nat.eqb n 10 then String backslash "n"
  else if Nat.eqb n 12 then String backslash "f"
  else if Nat.eqb n 13 then String backslash "r"
  else if Nat.ltb n 32 then
    String backslash
      (String.append "u00"
         (String (hexDigit (n / 16)) (String (hexDigit (n mod 16)) EmptyString)))
  else String c EmptyString.

Fixpoint escapeChars (s : string) : string :=
  match s with
  | EmptyString => EmptyString
  | String c rest => String.append (escapeChar c) (escapeChars rest)
  end.

Definition quote (s : string) : string :=
  String dquote (String.append (escapeChars s) (String dquote EmptyString)).

Definition nl : string := String "010"%char EmptyString.

(** An array printed with [JSON.stringify(_, null, 2)] at the given
    indentation; [items] are the already printed elements. *)
Definition printArray (indent : string) (items : list string) : string :=
  match items with
  | [] => "[]"
  | _ =>
      String.append "["
        (String.append nl
          (String.append
            (String.concat (String.append "," nl)
               (map (String.append (String.append indent "  ")) items))
            (String.append nl (String.append indent "]"))))
  end.

Definition printFailed (f : failedBatch) : string :=
  String.concat EmptyString
    ["{"; nl;
     "      "; quote "batch"; ": "; quote (batch f); ","; nl;
     "      "; quote "error"; ": "; quote (error f); ","; nl;
     "      "; quote "timestamp"; ": "; quote (timestamp f); nl;
     "    }"].

(** [JSON.stringify(state, null, 2)] *)
Definition JSON_stringify (s : importState) : string :=
  String.concat EmptyString
    ["{"; nl;
     "  "; quote "startedAt"; ": "; quote (startedAt s); ","; nl;
     "  "; quote "completedBatches"; ": ";
       printArray "  " (map quote (completedBatches s)); ","; nl;
     "  "; quote "failedBatches"; ": ";
       printArray "  " (map printFailed (failedBatches s)); ","; nl;
     "  "; quote "currentBatch"; ": ";
       match currentBatch s with Some b => quote b | None => "null" end; nl;
     "}"].

(** A file store: the content of each existing path. *)
Abbreviation files := (gmap string string).

(** [fs.writeFileSync(path, data)] opens [path] with flag 'w', which creates
    or truncates the file, and then writes [data]; the two steps are separate
    system calls.  There is no other file operation in [saveState]. *)
Inductive fsStep :=
| FsTruncate (path : string)
| FsWrite (path : string) (data : string).

Definition fsApply (f : files) (st : fsStep) : files :=
  match st with
  | FsTruncate p => <[p := EmptyString]> f
  | FsWrite p d => <[p := String.append (default EmptyString (f !! p)) d]> f
  end.

Definition fsRun (f : files) (steps : list fsStep) : files :=
  fold_left fsApply steps f.

Definition writeFileSync (path data : string) : list fsStep :=
  [FsTruncate path; FsWrite path data].

Definition STATE_FILE (outputDir : string) : string :=
  String.append outputDir "/import-state.json".

(** [saveState(state)] as file operations. *)
Definition saveState (outputDir : string) (s : importState) : list fsStep :=
  writeFileSync (STATE_FILE outputDir) (JSON_stringify s).

(** What a reader of the state file can find when the process stops after
    any number of the steps of one [saveState]. *)
Definition observableDuringSave (outputDir : string) (f : files)
    (s : importState) : list (option string) :=
  map (fun k => fsRun f (firstn k (saveState outputDir s)) !! STATE_FILE outputDir)
      (seq 0 (S (length (saveState outputDir s)))).

(** *** The batch loop *)

(** What a run does, in order: [saveState(s)], [sleep(ms)], and a call of
    [importBatch] with whether its promise resolved. *)
Inductive driverEvent :=
| DSave (s : importState)
| DSleep (ms : Z)
| DImport (batchNum : string) (isFirstBatch : bool) (ok : bool).

(** The file store after the saves of a run, each carried out to its end. *)
Definition replaySaves (outputDir : string) (f : files) (tr : list driverEvent)
  : files :=
  fold_left (fun f e => match e with
                        | DSave s => fsRun f (saveState outputDir s)
                        | _ => f
                        end) tr f.

Inductive exitStatus := ExitOk | ExitFailures | ExitFatal.

Section Run.
(** Everything outside the process: the target space, the clock. *)
Variable W : Type.
(** [importBatch(batchDir, batchNum, isFirstBatch)]: [None] when the
    promise resolves, [Some msg] when it rejects with [error.message = msg]. *)
Variable importBatch : string -> string -> bool -> W -> W * option string.
(** [new Date().toISOString()] *)
Variable toISOString : W -> string.

Variable outputDir : string.
Variable opts : importOptions.
Variable m : Split.manifest.

Record driver := {
  state : importState;
  world : W;
  trace : list driverEvent;
  successCount : nat;
  failureCount : nat
}.

Definition emit (d : driver) (e : driverEvent) : driver :=
  {| state := state d; world := world d; trace := trace d ++ [e];
     successCount := successCount d; failureCount := failureCount d |}.

(** [state.completedBatches.push(batchNum); state.currentBatch = null;
    saveState(state)] after [successCount++]. *)
Definition markCompleted (batchNum : string) (d : driver) : driver :=
  let s' := {| startedAt := startedAt (state d);
               completedBatches := completedBatches (state d) ++ [batchNum];
               failedBatches := failedBatches (state d);
               currentBatch := None |} in
  {| state := s'; world := world d; trace := trace d ++ [DSave s'];
     successCount := S (successCount d); failureCount := failureCount d |}.

(** [state.failedBatches.push({...}); state.currentBatch = null;
    saveState(state); failureCount++] *)
Definition markFailed (batchNum msg : string) (d : driver) : driver :=
  let s' := {| startedAt := startedAt (state d);
               completedBatches := completedBatches (state d);
               failedBatches := failedBatches (state d) ++
                 [{| batch := batchNum; error := msg;
                     timestamp := toISOString (world d) |}];
               currentBatch := None |} in
  {| state := s'; world := world d; trace := trace d ++ [DSave s'];
     successCount := successCount d; failureCount := S (failureCount d) |}.

(** [state.currentBatch = batchNum; saveState(state)] *)
Definition markInFlight (batchNum : string) (d : driver) : driver :=
  let s' := {| startedAt := startedAt (state d);
               completedBatches := completedBatches (state d);
               failedBatches := failedBatches (state d);
               currentBatch := Some batchNum |} in
  {| state := s'; world := world d; trace := trace d ++ [DSave s'];
     successCount := successCount d; failureCount := failureCount d |}.

Definition setWorld (w : W) (d : driver) : driver :=
  {| state := state d; world := w; trace := trace d;
     successCount := successCount d; failureCount := failureCount d |}.

(** [while (retries <= importOptions.maxRetries && !success) { ... }] for
    batch [i]; [None] when [fuel] iterations were not enough. *)
Fixpoint retryLoop (fuel i : nat) (batchDir batchNum : string)
    (hasCM : bool) (retries : nat) (success : bool) (d : driver)
  : option driver :=
  if Nat.leb retries (maxRetries opts) && negb success then
    match fuel with
    | 0 => None
    | S fuel' =>
        let d1 := if Nat.ltb 0 retries
                  then emit d (DSleep (retryDelay opts * Z.of_nat retries))
                  else d in
        match importBatch batchDir batchNum hasCM (world d1) with
        | (w', None) =>
            let d2 := emit (setWorld w' d1) (DImport batchNum hasCM true) in
            let d3 := markCompleted batchNum d2 in
            let d4 := if Nat.ltb i (Split.totalBatches m)
                      then emit d3 (DSleep (delayBetweenBatches opts))
                      else d3 in
            retryLoop fuel' i batchDir batchNum hasCM retries true d4
        | (w', Some msg) =>
            let retries' := S retries in
            let d2 := emit (setWorld w' d1) (DImport batchNum hasCM false) in
            let d3 := if Nat.ltb (maxRetries opts) retries'
                      then markFailed batchNum msg d2
                      else d2 in
            retryLoop fuel' i batchDir batchNum hasCM retries' false d3
        end
    end
  else Some d.

Inductive loopResult :=
| Finished (d : driver)
| Fatal (d : driver)
| OutOfFuel.

(** One iteration of [for (let i = startFromBatch; i <= totalBatches; i++)]
    for a batch that is not skipped: [None] when [manifest.batches.find]
    returns [undefined], on which reading [batchInfo.assets] throws. *)
Definition processBatch (i : nat) (d : driver) : option (option driver) :=
  let batchNum := batchNumOf i in
  let batchDir := String.append outputDir (String.append "/batch-" batchNum) in
  match List.find (fun b => String.eqb (Split.batchId b)
                              (String.append "batch-" batchNum))
                  (Split.batches m) with
  | None => None
  | Some batchInfo =>
      Some (retryLoop (S (maxRetries opts)) i batchDir batchNum
              (Split.hasContentModel batchInfo) 0 false
              (markInFlight batchNum d))
  end.

Fixpoint batchLoop (fuel i : nat) (d : driver) : loopResult :=
  if Nat.leb i (Split.totalBatches m) then
    match fuel with
    | 0 => OutOfFuel
    | S fuel' =>
        if existsb (String.eqb (batchNumOf i)) (completedBatches (state d))
        then batchLoop fuel' (S i) d
        else match processBatch i d with
             | None => Fatal d
             | Some None => OutOfFuel
             | Some (Some d') => batchLoop fuel' (S i) d'
             end
    end
  else Finished d.

(** [loadState()] *)
Definition loadState (stored : option importState) (w : W) : importState :=
  match stored with
  | Some s => s
  | None => {| startedAt := toISOString w; completedBatches := [];
               failedBatches := []; currentBatch := None |}
  end.

(** [importAllBatches(startFromBatch)] run with the state file holding
    [stored] (or absent). *)
Definition importAllBatches (startFromBatch : nat)
    (stored : option importState) (w : W) : loopResult :=
  batchLoop (S (Split.totalBatches m) - startFromBatch) startFromBatch
    {| state := loadState stored w; world := w; trace := [];
       successCount := 0; failureCount := 0 |}.

Definition exitOf (r : loopResult) : exitStatus :=
  match r with
  | Finished d => if Nat.ltb 0 (failureCount d) then ExitFailures else ExitOk
  | _ => ExitFatal
  end.
End Run.

(** *** Statements about a run *)

(** Nothing is removed from either collection. *)
Definition grows (s s' : importState) : Prop :=
  completedBatches s `prefix_of` completedBatches s' /\
  failedBatches s `prefix_of` failedBatches s'.

(** Each saved state grows from the one before it, [s0] being the state
    before the first event. *)
Fixpoint monotone (s0 : importState) (tr : list driverEvent) : Prop :=
  match tr with
  | [] => True
  | DSave s :: rest => grows s0 s /\ monotone s rest
  | _ :: rest => monotone s0 rest
  end.

(** The state last saved, [s0] when none was. *)
Fixpoint persisted (s0 : importState) (tr : list driverEvent) : importState :=
  match tr with
  | [] => s0
  | DSave s :: rest => persisted s rest
  | _ :: rest => persisted s0 rest
  end.

Definition isAttemptOf (batchNum : string) (e : driverEvent) : bool :=
  match e with
  | DImport b _ _ => String.eqb b batchNum
  | _ => false
  end.

(** How many times [importBatch] was called for the batch. *)
Definition attempts (batchNum : string) (tr : list driverEvent) : nat :=
  length (List.filter (isAttemptOf batchNum) tr).

Definition succeeded (batchNum : string) (tr : list driverEvent) : Prop :=
  exists isFirstBatch, In (DImport batchNum isFirstBatch true) tr.

(** [d'] continues [d]: new events only; the saved states grow; the state
    in memory is the one last saved; and a batch is completed in [d'] only
    if it was in [d] or an attempt on it succeeded in between. *)
Definition continues {W : Type} (d d' : driver W) : Prop :=
  exists evs,
    trace W d' = trace W d ++ evs /\
    monotone (state W d) evs /\
    persisted (state W d) evs = state W d' /\
    (forall b, In b (completedBatches (state W d')) ->
       In b (completedBatches (state W d)) \/ succeeded b evs).

(** The state after the batch was recorded as failed. *)
Definition failedState (s : importState) (num msg stamp : string) : importState :=
  {| startedAt := startedAt s;
     completedBatches := completedBatches s;
     failedBatches := failedBatches s ++
       [{| batch := num; error := msg; timestamp := stamp |}];
     currentBatch := None |}.

(** Atomic persistence as the specification words it: whenever the process
    stops during a save, the state file holds the previous document or the
    new one. *)
Definition atomicSave : Prop :=
  forall (outputDir : string) (f : files) (old : string) (s : importState),
    f !! STATE_FILE outputDir = Some old ->
    forall seen, In seen (observableDuringSave outputDir f s) ->
      seen = Some old \/ seen = Some (JSON_stringify s).

(** *** Sample runs *)

Definition freshState : importState :=
  {| startedAt := "2024-01-01T00:00:00.000Z"; completedBatches := [];
     failedBatches := []; currentBatch := None |}.

Definition oneDone : importState :=
  {| startedAt := "2024-01-01T00:00:00.000Z"; completedBatches := ["01"];
     failedBatches := []; currentBatch := None |}.

Definition sampleOptions : importOptions :=
  {| maxRetries := 3; retryDelay := 5000; delayBetweenBatches := 180000;
     uploadAssets := true; skipContentPublishing := false;
     skipContentUpdates := false; skipAssetUpdates := false |}.

Definition sampleManifest : Split.manifest :=
  {| Split.totalBatches := 2; Split.totalAssets := 2; Split.totalEntries := 2;
     Split.m_batchSize := 1;
     Split.batches :=
       [{| Split.batchNumber := 1; Split.batchId := "batch-01";
           Split.mb_assets := 1; Split.mb_entries := 1;
           Split.hasContentModel := true |};
        {| Split.batchNumber := 2; Split.batchId := "batch-02";
           Split.mb_assets := 1; Split.mb_entries := 1;
           Split.hasContentModel := false |}] |}.

(** A target on which batch 01 always fails and every other batch imports;
    the world counts the calls. *)
Definition firstAlwaysFails (batchDir batchNum : string) (isFirstBatch : bool)
    (w : nat) : nat * option string :=
  (S w, if String.eqb batchNum "01" then Some "content type rejected" else None).

Definition stamp (w : nat) : string := String.append "t" (String_of_nat w).

Definition alwaysImports (batchDir batchNum : string) (isFirstBatch : bool)
    (w : nat) : nat * option string := (S w, None).

Definition driverAt (s : importState) : driver nat :=
  {| state := s; world := 0; trace := []; successCount := 0; failureCount := 0 |}.

(** The state left by a run in which batch 01 exhausted its retries and
    batch 02 was imported. *)
Definition firstFailed : importState :=
  {| startedAt := "2024-01-01T00:00:00.000Z"; completedBatches := ["02"];
     failedBatches := [{| batch := "01"; error := "content type rejected";
                          timestamp := "t4" |}];
     currentBatch := None |}.

End Importer.

(** ** bin/import.js: one batch against the management SDK *)

Module Sdk.
Import Importer.

(** The requests the SDK sends to the target space. *)
Inductive remoteCall :=
| GetSpace
| GetEnvironment
| GetLocales
| CreateLocale (code : string)
| CreateTag (id : string)
| CreateContentTypeWithId (id : string)
| PublishContentType (id : string)
| GetContentType (id : string)
| GetEditorInterface (id : string)
| UpdateEditorInterface (id : string)
| GetAsset (id : string)
| CreateAssetWithId (id : string)
| ProcessForAllLocales (id : string)
| PublishAsset (id : string)
| GetEntry (id : string)
| CreateEntryWithId (contentTypeId id : string)
| PublishEntry (id : string).

(** The batch document, with the properties [importBatch] reads. *)
Record locale := { code : string }.
Record tag := { tag_id : string; tag_name : string }.
Record contentType := { ct_id : string; ct_name : string }.
Record editorInterface := { ei_contentType : string }.
Record assetDoc := { a_id : string }.
Record entryDoc := { e_id : string; e_contentType : string }.

Record batchData := {
  bd_contentTypes : list contentType;
  bd_locales : list locale;
  bd_tags : list tag;
  bd_editorInterfaces : list editorInterface;
  bd_assets : list assetDoc;
  bd_entries : list entryDoc
}.

(** What the process does that is visible outside: a request, tagged with
    the admission ([throttle] call) inside which it is sent, if any; and a
    pause. *)
Inductive sdkEvent :=
| Remote (c : remoteCall) (admission : option nat)
| Pause (ms : Z).

Record sdkWorld := {
  log : list sdkEvent;
  sent : nat;
  admissions : nat;
  inside : option nat
}.

Definition errorMessage := string.

(** A computation that may throw. *)
Definition M (A : Type) : Type := sdkWorld -> sdkWorld * (A + errorMessage).

#[local] Instance M_ret : MRet M := fun A a w => (w, inl a).
#[local] Instance M_bind : MBind M := fun A B f c w =>
  match c w with
  | (w', inl a) => f a w'
  | (w', inr e) => (w', inr e)
  end.

Definition tryCatch {A : Type} (body : M A) (handler : errorMessage -> M A) : M A :=
  fun w => match body w with
           | (w', inl a) => (w', inl a)
           | (w', inr e) => handler e w'
           end.

Fixpoint forEach {A : Type} (l : list A) (body : A -> M unit) : M unit :=
  match l with
  | [] => mret tt
  | x :: rest => body x ;; forEach rest body
  end.

Section Batch.
(** The target space: the answer to the [n]-th request sent.  For
    [getLocales] the codes of the existing locales, for [getAsset] whether
    each file of the asset has a url. *)
Variable respond : nat -> remoteCall -> unit + errorMessage.
Variable localeCodes : nat -> list string + errorMessage.
Variable assetFiles : nat -> string -> list bool + errorMessage.

Variable rateLimiterEnabled : bool.
Variable opts : importOptions.

Definition record (c : remoteCall) (w : sdkWorld) : sdkWorld :=
  {| log := log w ++ [Remote c (inside w)]; sent := S (sent w);
     admissions := admissions w; inside := inside w |}.

Definition call (c : remoteCall) : M unit :=
  fun w => (record c w, respond (sent w) c).

Definition getLocales : M (list string) :=
  fun w => (record GetLocales w, localeCodes (sent w)).

Definition getAssetFiles (id : string) : M (list bool) :=
  fun w => (record (GetAsset id) w, assetFiles (sent w) id).

Definition sleep (ms : Z) : M unit :=
  fun w => ({| log := log w ++ [Pause ms]; sent := sent w;
               admissions := admissions w; inside := inside w |}, inl tt).

Definition setInside (o : option nat) (bump : bool) (w : sdkWorld) : sdkWorld :=
  {| log := log w; sent := sent w;
     admissions := if bump then S (admissions w) else admissions w;
     inside := o |}.

(** [rateLimiter ? await rateLimiter.throttle(fn) : await fn()]: with the
    limiter, [fn] runs inside one admission. *)
Definition throttled {A : Type} (fn : M A) : M A :=
  if rateLimiterEnabled then
    fun w => let k := admissions w in
             let '(w', r) := fn (setInside (Some k) true w) in
             (setInside None false w', r)
  else fn.

Definition importLocale (l : locale) : M unit :=
  tryCatch
    (throttled (locales ← getLocales;
                if existsb (String.eqb (code l)) locales
                then mret tt
                else call (CreateLocale (code l))))
    (fun _ => mret tt).

Definition importTag (t : tag) : M unit :=
  tryCatch (throttled (call (CreateTag (tag_id t)))) (fun _ => mret tt).

(** The [catch] of this loop logs and throws again. *)
Definition importContentType (ct : contentType) : M unit :=
  throttled (call (CreateContentTypeWithId (ct_id ct)) ;;
             if negb (skipContentPublishing opts)
             then call (PublishContentType (ct_id ct))
             else mret tt).

Definition importEditorInterface (ei : editorInterface) : M unit :=
  tryCatch
    (throttled (call (GetContentType (ei_contentType ei)) ;;
                call (GetEditorInterface (ei_contentType ei)) ;;
                call (UpdateEditorInterface (ei_contentType ei))))
    (fun _ => mret tt).

(** [while (attempts < maxAttempts && !fullyProcessed)], [remaining] being
    [maxAttempts - attempts]. *)
Fixpoint pollProcessed (remaining : nat) (id : string) (fullyProcessed : bool)
  : M bool :=
  match remaining with
  | 0 => mret fullyProcessed
  | S remaining' =>
      if fullyProcessed then mret fullyProcessed
      else sleep 2000 ;;
           files ← throttled (getAssetFiles id);
           pollProcessed remaining' id (forallb (fun b => b) files)
  end.

Definition importAsset (a : assetDoc) : M unit :=
  tryCatch
    (throttled
       (if skipAssetUpdates opts
        then tryCatch (call (GetAsset (a_id a)))
                      (fun _ => call (CreateAssetWithId (a_id a)))
        else call (CreateAssetWithId (a_id a))) ;;
     if uploadAssets opts then
       throttled (call (ProcessForAllLocales (a_id a))) ;;
       fullyProcessed ← pollProcessed 30 (a_id a) false;
       if negb (skipContentPublishing opts) && fullyProcessed
       then throttled (call (GetAsset (a_id a)) ;;
                       call (PublishAsset (a_id a)))
       else mret tt
     else mret tt)
    (fun _ => mret tt).

Definition importEntry (e : entryDoc) : M unit :=
  tryCatch
    (throttled
       (if skipContentUpdates opts
        then tryCatch (call (GetEntry (e_id e)))
                      (fun _ => call (CreateEntryWithId (e_contentType e) (e_id e)))
        else call (CreateEntryWithId (e_contentType e) (e_id e))) ;;
     if negb (skipContentPublishing opts)
     then throttled (call (PublishEntry (e_id e)))
     else mret tt)
    (fun _ => mret tt).

(** [importBatch(batchDir, batchNum, isFirstBatch)] once the batch document
    has been read. *)
Definition importBatch (bd : batchData) (isFirstBatch : bool) : M unit :=
  call GetSpace ;;
  call GetEnvironment ;;
  (if isFirstBatch && Nat.ltb 0 (length (bd_contentTypes bd)) then
     forEach (bd_locales bd) importLocale ;;
     forEach (bd_tags bd) importTag ;;
     forEach (bd_contentTypes bd) importContentType ;;
     forEach (bd_editorInterfaces bd) importEditorInterface
   else mret tt) ;;
  forEach (bd_assets bd) importAsset ;;
  forEach (bd_entries bd) importEntry.

(** [importBatch] as the batch loop calls it: the batch document is the one
    read from [batchDir]; the promise resolves or rejects with the message of
    the error. *)
Definition importBatchFrom (readBatch : string -> batchData)
    (batchDir batchNum : string) (isFirstBatch : bool) (w : sdkWorld)
  : sdkWorld * option string :=
  match importBatch (readBatch batchDir) isFirstBatch w with
  | (w', inl _) => (w', None)
  | (w', inr msg) => (w', Some msg)
  end.

Definition start : sdkWorld :=
  {| log := []; sent := 0; admissions := 0; inside := None |}.
End Batch.

(** The requests sent inside admission [k], and those sent inside none. *)
Definition callsOfAdmission (k : nat) (l : list sdkEvent) : list remoteCall :=
  flat_map (fun e => match e with
                     | Remote c (Some k') => if Nat.eqb k k' then [c] else []
                     | _ => []
                     end) l.

Definition unadmittedCalls (l : list sdkEvent) : list remoteCall :=
  flat_map (fun e => match e with Remote c None => [c] | _ => [] end) l.

(** Universal admission as the specification words it: no request is sent
    outside an admission and no admission covers two requests. *)
Definition admittedOneByOne (l : list sdkEvent) : Prop :=
  unadmittedCalls l = [] /\
  forall k, length (callsOfAdmission k l) <= 1.

(** *** A sample batch *)

Definition firstBatch : batchData := {|
  bd_contentTypes := [{| ct_id := "post"; ct_name := "Post" |}];
  bd_locales := [{| code := "en-US" |}];
  bd_tags := [{| tag_id := "news"; tag_name := "News" |}];
  bd_editorInterfaces := [{| ei_contentType := "post" |}];
  bd_assets := [{| a_id := "a1" |}];
  bd_entries := [{| e_id := "e1"; e_contentType := "post" |}] |}.

(** A target space that accepts every request, has no locale yet and has
    processed every file by the time it is asked. *)
Definition accepts (n : nat) (c : remoteCall) : unit + errorMessage := inl tt.
Definition noLocales (n : nat) : list string + errorMessage := inl [].
Definition processed (n : nat) (id : string) : list bool + errorMessage := inl [true].

(** A target space that rejects every creation of a content type. *)
Definition rejectsContentTypes (n : nat) (c : remoteCall) : unit + errorMessage :=
  match c with
  | CreateContentTypeWithId _ => inr "Validation error"
  | _ => inl tt
  end.

Definition secondBatch : batchData := {|
  bd_contentTypes := []; bd_locales := []; bd_tags := [];
  bd_editorInterfaces := []; bd_assets := [{| a_id := "a2" |}];
  bd_entries := [{| e_id := "e2"; e_contentType := "post" |}] |}.

Definition readSample (batchDir : string) : batchData :=
  if String.eqb batchDir "batches/batch-01" then firstBatch else secondBatch.

(** The import of [firstBatch] as the first batch, rate limiter enabled. *)
Definition sampleImport : sdkWorld * (unit + errorMessage) :=
  importBatch accepts noLocales processed true sampleOptions firstBatch true start.

End Sdk.

(** ** bin/resume.js *)

Module Resume.
Import Importer.

(** A JavaScript number that is an integer or [NaN] ([None]). *)
Definition jsnum := option Z.

Definition isWhite (c : ascii) : bool :=
  let n := nat_of_ascii c in
  Nat.eqb n 32 || (Nat.leb 9 n && Nat.leb n 13).

Fixpoint skipWhite (s : string) : string :=
  match s with
  | String c rest => if isWhite c then skipWhite rest else s
  | EmptyString => s
  end.

Definition digitOf (c : ascii) : option Z :=
  let n := nat_of_ascii c in
  if Nat.leb 48 n && Nat.leb n 57 then Some (Z.of_nat (n - 48)) else None.

(** The longest prefix of decimal digits, read from the left; [NaN] when it
    is empty. *)
Fixpoint readDigits (s : string) (acc : Z) (seen : bool) : jsnum :=
  match s with
  | String c rest =>
      match digitOf c with
      | Some d => readDigits rest (acc * 10 + d) true
      | None => if seen then Some acc else None
      end
  | EmptyString => if seen then Some acc else None
  end.

(** [parseInt(s, 10)] *)
Definition parseInt (s : string) : jsnum :=
  match skipWhite s with
  | String c rest =>
      if Ascii.eqb c "-"%char then option_map Z.opp (readDigits rest 0 false)
      else if Ascii.eqb c "+"%char then readDigits rest 0 false
      else readDigits (String c rest) 0 false
  | EmptyString => None
  end.

(** The comparator [(a, b) => a - b]; a [NaN] result counts as [0]. *)
Definition compareNumbers (a b : jsnum) : Z :=
  match a, b with
  | Some x, Some y => x - y
  | _, _ => 0
  end.

Fixpoint insertSorted (x : jsnum) (l : list jsnum) : list jsnum :=
  match l with
  | [] => [x]
  | y :: rest =>
      if Z.ltb (compareNumbers x y) 0 then x :: l else y :: insertSorted x rest
  end.

(** [Array.prototype.sort] with that comparator, as a stable insertion sort.
    On numbers the result is the ascending order whatever algorithm the
    engine uses. *)
Definition sortNumbers (l : list jsnum) : list jsnum :=
  fold_left (fun sorted x => insertSorted x sorted) l [].

(** [Math.max(0, ...l)] *)
Definition mathMax0 (l : list jsnum) : jsnum :=
  fold_left (fun acc x => match acc, x with
                          | Some a, Some b => Some (Z.max a b)
                          | _, _ => None
                          end) l (Some 0%Z).

Inductive strategy := Current | RetryFailed | Next.

Inductive decision :=
| NoState
| NoManifest
| AllCompleted
| StartFrom (how : strategy) (startFromBatch : jsnum).

(** A string is truthy when it is not empty. *)
Definition truthy (s : string) : bool :=
  match s with EmptyString => false | _ => true end.

(** The [else if ... else] part of the decision: no batch is in flight. *)
Definition resumeIdle (state : importState) (m : Split.manifest) : decision :=
  if Nat.ltb 0 (length (failedBatches state)) then
    let failedBatchNumbers :=
      sortNumbers (map (fun fb => parseInt (batch fb)) (failedBatches state)) in
    StartFrom RetryFailed (hd None failedBatchNumbers)
  else
    let completedNumbers := map parseInt (completedBatches state) in
    match mathMax0 completedNumbers with
    | Some maxCompleted =>
        if Z.leb (Z.of_nat (Split.totalBatches m)) maxCompleted
        then AllCompleted
        else StartFrom Next (Some (maxCompleted + 1)%Z)
    | None => StartFrom Next None
    end.

(** [resumeImport()] up to the point where bin/import.js is spawned with
    [--start-from startFromBatch]. *)
Definition resumeImport (stored : option importState)
    (manifest : option Split.manifest) : decision :=
  match stored with
  | None => NoState
  | Some state =>
      match manifest with
      | None => NoManifest
      | Some m =>
          match currentBatch state with
          | Some cb =>
              if truthy cb then StartFrom Current (parseInt cb)
              else resumeIdle state m
          | None => resumeIdle state m
          end
      end
  end.

(** *** States written by the driver *)

(** The state whose batch identifiers are those the driver writes
    ([batchNumOf]) for the given batch numbers. *)
Definition stateOf (started : string) (completed : list nat)
    (failed : list (nat * (string * string))) (current : option nat)
  : importState :=
  {| startedAt := started;
     completedBatches := map batchNumOf completed;
     failedBatches :=
       map (fun f => {| batch := batchNumOf (fst f); error := fst (snd f);
                        timestamp := snd (snd f) |}) failed;
     currentBatch := option_map batchNumOf current |}.

(** [n] is the lowest number of the list. *)
Definition lowestOf (l : list nat) (n : nat) : Prop :=
  In n l /\ forall k, In k l -> n <= k.

(** [n] is the highest number of the list, [0] when the list is empty. *)
Definition highestOf (l : list nat) (n : nat) : Prop :=
  (n = 0 \/ In n l) /\ forall k, In k l -> k <= n.

(** The number a decimal numeral denotes, read from the left. *)
Fixpoint uintValue (d : Decimal.uint) (acc : Z) : Z :=
  match d with
  | Decimal.Nil => acc
  | Decimal.D0 d => uintValue d (acc * 10 + 0)
  | Decimal.D1 d => uintValue d (acc * 10 + 1)
  | Decimal.D2 d => uintValue d (acc * 10 + 2)
  | Decimal.D3 d => uintValue d (acc * 10 + 3)
  | Decimal.D4 d => uintValue d (acc * 10 + 4)
  | Decimal.D5 d => uintValue d (acc * 10 + 5)
  | Decimal.D6 d => uintValue d (acc * 10 + 6)
  | Decimal.D7 d => uintValue d (acc * 10 + 7)
  | Decimal.D8 d => uintValue d (acc * 10 + 8)
  | Decimal.D9 d => uintValue d (acc * 10 + 9)
  end.

End Resume.

(** ** bin/cleanup-drafts.js *)

Module Cleanup.

(** A field of an entry: the value stored for each locale. *)
Definition localized := list (string * value).

Record entry := {
  e_id : string;
  e_version : nat;
  e_publishedVersion : option nat;
  e_contentType : string;
  e_fields : list (string * localized)
}.

Record asset := {
  a_id : string;
  a_version : nat;
  a_publishedVersion : option nat;
  a_file : option localized
}.

Record fieldDef := { f_id : string; f_required : bool }.
Record contentType := { ct_id : string; ct_name : string; ct_fields : list fieldDef }.

Record export := {
  contentTypes : list contentType;
  entries : list entry;
  assets : list asset
}.

(** [!sys.publishedVersion || sys.version > sys.publishedVersion + 1] *)
Definition isDraft (version : nat) (publishedVersion : option nat) : bool :=
  match publishedVersion with
  | None | Some 0 => true
  | Some p => Nat.ltb (p + 1) version
  end.

(** [contentTypeRequirements]: name and required field ids per content type. *)
Definition buildRequirements (cts : list contentType)
  : gmap string (string * list string) :=
  fold_left
    (fun reqs ct =>
       <[ct_id ct := (ct_name ct,
                      map f_id (List.filter f_required (ct_fields ct)))]> reqs)
    cts ∅.

(** [!entry.fields[fieldId] || Object.keys(entry.fields[fieldId]).length === 0] *)
Definition isMissing (e : entry) (fieldId : string) : bool :=
  match assoc fieldId (e_fields e) with
  | None => true
  | Some f => Nat.eqb (length f) 0
  end.

Inductive entryClass :=
| PublishedEntry
| OrphanDraft
| InvalidDraft (missingFields : list string)
| ValidDraft.

Definition classifyEntry (reqs : gmap string (string * list string)) (e : entry)
  : entryClass :=
  if isDraft (e_version e) (e_publishedVersion e) then
    match reqs !! e_contentType e with
    | None => OrphanDraft
    | Some (_, requiredFields) =>
        let missingFields := List.filter (isMissing e) requiredFields in
        if Nat.ltb 0 (length missingFields) then InvalidDraft missingFields
        else ValidDraft
    end
  else PublishedEntry.

Definition isInvalidAssetDraft (a : asset) : bool :=
  isDraft (a_version a) (a_publishedVersion a) &&
  negb (match a_file a with
        | Some f => Nat.ltb 0 (length f)
        | None => false
        end).

(** [entriesToRemove]: the ids of the invalid and of the orphan drafts. *)
Definition entriesToRemove (E : export) : gset string :=
  let reqs := buildRequirements (contentTypes E) in
  list_to_set
    (map e_id (List.filter (fun e => match classifyEntry reqs e with
                                     | InvalidDraft _ | OrphanDraft => true
                                     | _ => false
                                     end) (entries E))).

Definition assetsToRemove (E : export) : gset string :=
  list_to_set (map a_id (List.filter isInvalidAssetDraft (assets E))).

Section Links.
Variable removedEntries removedAssets : gset string.

(** [Set.prototype.has(x.sys.id)]: the sets hold strings only. *)
Definition hasId (s : gset string) (id : option value) : bool :=
  match id with
  | Some (JStr i) => bool_decide (i ∈ s)
  | _ => false
  end.

(** [x && typeof x === 'object' && x.sys && x.sys.type === 'Link'] and the
    link points to a removed entry or asset. *)
Definition linksToRemoved (x : value) : bool :=
  match get "sys" x with
  | Some sys =>
      is_str "Link" (get "type" sys) &&
      ((is_str "Entry" (get "linkType" sys) && hasId removedEntries (get "id" sys))
       || (is_str "Asset" (get "linkType" sys) && hasId removedAssets (get "id" sys)))
  | None => false
  end.

(** The body of [Object.keys(field).forEach(locale => ...)]: the property
    is deleted ([None]), replaced by the filtered array, or left. *)
Definition cleanLocale (lv : string * value) : option (string * value) :=
  let '(locale, v) := lv in
  if linksToRemoved v then None
  else match v with
       | JArr items =>
           Some (locale, JArr (List.filter (fun item => negb (linksToRemoved item)) items))
       | _ => Some (locale, v)
       end.

Definition cleanField (f : localized) : localized := omap cleanLocale f.

Definition cleanEntry (e : entry) : entry :=
  {| e_id := e_id e; e_version := e_version e;
     e_publishedVersion := e_publishedVersion e;
     e_contentType := e_contentType e;
     e_fields := map (fun kf => (fst kf, cleanField (snd kf))) (e_fields e) |}.
End Links.

(** [cleanedData], as written to exported-space-cleaned.json. *)
Definition cleanedData (E : export) : export :=
  let re := entriesToRemove E in
  let ra := assetsToRemove E in
  {| contentTypes := contentTypes E;
     entries :=
       map (cleanEntry re ra)
           (List.filter (fun e => negb (bool_decide (e_id e ∈ re))) (entries E));
     assets := List.filter (fun a => negb (bool_decide (a_id a ∈ ra))) (assets E) |}.

(** The [fields] block of an entry as the JSON object it is. *)
Definition fieldsAsValue (e : entry) : value :=
  JObj (map (fun kf => (fst kf, JObj (snd kf))) (e_fields e)).

(** The same entry as bin/split.js reads it. *)
Definition toSplitEntry (e : entry) : Split.entry :=
  {| Split.entry_id := e_id e; Split.entry_fields := fieldsAsValue e |}.

(** *** A sample export *)

Definition linkTo (linkType id : string) : value :=
  JObj [("sys", JObj [("type", JStr "Link"); ("linkType", JStr linkType);
                      ("id", JStr id)])].

(** A published post whose fields link to a draft asset without a file
    ([gone]): directly, inside an array, and inside a rich-text tree. *)
Definition post : entry := {|
  e_id := "post1"; e_version := 3; e_publishedVersion := Some 2;
  e_contentType := "post";
  e_fields :=
    [("hero", [("en-US", linkTo "Asset" "gone")]);
     ("gallery", [("en-US", JArr [linkTo "Asset" "gone"; linkTo "Asset" "kept"])]);
     ("body", [("en-US",
        JObj [("nodeType", JStr "document");
              ("content", JArr [JObj [("nodeType", JStr "embedded-asset-block");
                                      ("data", JObj [("target",
                                         linkTo "Asset" "gone")])]])])])] |}.

Definition sampleExport : export := {|
  contentTypes := [{| ct_id := "post"; ct_name := "Post"; ct_fields := [] |}];
  entries := [post];
  assets := [{| a_id := "gone"; a_version := 1; a_publishedVersion := None;
                a_file := None |};
             {| a_id := "kept"; a_version := 2; a_publishedVersion := Some 1;
                a_file := Some [("en-US", JObj [("url", JStr "//images/kept.png")])] |}] |}.

End Cleanup.

(** ** bin/rateLimiter.js: a limiter in use *)

Module Usage.
Import Limiter.

Local Open Scope Q_scope.

(** The pauses among the events, in order. *)
Definition sleepsOf (ev : list event) : list Z :=
  flat_map (fun e => match e with EvSleep ms => [ms] | _ => [] end) ev.

Definition sumZ (l : list Z) : Z := fold_right Z.add 0%Z l.

(** The pause that [throttle] adds after a 429. *)
Definition cooldownOf {A : Type} (r : outcome A) : list Z :=
  match r with
  | Rejected e => if is429 e then [60000%Z] else []
  | Resolved _ => []
  end.

(** One call in a sequence [await rateLimiter.throttle(fn)]: the time that
    passes before the call, how late its timers fire, and the operation. *)
Record request (A : Type) := {
  gap : Z;
  late : lateness;
  operation : Z -> Z * outcome A
}.
Arguments gap {A} r.
Arguments late {A} r.
Arguments operation {A} r.

(** Calls of [throttle] one after the other, as in the loops of
    bin/import.js. *)
Fixpoint throttleAll {A : Type} (now : Z) (rs : list (request A)) (l : limiter)
  : limiter * Z * list event :=
  match rs with
  | [] => (l, now, [])
  | r :: rest =>
      let '(l1, t1, _, ev1) :=
        throttle (now + gap r) (late r) (operation r) l in
      let '(l2, t2, ev2) := throttleAll t1 rest l1 in
      (l2, t2, ev1 ++ ev2)
  end.

Definition rateLimited {A : Type} (r : outcome A) : bool :=
  match r with
  | Rejected e => is429 e
  | Resolved _ => false
  end.

(** The environment of a request behaves: time does not go back, timers do
    not fire early, the operation takes no negative time, and the target
    does not answer 429. *)
Definition requestOk {A : Type} (r : request A) : Prop :=
  (0 <= gap r)%Z /\ lateOk (late r) /\
  forall t, (0 <= fst (operation r t))%Z /\ rateLimited (snd (operation r t)) = false.

End Usage.
(** ** bin/import.js: what a run leaves in its log *)

Module RunLog.
Import Importer.

(** The pauses of a run, in order. *)
Definition pausesOf (tr : list driverEvent) : list Z :=
  flat_map (fun e => match e with DSleep ms => [ms] | _ => [] end) tr.

(** The calls of [importBatch] of a run, in order: the batch and whether the
    promise resolved. *)
Definition outcomesOf (tr : list driverEvent) : list (string * bool) :=
  flat_map (fun e => match e with DImport b _ ok => [(b, ok)] | _ => [] end) tr.

(** The calls of [importBatch] for one batch. *)
Definition historyOf (batchNum : string) (tr : list driverEvent)
  : list (string * bool) :=
  List.filter (fun o => String.eqb (fst o) batchNum) (outcomesOf tr).

(** The flag [isFirstBatch] of each call of [importBatch], with the batch. *)
Definition flagsOf (tr : list driverEvent) : list (string * bool) :=
  flat_map (fun e => match e with DImport b cm _ => [(b, cm)] | _ => [] end) tr.

(** The pauses before [n] attempts in a row, the first of which is made with
    [retries] failed attempts behind it: [sleep(retryDelay * retries)] when
    [retries > 0]. *)
Definition backoff (retryDelay : Z) (retries n : nat) : list Z :=
  map (fun k => (retryDelay * Z.of_nat k)%Z)
      (List.filter (Nat.ltb 0) (seq retries n)).

(** The batch is in [completedBatches] or has a record in [failedBatches]. *)
Definition recorded (s : importState) (batchNum : string) : Prop :=
  In batchNum (completedBatches s) \/ In batchNum (map batch (failedBatches s)).

Section Outcome.
Variable W : Type.
Variable opts : importOptions.
Variable m : Split.manifest.

(** How the work on batch [i] ends when the retry loop is entered with
    [retries] failed attempts behind it and [fuel] attempts left, the events
    being [evs]: with a success after [failures] more failed attempts, or with
    [failures = fuel] failed attempts and a failure record. *)
Definition endsWith (i : nat) (num : string) (retries fuel : nat)
    (d d' : driver W) (evs : list driverEvent) (failures : nat) : Prop :=
  (failures < fuel /\
   outcomesOf evs = repeat (num, false) failures ++ [(num, true)] /\
   completedBatches (state W d') = completedBatches (state W d) ++ [num] /\
   failedBatches (state W d') = failedBatches (state W d) /\
   successCount W d' = S (successCount W d) /\
   failureCount W d' = failureCount W d /\
   pausesOf evs =
     backoff (retryDelay opts) retries (S failures) ++
     (if Nat.ltb i (Split.totalBatches m) then [delayBetweenBatches opts] else []))
  \/
  (failures = fuel /\
   outcomesOf evs = repeat (num, false) failures /\
   completedBatches (state W d') = completedBatches (state W d) /\
   (exists msg stamp,
      failedBatches (state W d') = failedBatches (state W d) ++
        [{| batch := num; error := msg; timestamp := stamp |}]) /\
   successCount W d' = successCount W d /\
   failureCount W d' = S (failureCount W d) /\
   pausesOf evs = backoff (retryDelay opts) retries failures).
End Outcome.


End RunLog.
(** ** bin/resume.js to bin/import.js: the command line *)

Module Handoff.
Import Resume.

(** [x.toString()] for a number that is an integer or [NaN].  (Integers are
    printed in full; JavaScript switches to exponent notation from 1e21
    on.) *)
Definition numberToString (x : jsnum) : string :=
  match x with
  | None => "NaN"
  | Some z =>
      if Z.ltb z 0 then String "-"%char (String_of_nat (Z.to_nat (- z)))
      else String_of_nat (Z.to_nat z)
  end.

(** The arguments with which bin/resume.js starts bin/import.js, after
    [process.argv.slice(2)]. *)
Definition spawnArgs (startFromBatch : jsnum) : list string :=
  ["--start-from"; numberToString startFromBatch].

(** The loop over the arguments in bin/import.js:
    [if (args[i] === '--start-from' && args[i + 1])
       startFromBatch = parseInt(args[i + 1], 10)]. *)
Fixpoint parseArgs (args : list string) (startFromBatch : jsnum) : jsnum :=
  match args with
  | [] => startFromBatch
  | a :: rest =>
      parseArgs rest
        (match rest with
         | v :: _ =>
             if String.eqb a "--start-from" && truthy v then parseInt v
             else startFromBatch
         | [] => startFromBatch
         end)
  end.

(** [startFromBatch] as bin/import.js passes it to [importAllBatches]. *)
Definition startFromArg (args : list string) : jsnum := parseArgs args (Some 1%Z).

End Handoff.
(** ** bin/import.js: the requests of one batch *)

Module Requests.
Import Importer Sdk.

(** The requests whose rejection is not caught inside [importBatch]: those
    that open the session and, when the content model is imported
    ([model]), those that create and publish a content type. *)
Definition critical (model : bool) (c : remoteCall) : bool :=
  match c with
  | GetSpace | GetEnvironment => true
  | CreateContentTypeWithId _ | PublishContentType _ => model
  | _ => false
  end.

Definition listed {A : Type} (id : A -> string) (l : list A) (x : string) : bool :=
  existsb (fun a => String.eqb (id a) x) l.

(** The requests that the options, the flag [isFirstBatch] and the batch
    document leave room for. *)
Definition permitted (opts : importOptions) (isFirstBatch : bool) (bd : batchData)
    (c : remoteCall) : bool :=
  let model := isFirstBatch && Nat.ltb 0 (length (bd_contentTypes bd)) in
  let publishing := negb (skipContentPublishing opts) in
  match c with
  | GetSpace | GetEnvironment => true
  | GetLocales => model && Nat.ltb 0 (length (bd_locales bd))
  | CreateLocale x => model && listed code (bd_locales bd) x
  | CreateTag x => model && listed tag_id (bd_tags bd) x
  | CreateContentTypeWithId x => model && listed ct_id (bd_contentTypes bd) x
  | PublishContentType x =>
      model && publishing && listed ct_id (bd_contentTypes bd) x
  | GetContentType x | GetEditorInterface x | UpdateEditorInterface x =>
      model && listed ei_contentType (bd_editorInterfaces bd) x
  | GetAsset x =>
      (skipAssetUpdates opts || uploadAssets opts) && listed a_id (bd_assets bd) x
  | CreateAssetWithId x => listed a_id (bd_assets bd) x
  | ProcessForAllLocales x => uploadAssets opts && listed a_id (bd_assets bd) x
  | PublishAsset x =>
      uploadAssets opts && publishing && listed a_id (bd_assets bd) x
  | GetEntry x => skipContentUpdates opts && listed e_id (bd_entries bd) x
  | CreateEntryWithId ct x =>
      existsb (fun e => String.eqb (e_id e) x && String.eqb (e_contentType e) ct)
              (bd_entries bd)
  | PublishEntry x => publishing && listed e_id (bd_entries bd) x
  end.

Definition requestsOf (l : list sdkEvent) : list remoteCall :=
  flat_map (fun e => match e with Remote c _ => [c] | Pause _ => [] end) l.

Definition pausesOf (l : list sdkEvent) : list Z :=
  flat_map (fun e => match e with Pause ms => [ms] | Remote _ _ => [] end) l.

(** The most requests that [importBatch] sends for a batch document: two to
    open the session; two per locale, one per tag, two per content type and
    three per editor interface; 35 per asset (two to create it, one to start
    the processing, 30 polls, two to publish); three per entry. *)
Definition requestBudget (bd : batchData) : nat :=
  2 + (length (bd_locales bd) * 2 + length (bd_tags bd) * 1 +
       length (bd_contentTypes bd) * 2 + length (bd_editorInterfaces bd) * 3) +
  length (bd_assets bd) * 35 + length (bd_entries bd) * 3.

(** A stretch of the log that consists of pauses and of blocks of at most
    three requests that satisfy [P]; with the rate limiter each block is
    sent inside an admission of its own, numbered from [k] up to [k'], and
    without it no request is inside an admission. *)
Inductive admissionBlocks (enabled : bool) (P : remoteCall -> Prop)
  : nat -> list sdkEvent -> nat -> Prop :=
| blocks_nil (k : nat) : admissionBlocks enabled P k [] k
| blocks_pause (k k' : nat) (ms : Z) (evs : list sdkEvent) :
    admissionBlocks enabled P k evs k' ->
    admissionBlocks enabled P k (Pause ms :: evs) k'
| blocks_block (k k' : nat) (cs : list remoteCall) (evs : list sdkEvent) :
    length cs <= 3 -> Forall P cs ->
    admissionBlocks enabled P (if enabled then S k else k) evs k' ->
    admissionBlocks enabled P k
      (map (fun c => Remote c (if enabled then Some k else None)) cs ++ evs) k'.

(** What runs inside one [throttle] call: at most [n] requests, all of which
    satisfy [P], and nothing else. *)
Definition sendsOnly {A : Type} (n : nat) (P : remoteCall -> Prop) (fn : M A) : Prop :=
  forall w, exists cs,
    length cs <= n /\ Forall P cs /\
    log (fst (fn w)) = log w ++ map (fun c => Remote c (inside w)) cs /\
    sent (fst (fn w)) = sent w + length cs /\
    admissions (fst (fn w)) = admissions w /\
    inside (fst (fn w)) = inside w.

(** A step of [importBatch] (outside any [throttle] call): it adds a
    stretch of blocks with at most [r] requests and [p] pauses. *)
Definition proceeds {A : Type} (enabled : bool) (P : remoteCall -> Prop)
    (r p : nat) (step : M A) : Prop :=
  forall w, inside w = None -> exists evs,
    log (fst (step w)) = log w ++ evs /\
    admissionBlocks enabled P (admissions w) evs (admissions (fst (step w))) /\
    inside (fst (step w)) = None /\
    sent (fst (step w)) = sent w + length (requestsOf evs) /\
    length (requestsOf evs) <= r /\ length (pausesOf evs) <= p.



End Requests.
(** ** bin/cleanup-drafts.js: the analysis and its report *)

Module Report.
Import Cleanup.

(** The five arrays filled by the loop over the entries. *)
Record entryAnalysis := {
  draftEntries : list entry;
  invalidDrafts : list entry;
  orphanDrafts : list entry;
  validPublishedEntries : list entry;
  validDraftEntries : list entry
}.

(** The body of [exportData.entries.forEach]. *)
Definition analyseEntry (reqs : gmap string (string * list string))
    (acc : entryAnalysis) (e : entry) : entryAnalysis :=
  match classifyEntry reqs e with
  | PublishedEntry =>
      {| draftEntries := draftEntries acc; invalidDrafts := invalidDrafts acc;
         orphanDrafts := orphanDrafts acc;
         validPublishedEntries := validPublishedEntries acc ++ [e];
         validDraftEntries := validDraftEntries acc |}
  | OrphanDraft =>
      {| draftEntries := draftEntries acc ++ [e]; invalidDrafts := invalidDrafts acc;
         orphanDrafts := orphanDrafts acc ++ [e];
         validPublishedEntries := validPublishedEntries acc;
         validDraftEntries := validDraftEntries acc |}
  | InvalidDraft _ =>
      {| draftEntries := draftEntries acc ++ [e];
         invalidDrafts := invalidDrafts acc ++ [e];
         orphanDrafts := orphanDrafts acc;
         validPublishedEntries := validPublishedEntries acc;
         validDraftEntries := validDraftEntries acc |}
  | ValidDraft =>
      {| draftEntries := draftEntries acc ++ [e]; invalidDrafts := invalidDrafts acc;
         orphanDrafts := orphanDrafts acc;
         validPublishedEntries := validPublishedEntries acc;
         validDraftEntries := validDraftEntries acc ++ [e] |}
  end.

Definition analyseEntries (E : export) : entryAnalysis :=
  fold_left (analyseEntry (buildRequirements (contentTypes E))) (entries E)
    {| draftEntries := []; invalidDrafts := []; orphanDrafts := [];
       validPublishedEntries := []; validDraftEntries := [] |}.

(** The four arrays filled by the loop over the assets. *)
Record assetAnalysis := {
  draftAssets : list asset;
  invalidAssetDrafts : list asset;
  validPublishedAssets : list asset;
  validDraftAssets : list asset
}.

(** [asset.fields.file && Object.keys(asset.fields.file).length > 0] *)
Definition hasFile (a : asset) : bool :=
  match a_file a with
  | Some f => Nat.ltb 0 (length f)
  | None => false
  end.

(** The body of [exportData.assets.forEach]. *)
Definition analyseAsset (acc : assetAnalysis) (a : asset) : assetAnalysis :=
  if isDraft (a_version a) (a_publishedVersion a) then
    if negb (hasFile a) then
      {| draftAssets := draftAssets acc ++ [a];
         invalidAssetDrafts := invalidAssetDrafts acc ++ [a];
         validPublishedAssets := validPublishedAssets acc;
         validDraftAssets := validDraftAssets acc |}
    else
      {| draftAssets := draftAssets acc ++ [a];
         invalidAssetDrafts := invalidAssetDrafts acc;
         validPublishedAssets := validPublishedAssets acc;
         validDraftAssets := validDraftAssets acc ++ [a] |}
  else
    {| draftAssets := draftAssets acc; invalidAssetDrafts := invalidAssetDrafts acc;
       validPublishedAssets := validPublishedAssets acc ++ [a];
       validDraftAssets := validDraftAssets acc |}.

Definition analyseAssets (E : export) : assetAnalysis :=
  fold_left analyseAsset (assets E)
    {| draftAssets := []; invalidAssetDrafts := []; validPublishedAssets := [];
       validDraftAssets := [] |}.

(** [report.summary] *)
Record summary := {
  s_totalEntries : nat;
  s_totalAssets : nat;
  s_draftEntries : nat;
  s_invalidDrafts : nat;
  s_orphanDrafts : nat;
  s_validDraftEntries : nat;
  s_validPublishedEntries : nat;
  s_draftAssets : nat;
  s_invalidAssetDrafts : nat;
  s_validDraftAssets : nat;
  s_validPublishedAssets : nat;
  s_totalToRemove : nat
}.

Definition summaryOf (E : export) : summary :=
  let ea := analyseEntries E in
  let aa := analyseAssets E in
  {| s_totalEntries := length (entries E);
     s_totalAssets := length (assets E);
     s_draftEntries := length (draftEntries ea);
     s_invalidDrafts := length (invalidDrafts ea);
     s_orphanDrafts := length (orphanDrafts ea);
     s_validDraftEntries := length (validDraftEntries ea);
     s_validPublishedEntries := length (validPublishedEntries ea);
     s_draftAssets := length (draftAssets aa);
     s_invalidAssetDrafts := length (invalidAssetDrafts aa);
     s_validDraftAssets := length (validDraftAssets aa);
     s_validPublishedAssets := length (validPublishedAssets aa);
     s_totalToRemove := length (invalidDrafts ea) + length (orphanDrafts ea) +
                        length (invalidAssetDrafts aa) |}.

(** The sets of ids as the script builds them, from the analysis. *)
Definition removedEntryIds (E : export) : gset string :=
  list_to_set (map e_id (invalidDrafts (analyseEntries E)) ++
               map e_id (orphanDrafts (analyseEntries E))).

Definition removedAssetIds (E : export) : gset string :=
  list_to_set (map a_id (invalidAssetDrafts (analyseAssets E))).

(** The class of an entry, as a test. *)
Definition isPublished (reqs : gmap string (string * list string)) (e : entry) : bool :=
  match classifyEntry reqs e with PublishedEntry => true | _ => false end.

Definition isValidDraft (reqs : gmap string (string * list string)) (e : entry) : bool :=
  match classifyEntry reqs e with ValidDraft => true | _ => false end.

Definition isInvalid (reqs : gmap string (string * list string)) (e : entry) : bool :=
  match classifyEntry reqs e with InvalidDraft _ => true | _ => false end.

Definition isOrphan (reqs : gmap string (string * list string)) (e : entry) : bool :=
  match classifyEntry reqs e with OrphanDraft => true | _ => false end.

(** The entry is an invalid or an orphan draft. *)
Definition toRemove (reqs : gmap string (string * list string)) (e : entry) : bool :=
  match classifyEntry reqs e with
  | InvalidDraft _ | OrphanDraft => true
  | _ => false
  end.

(** An export without drafts: a published post and its published image. *)
Definition publishedExport : export := {|
  contentTypes := [{| ct_id := "post"; ct_name := "Post";
                      ct_fields := [{| f_id := "title"; f_required := true |}] |}];
  entries := [{| e_id := "post1"; e_version := 2; e_publishedVersion := Some 1;
                 e_contentType := "post";
                 e_fields := [("hero", [("en-US", linkTo "Asset" "img")])] |}];
  assets := [{| a_id := "img"; a_version := 2; a_publishedVersion := Some 1;
                a_file := Some [("en-US", JObj [("url", JStr "//images/img.png")])] |}] |}.

End Report.
(** ** bin/validate.js: the counts of the target and the checks *)

Module Validate.

(** An item of a collection of the target; the validation reads
    [sys.publishedVersion] only. *)
Record item := { i_publishedVersion : option nat }.

(** [e.sys.publishedVersion] as a condition. *)
Definition hasPublishedVersion (i : item) : bool :=
  match i_publishedVersion i with
  | Some (S _) => true
  | _ => false
  end.

(** The requests sent to the target. *)
Inductive request :=
| GetSpace
| GetEnvironment
| GetContentTypes (limit : nat)
| GetEntries (limit skip : nat)
| GetAssets (limit skip : nat)
| GetTags (limit : nat)
| GetLocales.

(** [const limit = 1000] *)
Definition limit : nat := 1000.

Record counts := {
  c_contentTypes : nat;
  c_entries : nat;
  c_assets : nat;
  c_tags : nat;
  c_locales : nat;
  c_publishedEntries : nat;
  c_publishedAssets : nat
}.

Section Target.
Context {W : Type}.

(** The target answers a request with the items of a page or rejects it
    with a message. *)
Variable respond : request -> W -> (string + list item) * W.

(** An asynchronous computation: it may throw, it changes the target and it
    sends requests; [None] when it does not return. *)
Definition T (A : Type) : Type := W -> option ((string + A) * W * list request).

Definition ret {A : Type} (a : A) : T A := fun w => Some (inr a, w, []).

Definition bind {A B : Type} (m : T A) (k : A -> T B) : T B := fun w =>
  match m w with
  | None => None
  | Some (inl e, w', sent) => Some (inl e, w', sent)
  | Some (inr a, w', sent) =>
      match k a w' with
      | None => None
      | Some (r, w'', sent') => Some (r, w'', sent ++ sent')
      end
  end.

Definition send (q : request) : T (list item) := fun w =>
  let '(r, w') := respond q w in Some (r, w', [q]).

(** [while (hasMore) { ... }]: a page is requested at [skip], its items are
    appended and the loop goes on while the page is full. *)
Fixpoint fetchAll (fuel : nat) (get : nat -> nat -> request) (skip : nat)
    (all : list item) : T (list item) :=
  match fuel with
  | O => fun _ => None
  | S fuel =>
      bind (send (get limit skip)) (fun items =>
        let all' := all ++ items in
        if Nat.eqb (length items) limit
        then fetchAll fuel get (skip + limit) all'
        else ret all')
  end.

(** [catch (error) { throw new Error(`Failed to fetch target data: ...`) }] *)
Definition rethrow {A : Type} (m : T A) : T A := fun w =>
  match m w with
  | Some (inl e, w', sent) => Some (inl ("Failed to fetch target data: " ++ e)%string, w', sent)
  | r => r
  end.

Definition getTargetCounts (fuel : nat) : T counts :=
  rethrow
    (bind (send GetSpace) (fun _ =>
     bind (send GetEnvironment) (fun _ =>
     bind (send (GetContentTypes 1000)) (fun contentTypes =>
     bind (fetchAll fuel GetEntries 0 []) (fun allEntries =>
     bind (fetchAll fuel GetAssets 0 []) (fun allAssets =>
     bind (send (GetTags 1000)) (fun tags =>
     bind (send GetLocales) (fun locales =>
     ret {| c_contentTypes := length contentTypes;
            c_entries := length allEntries;
            c_assets := length allAssets;
            c_tags := length tags;
            c_locales := length locales;
            c_publishedEntries := length (List.filter hasPublishedVersion allEntries);
            c_publishedAssets := length (List.filter hasPublishedVersion allAssets)
         |})))))))).

End Target.

(** The export that was migrated; a collection may be missing. *)
Record sourceData := {
  src_contentTypes : option (list item);
  src_entries : option (list item);
  src_assets : option (list item);
  src_tags : option (list item);
  src_locales : option (list item)
}.

(** [sourceData.x?.length || 0] *)
Definition lengthOr0 (x : option (list item)) : nat :=
  match x with
  | Some l => length l
  | None => 0
  end.

Record check := {
  name : string;
  source : nat;
  target : nat;
  critical : bool
}.

Definition checks (src : sourceData) (targetCounts : counts) : list check :=
  [ {| name := "Content Types"; source := lengthOr0 (src_contentTypes src);
       target := c_contentTypes targetCounts; critical := true |};
    {| name := "Entries"; source := lengthOr0 (src_entries src);
       target := c_entries targetCounts; critical := true |};
    {| name := "Assets"; source := lengthOr0 (src_assets src);
       target := c_assets targetCounts; critical := true |};
    {| name := "Tags"; source := lengthOr0 (src_tags src);
       target := c_tags targetCounts; critical := false |};
    {| name := "Locales"; source := lengthOr0 (src_locales src);
       target := c_locales targetCounts; critical := true |} ].

Record tally := { passed : nat; failed : nat; warnings : nat }.

(** The body of [checks.forEach]. *)
Definition runCheck (t : tally) (c : check) : tally :=
  if Nat.eqb (source c) (target c) then
    {| passed := S (passed t); failed := failed t; warnings := warnings t |}
  else if critical c then
    {| passed := passed t; failed := S (failed t); warnings := warnings t |}
  else
    {| passed := passed t; failed := failed t; warnings := S (warnings t) |}.

Definition runChecks (src : sourceData) (targetCounts : counts) : tally :=
  fold_left runCheck (checks src targetCounts)
    {| passed := 0; failed := 0; warnings := 0 |}.

(** How the script ends: with the summary, or in the [catch] block. *)
Inductive outcome :=
| Summary (t : tally)
| Crashed (message : string).

(** [process.exit(1)] when a check failed and in the [catch] block. *)
Definition exitCode (o : outcome) : nat :=
  match o with
  | Summary t => if Nat.ltb 0 (failed t) then 1 else 0
  | Crashed _ => 1
  end.

(** What the block that prints the import state finds at
    [path.join(outputDir, 'import-state.json')]: no file; the document of a
    state, whose two lists it prints; or a content on which [JSON.parse] or
    the reading of [state.completedBatches.length] throws, with the message
    of the error. *)
Inductive stateFile :=
| NoStateFile
| StateDocument (state : Importer.importState)
| Unreadable (message : string).

(** [validateMigration()]: the counts of the target are fetched, the checks
    are run and printed, the state file is read when it exists, and the
    summary follows; an error thrown on the way ends the run in the [catch]
    block. *)
Definition validateMigration {W : Type}
    (respond : request -> W -> (string + list item) * W)
    (fuel : nat) (src : sourceData) (stored : stateFile) (w : W)
  : option (outcome * W * list request) :=
  match getTargetCounts respond fuel w with
  | None => None
  | Some (inr targetCounts, w', sent) =>
      match stored with
      | Unreadable message => Some (Crashed message, w', sent)
      | NoStateFile | StateDocument _ =>
          Some (Summary (runChecks src targetCounts), w', sent)
      end
  | Some (inl message, w', sent) => Some (Crashed message, w', sent)
  end.

(** The state file that a save interrupted after its first step leaves:
    an empty file, on which [JSON.parse] throws. *)
Definition truncatedStateFile : stateFile :=
  Unreadable "Unexpected end of JSON input".

(** *** A target that does not change *)

(** The collections a target space holds. *)
Record space := {
  t_contentTypes : list item;
  t_entries : list item;
  t_assets : list item;
  t_tags : list item;
  t_locales : list item
}.

(** The page of a collection for a limit and a number of items to skip. *)
Definition page (limit skip : nat) (all : list item) : list item :=
  firstn limit (skipn skip all).

(** The answers of a target that holds [t] and honours [limit] and [skip];
    a request without a limit gets a page of [defaultLimit] items. *)
Definition answer (defaultLimit : nat) (t : space) (q : request) : list item :=
  match q with
  | GetSpace | GetEnvironment => []
  | GetContentTypes l => page l 0 (t_contentTypes t)
  | GetEntries l s => page l s (t_entries t)
  | GetAssets l s => page l s (t_assets t)
  | GetTags l => page l 0 (t_tags t)
  | GetLocales => page defaultLimit 0 (t_locales t)
  end.

Definition serve (defaultLimit : nat) (t : space) (q : request) (w : unit)
  : (string + list item) * unit :=
  (inr (answer defaultLimit t q), w).

(** The export whose collections are those of [t]. *)
Definition exportOf (t : space) : sourceData :=
  {| src_contentTypes := Some (t_contentTypes t);
     src_entries := Some (t_entries t);
     src_assets := Some (t_assets t);
     src_tags := Some (t_tags t);
     src_locales := Some (t_locales t) |}.

(** The requests of the pagination loop that reads [n] items. *)
Definition pagesOf (get : nat -> nat -> request) (n : nat) : list request :=
  map (fun k => get limit (k * limit)) (seq 0 (n / limit + 1)).

(** A small target: one content type, two entries (one published), one asset. *)
Definition smallSpace : space :=
  {| t_contentTypes := [{| i_publishedVersion := Some 1 |}];
     t_entries := [{| i_publishedVersion := Some 1 |}; {| i_publishedVersion := None |}];
     t_assets := [{| i_publishedVersion := Some 2 |}];
     t_tags := [];
     t_locales := [{| i_publishedVersion := None |}] |}.

End Validate.

(** ** bin/import.js: a batch whose attempts all fail *)

Module Retry.
Import Importer.

Section Attempts.
Variable W : Type.
Variable importBatch : string -> string -> bool -> W -> W * option string.
Variable opts : importOptions.

(** The world after [n] calls of [importBatch] for the batch, one after the
    other; nothing else in the retry loop acts on the world. *)
Fixpoint worldAfter (batchDir batchNum : string) (isFirstBatch : bool) (n : nat)
    (w : W) : W :=
  match n with
  | 0 => w
  | S n' =>
      worldAfter batchDir batchNum isFirstBatch n'
        (fst (importBatch batchDir batchNum isFirstBatch w))
  end.

(** What the call made after [n] calls throws: [error.message], or [None]
    when its promise resolves. *)
Definition thrownAfter (batchDir batchNum : string) (isFirstBatch : bool) (n : nat)
    (w : W) : option string :=
  snd (importBatch batchDir batchNum isFirstBatch
         (worldAfter batchDir batchNum isFirstBatch n w)).

(** The events of [n] failed attempts in a row, the first of them made with
    [retries] failed attempts behind it: [sleep(retryDelay * retries)] when
    [retries > 0], then the call. *)
Definition failedAttempts (batchNum : string) (isFirstBatch : bool)
    (retries n : nat) : list driverEvent :=
  flat_map (fun k =>
              (if Nat.ltb 0 k then [DSleep (retryDelay opts * Z.of_nat k)] else [])
              ++ [DImport batchNum isFirstBatch false])
           (seq retries n).
End Attempts.

End Retry.

(** ** The state file between bin/import.js and bin/resume.js *)

Module StateFile.
Import Importer.

(** What [loadState()] of bin/resume.js finds in the file store: no state
    file ([None]), or the state whose document the file holds. *)
Definition holds (outputDir : string) (f : files) (stored : option importState)
  : Prop :=
  match stored with
  | None => f !! STATE_FILE outputDir = None
  | Some s => f !! STATE_FILE outputDir = Some (JSON_stringify s)
  end.

(** The state last saved in a run, [None] when the run saved none. *)
Definition lastSaved (tr : list driverEvent) : option importState :=
  fold_left (fun last e => match e with DSave s => Some s | _ => last end) tr None.

(** A manifest without batches, as bin/split.js writes it for an export
    without assets and entries. *)
Definition emptyManifest : Split.manifest :=
  {| Split.totalBatches := 0; Split.totalAssets := 0; Split.totalEntries := 0;
     Split.m_batchSize := 50; Split.batches := [] |}.

End StateFile.

(** * Properties *)

(** ** The partitioner *)

Module SplitFacts.
Import Split.

Lemma sliceLoop_total (batchSize : nat) (l : list asset) :
  0 < batchSize ->
  forall fuel i, length l <= i + fuel ->
  exists chunks, sliceLoop fuel batchSize i l = Some chunks.
Proof.
  intros Hpos fuel. induction fuel as [|fuel IH]; intros i Hlen; simpl.
  - destruct (Nat.ltb_spec i (length l)); [lia | eauto].
  - destruct (Nat.ltb_spec i (length l)); [| eauto].
    destruct (IH (i + batchSize)) as [rest Hrest]; [lia |].
    rewrite Hrest. eauto.
Qed.

Lemma makeAssetBatches_total (batchSize : nat) (l : list asset) :
  0 < batchSize -> exists chunks, makeAssetBatches batchSize l = Some chunks.
Proof.
  intros Hpos. apply sliceLoop_total; [assumption | lia].
Qed.

(** The set built by marking a list of entries as processed. *)
Lemma elem_of_mark (es : list entry) (P : gset string) (id : string) :
  id ∈ fold_left (fun s e => s ∪ {[ entry_id e ]}) es P <->
  id ∈ P \/ exists e, In e es /\ entry_id e = id.
Proof.
  revert P. induction es as [|e es IH]; intros P; simpl.
  - split; [auto | intros [H | (e & [] & _)]; exact H].
  - rewrite IH, elem_of_union, elem_of_singleton. split.
    + intros [[H | H] | (e' & Hin & Heq)]; eauto.
    + intros [H | (e' & [<- | Hin] & Heq)]; eauto.
Qed.

Section LoopFacts.
Variable E : export.
Variable entryToAssets : gmap string (list string).

Lemma claimable_spec (P : gset string) (chunk : list asset) (e : entry) :
  claimable entryToAssets P chunk e = true <->
  (entry_id e ∉ P) /\ hits entryToAssets chunk (entry_id e).
Proof.
  unfold claimable, hits. case_bool_decide as HP; split.
  - discriminate.
  - intros [Hn _]. contradiction.
  - auto.
  - intros [_ Hh]. exact Hh.
Qed.

(** What the loop over the asset chunks writes: batch [i] holds chunk [i]
    and the entries that reference it, are not already processed and
    reference no earlier chunk. *)
Lemma batchLoop_spec (chunks : list (list asset)) :
  forall k P written P',
  batchLoop E entryToAssets k chunks P = (written, P') ->
  length written = length chunks /\
  (forall i b, written !! i = Some b ->
     exists chunk, chunks !! i = Some chunk /\ assets b = chunk /\
       forall e, In e (entries b) <->
         In e (entries E) /\ (entry_id e ∉ P) /\ hits entryToAssets chunk (entry_id e) /\
         forall j c, j < i -> chunks !! j = Some c -> ~ hits entryToAssets c (entry_id e)) /\
  (forall id, id ∈ P' <->
     id ∈ P \/ exists e j c, In e (entries E) /\ entry_id e = id /\
                             chunks !! j = Some c /\ hits entryToAssets c id).
Proof.
  induction chunks as [|chunk rest IH]; intros k P written P' Hrun; simpl in Hrun.
  - injection Hrun as <- <-. split; [reflexivity | split].
    + intros i b Hi. rewrite lookup_nil in Hi. discriminate.
    + intros id. split; [auto |].
      intros [H | (e & j & c & _ & _ & Hj & _)]; [exact H |].
      rewrite lookup_nil in Hj. discriminate.
  - destruct (batchLoop E entryToAssets (S k) rest _) as [more final] eqn:Hrest.
    injection Hrun as <- <-.
    destruct (IH _ _ _ _ Hrest) as (Hlen & Hbatches & Hfinal).
    assert (Hmark : forall id,
      id ∈ fold_left (fun s e => s ∪ {[ entry_id e ]})
             (List.filter (claimable entryToAssets P chunk) (entries E)) P <->
      id ∈ P \/ exists e, In e (entries E) /\ entry_id e = id /\ hits entryToAssets chunk id).
    { intros id. rewrite elem_of_mark. split.
      - intros [H | (e & Hin & Heq)]; [auto |].
        apply filter_In in Hin as [Hin Hc]. apply claimable_spec in Hc as [_ Hh].
        right. exists e. rewrite <- Heq. auto.
      - intros [H | (e & Hin & Heq & Hh)]; [auto |].
        destruct (decide (id ∈ P)) as [HP | HP]; [auto |].
        right. exists e. split; [| exact Heq].
        apply filter_In. split; [exact Hin |].
        apply claimable_spec. rewrite Heq. auto. }
    split; [simpl; lia | split].
    + intros [|i] b Hi; simpl in Hi.
      * injection Hi as <-. exists chunk. simpl. split; [reflexivity | split; [reflexivity |]].
        intros e. rewrite filter_In, claimable_spec. split.
        -- intros (Hin & HP & Hh). repeat split; auto. intros j c Hj. lia.
        -- intros (Hin & HP & Hh & _). auto.
      * destruct (Hbatches i b Hi) as (c & Hc & Hassets & Hentries).
        exists c. split; [exact Hc | split; [exact Hassets |]].
        intros e. rewrite Hentries. split.
        -- intros (Hin & HP & Hh & Hearlier).
           assert (HnP : entry_id e ∉ P) by (intros H; apply HP, Hmark; auto).
           repeat split; auto.
           intros [|j] c' Hj Hc'; simpl in Hc'.
           ++ injection Hc' as <-. intros Hh'. apply HP, Hmark. right. eauto.
           ++ apply (Hearlier j c'); [lia | exact Hc'].
        -- intros (Hin & HP & Hh & Hearlier). repeat split; auto.
           ++ intros H. apply Hmark in H as [H | (e' & _ & _ & Hh')]; [contradiction |].
              apply (Hearlier 0 chunk); [lia | reflexivity | exact Hh'].
           ++ intros j c' Hj Hc'. apply (Hearlier (S j) c'); [lia | exact Hc'].
    + intros id. rewrite Hfinal, Hmark. split.
      * intros [[H | (e & Hin & Heq & Hh)] | (e & j & c & Hin & Heq & Hj & Hh)]; [auto | |].
        -- right. exists e, 0, chunk. auto.
        -- right. exists e, (S j), c. auto.
      * intros [H | (e & [|j] & c & Hin & Heq & Hj & Hh)]; [auto | |]; simpl in Hj.
        -- injection Hj as <-. left. right. eauto.
        -- right. eauto 10.
Qed.
(** An id is marked processed exactly when a written batch holds it. *)
Lemma batchLoop_marks (chunks : list (list asset)) :
  forall k P written P',
  batchLoop E entryToAssets k chunks P = (written, P') ->
  forall id, id ∈ P' <->
    id ∈ P \/ exists i b, written !! i = Some b /\
                          In id (map entry_id (entries b)).
Proof.
  induction chunks as [|chunk rest IH]; intros k P written P' Hrun id; simpl in Hrun.
  - injection Hrun as <- <-. split; [auto |].
    intros [Hin | (i & b & Hi & _)]; [exact Hin |].
    rewrite lookup_nil in Hi. discriminate.
  - destruct (batchLoop E entryToAssets (S k) rest _) as [more final] eqn:Hrest.
    injection Hrun as <- <-.
    rewrite (IH _ _ _ _ Hrest id), elem_of_mark. split.
    + intros [[Hin | (e & Hin & Heq)] | (i & b & Hi & Hin)]; [auto | |].
      * right. eexists 0, _. split; [reflexivity |]. simpl.
        rewrite <- Heq. apply in_map, Hin.
      * right. exists (S i), b. auto.
    + intros [Hin | ([|i] & b & Hi & Hin)]; [auto | |]; simpl in Hi.
      * injection Hi as <-. simpl in Hin. apply in_map_iff in Hin as (e & Heq & Hin).
        left. right. eauto.
      * right. eauto.
Qed.
Lemma filter_split {A : Type} (p q : A -> bool) (l : list A) :
  Permutation (List.filter p l)
    (List.filter (fun x => p x && q x) l ++
     List.filter (fun x => p x && negb (q x)) l).
Proof.
  induction l as [|a l IH]; simpl; [constructor |].
  destruct (p a), (q a); simpl; try exact IH.
  - constructor. exact IH.
  - etransitivity; [constructor; exact IH |]. apply Permutation_middle.
Qed.

(** The entries written and the entries still unprocessed are, together,
    the entries that were unprocessed when the loop started. *)
Lemma batchLoop_permutation (chunks : list (list asset)) :
  forall k P written P',
  batchLoop E entryToAssets k chunks P = (written, P') ->
  Permutation
    (concat (map entries written) ++
     List.filter (fun e => negb (bool_decide (entry_id e ∈ P'))) (entries E))
    (List.filter (fun e => negb (bool_decide (entry_id e ∈ P))) (entries E)).
Proof.
  induction chunks as [|chunk rest IH]; intros k P written P' Hrun; simpl in Hrun.
  - injection Hrun as <- <-. reflexivity.
  - destruct (batchLoop E entryToAssets (S k) rest _) as [more final] eqn:Hrest.
    injection Hrun as <- <-. simpl. rewrite <- app_assoc.
    rewrite (IH _ _ _ _ Hrest).
    rewrite (filter_split (fun e => negb (bool_decide (entry_id e ∈ P)))
               (fun e => referencesBatch entryToAssets (idsOfAssets chunk) (entry_id e))
               (entries E)).
    apply Permutation_app.
    + erewrite List.filter_ext; [reflexivity |].
      intros e. unfold claimable. destruct (bool_decide _); reflexivity.
    + erewrite filter_ext_in; [reflexivity |].
      intros e Hin. simpl.
      destruct (bool_decide (entry_id e ∈ P)) eqn:HP; simpl.
      * apply negb_false_iff, bool_decide_eq_true, elem_of_mark. left.
        apply bool_decide_eq_true in HP. exact HP.
      * apply bool_decide_eq_false in HP.
        destruct (referencesBatch entryToAssets (idsOfAssets chunk) (entry_id e))
          eqn:Hh; simpl.
        -- apply negb_false_iff, bool_decide_eq_true, elem_of_mark. right.
           exists e. split; [| reflexivity]. apply filter_In. split; [exact Hin |].
           apply claimable_spec. split; assumption.
        -- apply negb_true_iff, bool_decide_eq_false. intros Hm.
           apply elem_of_mark in Hm as [Hm | (e' & Hin' & Heq)]; [contradiction |].
           apply filter_In in Hin' as [_ Hc]. apply claimable_spec in Hc as [_ Hc].
           unfold hits in Hc. rewrite Heq, Hh in Hc. discriminate.
Qed.
End LoopFacts.

Lemma buildEntryToAssets_snoc (es : list entry) (e : entry) :
  buildEntryToAssets (es ++ [e]) =
  <[entry_id e := getAssetReferencesFromEntry e]> (buildEntryToAssets es).
Proof. unfold buildEntryToAssets. rewrite fold_left_app. reflexivity. Qed.

(** With distinct entry ids the map holds, for each entry, its own links. *)
Lemma buildEntryToAssets_lookup (es : list entry) :
  NoDup (map entry_id es) ->
  forall e, In e es ->
  buildEntryToAssets es !! entry_id e = Some (getAssetReferencesFromEntry e).
Proof.
  induction es as [|x es IH] using rev_ind; intros Hnd e Hin; [destruct Hin |].
  rewrite buildEntryToAssets_snoc.
  rewrite map_app in Hnd. apply NoDup_app in Hnd as (Hnd & Hfresh & _).
  apply in_app_or in Hin as [Hin | [<- | []]].
  - rewrite lookup_insert_ne; [apply IH; assumption |].
    intros Heq. apply (Hfresh (entry_id e)).
    + apply list_elem_of_In, in_map, Hin.
    + rewrite <- Heq. simpl. apply list_elem_of_here.
  - apply lookup_insert_eq.
Qed.

Lemma hits_references (es : list entry) (chunk : list asset) (e : entry) :
  NoDup (map entry_id es) -> In e es ->
  hits (buildEntryToAssets es) chunk (entry_id e) <-> references e chunk.
Proof.
  intros Hnd Hin. unfold hits, referencesBatch, references, idsOfAssets.
  rewrite (buildEntryToAssets_lookup es Hnd e Hin). simpl.
  rewrite existsb_exists. split; intros (a & Ha & Hb); exists a; split; auto.
  - apply bool_decide_eq_true in Hb. apply elem_of_list_to_set in Hb.
    apply list_elem_of_In, Hb.
  - apply bool_decide_eq_true, elem_of_list_to_set, list_elem_of_In, Hb.
Qed.

(** The shape of the result: the batches of the asset chunks, followed by
    the overflow batch when an entry is left. *)
Lemma splitExport_shape (batchSize : nat) (E : export) :
  0 < batchSize ->
  exists chunks written P man,
    makeAssetBatches batchSize (assets E) = Some chunks /\
    batchLoop E (buildEntryToAssets (entries E)) 0 chunks ∅ = (written, P) /\
    let orphans :=
      List.filter (fun e => negb (bool_decide (entry_id e ∈ P))) (entries E) in
    splitExport batchSize E =
      Some (written ++ (if Nat.ltb 0 (length orphans)
                        then [orphanBatch orphans] else []), man).
Proof.
  intros Hpos. destruct (makeAssetBatches_total batchSize (assets E) Hpos) as [chunks Hc].
  destruct (batchLoop E (buildEntryToAssets (entries E)) 0 chunks ∅)
    as [written P] eqn:Hloop.
  exists chunks, written, P. unfold splitExport. rewrite Hc, Hloop. cbv zeta.
  destruct (Nat.ltb 0 (length (List.filter _ (entries E)))) eqn:Ho.
  - eexists. split; [reflexivity | split; [reflexivity |]]. reflexivity.
  - eexists. split; [reflexivity | split; [reflexivity |]].
    rewrite app_nil_r. reflexivity.
Qed.

(** C1 (partition completeness).  For a positive batch size [splitExport]
    returns, and: every entry id of the export is in some output batch and
    every id of a batch comes from the export; no id is in two batches; the
    entries of the batches, taken together, are the entries of the export,
    each as many times as there; and, entry ids being distinct, the batch of
    asset chunk [i] holds exactly the entries that reference chunk [i] and
    no earlier chunk, while the entries that reference no chunk are exactly
    those of the overflow batch, which comes last and has no assets. *)
Theorem partition_completeness (batchSize : nat) (E : export) :
  0 < batchSize ->
  exists chunks out man,
    makeAssetBatches batchSize (assets E) = Some chunks /\
    splitExport batchSize E = Some (out, man) /\
    (forall id, In id (entryIds E) <->
       exists i b, out !! i = Some b /\ In id (entryIds b)) /\
    (forall i j bi bj id,
       out !! i = Some bi -> out !! j = Some bj ->
       In id (entryIds bi) -> In id (entryIds bj) -> i = j) /\
    Permutation (concat (map entries out)) (entries E) /\
    (NoDup (entryIds E) ->
       (forall i c, chunks !! i = Some c ->
          exists b, out !! i = Some b /\ assets b = c /\
            forall e, In e (entries b) <->
              In e (entries E) /\ references e c /\
              forall j c', j < i -> chunks !! j = Some c' -> ~ references e c') /\
       (forall e, In e (entries E) ->
          (forall j c, chunks !! j = Some c -> ~ references e c) ->
          exists b, out !! length chunks = Some b /\ assets b = [] /\
                    In e (entries b)) /\
       (forall i b, out !! i = Some b -> length chunks <= i ->
          i = length chunks /\ assets b = [] /\
          forall e, In e (entries b) ->
            In e (entries E) /\
            forall j c, chunks !! j = Some c -> ~ references e c)).
Proof.
  intros Hpos.
  destruct (splitExport_shape batchSize E Hpos)
    as (chunks & written & P & man & Hchunks & Hloop & Hout).
  cbv zeta in Hout.
  set (orphans := List.filter (fun e => negb (bool_decide (entry_id e ∈ P)))
                              (entries E)) in *.
  set (e2a := buildEntryToAssets (entries E)) in *.
  destruct (batchLoop_spec E e2a chunks _ _ _ _ Hloop) as (Hlen & Hbatches & Hfinal).
  pose proof (batchLoop_marks E e2a chunks _ _ _ _ Hloop) as Hmarks.
  assert (Horph : forall e, In e orphans <-> In e (entries E) /\ (entry_id e ∉ P)).
  { intros e. unfold orphans. rewrite filter_In, negb_true_iff, bool_decide_eq_false.
    reflexivity. }
  assert (Hlookup : forall i b,
    (written ++ (if Nat.ltb 0 (length orphans) then [orphanBatch orphans] else []))
      !! i = Some b ->
    written !! i = Some b \/
    (i = length chunks /\ b = orphanBatch orphans /\ orphans <> [])).
  { intros i b Hi. apply lookup_app_Some in Hi as [Hi | [Hge Hi]]; [auto | right].
    destruct orphans as [|o os] eqn:Ho; simpl in Hi.
    - rewrite lookup_nil in Hi. discriminate.
    - destruct (i - length written) as [|n] eqn:Hn; simpl in Hi.
      + injection Hi as <-. split; [lia | split; [reflexivity | discriminate]].
      + rewrite lookup_nil in Hi. discriminate. }
  assert (Hoverflow : orphans <> [] ->
    (written ++ (if Nat.ltb 0 (length orphans) then [orphanBatch orphans] else []))
      !! length chunks = Some (orphanBatch orphans)).
  { intros Hne. rewrite lookup_app_r by lia. rewrite Hlen, Nat.sub_diag.
    destruct orphans; [contradiction | reflexivity]. }
  exists chunks,
    (written ++ (if Nat.ltb 0 (length orphans) then [orphanBatch orphans] else [])),
    man.
  split; [exact Hchunks | split; [exact Hout |]].
  split; [| split; [| split]].
  - (* union *)
    intros id. split.
    + intros Hid. apply in_map_iff in Hid as (e & Heq & Hin).
      destruct (decide (id ∈ P)) as [HP | HP].
      * apply Hmarks in HP as [HP | (i & b & Hi & Hb)]; [set_solver |].
        exists i, b. split; [| exact Hb]. apply lookup_app_l_Some, Hi.
      * assert (Ho : In e orphans) by (apply Horph; rewrite Heq; auto).
        exists (length chunks), (orphanBatch orphans). split.
        -- apply Hoverflow. intros Hnil. rewrite Hnil in Ho. destruct Ho.
        -- unfold entryIds. simpl. rewrite <- Heq. apply in_map, Ho.
    + intros (i & b & Hi & Hb). apply in_map_iff in Hb as (e & Heq & Hin).
      apply in_map_iff. exists e. split; [exact Heq |].
      apply Hlookup in Hi as [Hi | (_ & -> & _)].
      * destruct (Hbatches i b Hi) as (c & _ & _ & Hent). apply Hent in Hin. tauto.
      * apply Horph in Hin. tauto.
  - (* disjointness *)
    assert (Hwritten : forall i b id, written !! i = Some b -> In id (entryIds b) ->
      id ∈ P /\ exists c, chunks !! i = Some c /\ hits e2a c id /\
        forall j c', j < i -> chunks !! j = Some c' -> ~ hits e2a c' id).
    { intros i b id Hi Hid. split.
      - apply Hmarks. right. eauto.
      - destruct (Hbatches i b Hi) as (c & Hc & _ & Hent).
        apply in_map_iff in Hid as (e & <- & Hin). apply Hent in Hin.
        exists c. tauto. }
    intros i j bi bj id Hi Hj Hidi Hidj.
    apply Hlookup in Hi as [Hi | (-> & -> & _)];
      apply Hlookup in Hj as [Hj | (-> & -> & _)]; [| | | reflexivity].
    + destruct (Hwritten _ _ _ Hi Hidi) as (_ & ci & Hci & Hhi & Hei).
      destruct (Hwritten _ _ _ Hj Hidj) as (_ & cj & Hcj & Hhj & Hej).
      destruct (Nat.lt_trichotomy i j) as [Hlt | [Heq | Hgt]]; [| exact Heq |].
      * destruct (Hej i ci Hlt Hci Hhi).
      * destruct (Hei j cj Hgt Hcj Hhj).
    + destruct (Hwritten _ _ _ Hi Hidi) as (HP & _).
      apply in_map_iff in Hidj as (e & <- & Hin). apply Horph in Hin. tauto.
    + destruct (Hwritten _ _ _ Hj Hidj) as (HP & _).
      apply in_map_iff in Hidi as (e & <- & Hin). apply Horph in Hin. tauto.
  - (* the entries, with multiplicity *)
    pose proof (batchLoop_permutation E e2a chunks _ _ _ _ Hloop) as Hperm.
    fold orphans in Hperm.
    rewrite (List.filter_ext _ (fun _ => true)) in Hperm
      by (intros e; apply negb_true_iff, bool_decide_eq_false; set_solver).
    rewrite filter_true in Hperm. rewrite <- Hperm.
    rewrite map_app, concat_app.
    destruct orphans; simpl; rewrite ?app_nil_r; reflexivity.
  - (* first claim wins, overflow *)
    intros Hnd.
    assert (Href : forall e c, In e (entries E) ->
      (hits e2a c (entry_id e) <-> references e c)).
    { intros e c Hin. apply hits_references; assumption. }
    split; [| split].
    + intros i c Hc.
      assert (Hi : i < length written) by (rewrite Hlen; eapply lookup_lt_Some, Hc).
      apply lookup_lt_is_Some in Hi as [b Hb].
      destruct (Hbatches i b Hb) as (c0 & Hc0 & Hassets & Hent).
      rewrite Hc in Hc0. injection Hc0 as <-.
      exists b. split; [apply lookup_app_l_Some, Hb | split; [exact Hassets |]].
      intros e. rewrite Hent. split.
      * intros (Hin & _ & Hh & Hearlier). split; [exact Hin | split].
        -- apply Href; assumption.
        -- intros j c' Hj Hc' Hr. apply (Hearlier j c' Hj Hc'), Href; assumption.
      * intros (Hin & Hr & Hearlier). split; [exact Hin | split; [set_solver | split]].
        -- apply Href; assumption.
        -- intros j c' Hj Hc' Hh. apply (Hearlier j c' Hj Hc'), Href; assumption.
    + intros e Hin Hnone.
      assert (Ho : In e orphans).
      { apply Horph. split; [exact Hin |]. intros HP.
        apply Hfinal in HP as [HP | (e' & j & c & Hin' & Heq & Hj & Hh)]; [set_solver |].
        apply (Hnone j c Hj), Href; [exact Hin |]. exact Hh. }
      exists (orphanBatch orphans). split; [| split; [reflexivity | exact Ho]].
      apply Hoverflow. intros Hnil. rewrite Hnil in Ho. destruct Ho.
    + intros i b Hi Hge. apply Hlookup in Hi as [Hi | (-> & -> & _)].
      * apply lookup_lt_Some in Hi. lia.
      * split; [reflexivity | split; [reflexivity |]].
        intros e Ho. apply Horph in Ho as [Hin HP]. split; [exact Hin |].
        intros j c Hj Hr. apply HP, Hfinal. right.
        exists e, j, c. split; [exact Hin | split; [reflexivity | split; [exact Hj |]]].
        apply Href; assumption.
Qed.

Lemma partition_completeness_witness :
  0 < 2 /\ NoDup (entryIds sampleExport) /\
  exists out man,
    splitExport 2 sampleExport = Some (out, man) /\
    map entryIds out = [["e1"]; ["e2"]; ["e3"]].
Proof.
  split; [lia |]. split; [apply NoDup_ListNoDup; repeat constructor; simpl; intuition discriminate |].
  destruct (partition_completeness 2 sampleExport) as (chunks & out & man & _ & Hrun & _);
    [lia |].
  exists out, man. split; [exact Hrun |].
  vm_compute in Hrun. injection Hrun as <- _. reflexivity.
Defined.

(** *** The traversal of an entry's fields *)

Lemma set_add_In (x id : string) (acc : list string) :
  In id (set_add x acc) <-> id = x \/ In id acc.
Proof.
  unfold set_add. destruct (existsb (String.eqb x) acc) eqn:Hex.
  - split; [auto |]. intros [-> | Hin]; [| exact Hin].
    apply existsb_exists in Hex as (y & Hy & Heq).
    apply String.eqb_eq in Heq. subst y. exact Hy.
  - rewrite in_app_iff. simpl. intuition.
Qed.

Lemma fold_left_grows {A : Type} (f : list string -> A -> list string)
    (l : list A) (id : string) :
  Forall (fun x => forall acc, In id acc -> In id (f acc x)) l ->
  forall acc, In id acc -> In id (fold_left f l acc).
Proof.
  induction 1 as [|x l Hx _ IH]; intros acc Hin; simpl; [exact Hin |].
  apply IH, Hx, Hin.
Qed.

(** The set only grows along the traversal. *)
Lemma traverseFields_grows (id : string) (v : value) :
  forall acc, In id acc -> In id (traverseFields v acc).
Proof.
  induction v as [| | | |items IH|members IH] using value_rect';
    intros acc Hin; simpl; try exact Hin.
  - apply fold_left_grows; [exact IH | exact Hin].
  - apply fold_left_grows.
    + exact IH.
    + destruct (assetLinkId (JObj members)); [apply set_add_In; auto | exact Hin].
Qed.

Lemma fold_left_reaches {A : Type} (f : list string -> A -> list string)
    (l : list A) (x : A) (id : string) :
  (forall y acc, In id acc -> In id (f acc y)) ->
  In x l -> (forall acc, In id (f acc x)) ->
  forall acc, In id (fold_left f l acc).
Proof.
  intros Hgrow Hin Hx. induction l as [|y l IH]; intros acc; [destruct Hin |].
  simpl. destruct Hin as [-> | Hin]; [| apply IH, Hin].
  apply fold_left_grows; [| apply Hx].
  apply Forall_forall. intros z _ acc'. apply Hgrow.
Qed.

(** Every link to an asset inside the tree, at any depth, is collected. *)
Lemma traverseFields_complete (v v' : value) (id : string) :
  inside v v' -> assetLinkId v' = Some id ->
  forall acc, In id (traverseFields v acc).
Proof.
  intros Hins Hlink. induction Hins as [v|items x v' Hin _ IH|members k x v' Hin _ IH];
    intros acc.
  - destruct v; try discriminate Hlink. simpl. rewrite Hlink.
    apply fold_left_grows; [| apply set_add_In; auto].
    apply Forall_forall. intros kv _ acc'. apply traverseFields_grows.
  - simpl. apply (fold_left_reaches _ items x); [| exact Hin | apply IH, Hlink].
    intros y acc'. apply traverseFields_grows.
  - simpl.
    apply (fold_left_reaches (fun acc kv => traverseFields (snd kv) acc) members (k, x));
      [| exact Hin | apply IH, Hlink].
    intros y acc'. apply traverseFields_grows.
Qed.

Lemma fold_left_sound {A : Type} (f : list string -> A -> list string)
    (Q : Prop) (l : list A) (id : string) :
  Forall (fun x => forall acc, In id (f acc x) -> In id acc \/ Q) l ->
  forall acc, In id (fold_left f l acc) -> In id acc \/ Q.
Proof.
  induction 1 as [|x l Hx _ IH]; intros acc Hin; simpl in Hin; [auto |].
  destruct (IH _ Hin) as [Hacc | HQ]; [apply Hx, Hacc | auto].
Qed.

(** Only links to assets inside the tree are collected. *)
Lemma traverseFields_sound (id : string) (v : value) :
  forall acc, In id (traverseFields v acc) ->
  In id acc \/ exists v', inside v v' /\ assetLinkId v' = Some id.
Proof.
  induction v as [| | | |items IH|members IH] using value_rect';
    intros acc Hin; simpl in Hin; auto.
  - apply (fold_left_sound _ (exists v', inside (JArr items) v' /\
                                         assetLinkId v' = Some id)) in Hin;
      [exact Hin |].
    apply Forall_forall. intros x Hx acc' Hin'.
    rewrite Forall_forall in IH.
    destruct (IH x Hx acc' Hin') as [Hacc | (v' & Hins & Hl)]; [auto | right].
    exists v'. split; [| exact Hl].
    eapply inside_item; [apply list_elem_of_In; exact Hx | exact Hins].
  - apply (fold_left_sound _ (exists v', inside (JObj members) v' /\
                                         assetLinkId v' = Some id)) in Hin.
    + destruct Hin as [Hin | HQ]; [| auto].
      destruct (assetLinkId (JObj members)) as [i|] eqn:Hl; [| auto].
      apply set_add_In in Hin as [-> | Hin]; [| auto].
      right. exists (JObj members). split; [constructor | exact Hl].
    + apply Forall_forall. intros [k x] Hx acc' Hin'.
      rewrite Forall_forall in IH.
      destruct (IH (k, x) Hx acc' Hin') as [Hacc | (v' & Hins & Hl)]; [auto | right].
      exists v'. split; [| exact Hl].
      eapply inside_member; [apply list_elem_of_In; exact Hx | exact Hins].
Qed.

(** The asset references of an entry are the ids of the links of type
    Asset that its fields hold, at any depth. *)
Lemma getAssetReferencesFromEntry_spec (e : entry) (id : string) :
  In id (getAssetReferencesFromEntry e) <->
  exists v', inside (entry_fields e) v' /\ assetLinkId v' = Some id.
Proof.
  unfold getAssetReferencesFromEntry. split.
  - intros Hin. apply traverseFields_sound in Hin as [[] | Hex]. exact Hex.
  - intros (v' & Hins & Hl). eapply traverseFields_complete; eassumption.
Qed.

(** *** Content model *)

Lemma sliceLoop_nonempty (batchSize : nat) (l : list asset) (chunks : list (list asset)) :
  l <> [] -> makeAssetBatches batchSize l = Some chunks -> chunks <> [].
Proof.
  unfold makeAssetBatches. destruct l as [|a l]; [contradiction |].
  intros _. simpl. destruct (sliceLoop _ _ _ _); [| discriminate].
  intros [= <-]. discriminate.
Qed.

Lemma batchLoop_model (E : export) (e2a : gmap string (list string))
    (chunks : list (list asset)) :
  forall k P written P',
  batchLoop E e2a k chunks P = (written, P') ->
  forall i b, written !! i = Some b ->
    (k + i <> 0 -> emptyModel b) /\ (k + i = 0 -> sameModel b E).
Proof.
  induction chunks as [|chunk rest IH]; intros k P written P' Hrun i b Hi; simpl in Hrun.
  - injection Hrun as <- <-. rewrite lookup_nil in Hi. discriminate.
  - destruct (batchLoop E e2a (S k) rest _) as [more final] eqn:Hrest.
    injection Hrun as <- <-. destruct i as [|i]; simpl in Hi.
    + injection Hi as <-. unfold emptyModel, sameModel. simpl.
      destruct k; simpl; split; intros Hk; try lia; repeat split.
    + destruct (IH _ _ _ _ Hrest i b Hi) as [Hempty _].
      split; intros Hk; [apply Hempty |]; lia.
Qed.

(** C2, as stated, fails on an export that has no content type: its first
    batch has an empty content-types collection. *)
Lemma content_model_singularity_fails :
  ~ contentModelOnlyInFirst 1 exportWithoutContentTypes.
Proof.
  intros (out & man & Hrun & (b0 & Hb0 & Hne) & _).
  vm_compute in Hrun. injection Hrun as <- _.
  simpl in Hb0. injection Hb0 as <-. apply Hne. reflexivity.
Qed.

(** An export with content types and entries but no asset: the only batch is
    the overflow batch, and the content model is in no batch. *)
Example content_model_without_assets :
  let E := {| contentTypes := [JObj [("name", JStr "post")]];
              entries := [{| entry_id := "e1"; entry_fields := JObj [] |}];
              assets := []; tags := []; locales := [];
              editorInterfaces := []; webhooks := [] |} in
  exists b man, splitExport 1 E = Some ([b], man) /\ contentTypes b = [].
Proof. eexists _, _. split; reflexivity. Qed.

(** C2 (content model), amended.  For a positive batch size, every batch
    other than the first has empty contentTypes, tags, locales,
    editorInterfaces and webhooks; and when the export has an asset, the first
    batch holds the export's five collections unchanged. *)
Theorem content_model_first_batch (batchSize : nat) (E : export) :
  0 < batchSize ->
  exists out man,
    splitExport batchSize E = Some (out, man) /\
    (forall i b, out !! i = Some b -> i <> 0 -> emptyModel b) /\
    (assets E <> [] -> exists b0, out !! 0 = Some b0 /\ sameModel b0 E).
Proof.
  intros Hpos.
  destruct (splitExport_shape batchSize E Hpos)
    as (chunks & written & P & man & Hchunks & Hloop & Hout).
  cbv zeta in Hout. eexists _, man. split; [exact Hout |].
  pose proof (batchLoop_model E _ chunks _ _ _ _ Hloop) as Hmodel.
  split.
  - intros i b Hi Hne. apply lookup_app_Some in Hi as [Hi | [Hge Hi]].
    + apply (Hmodel i b Hi). lia.
    + destruct (Nat.ltb 0 _); [| rewrite lookup_nil in Hi; discriminate].
      destruct (i - length written); simpl in Hi;
        [| rewrite lookup_nil in Hi; discriminate].
      injection Hi as <-. repeat split.
  - intros Hassets.
    pose proof (sliceLoop_nonempty _ _ _ Hassets Hchunks) as Hne.
    destruct (batchLoop_spec E _ chunks _ _ _ _ Hloop) as (Hlen & _ & _).
    destruct written as [|b0 rest].
    + destruct chunks; [contradiction | discriminate].
    + exists b0. split; [reflexivity |]. apply (Hmodel 0 b0); reflexivity.
Qed.

Lemma content_model_first_batch_witness :
  0 < 2 /\
  exists out man,
    splitExport 2 sampleExport = Some (out, man) /\
    (forall i b, out !! i = Some b -> i <> 0 -> emptyModel b) /\
    (assets sampleExport <> [] ->
     exists b0, out !! 0 = Some b0 /\ sameModel b0 sampleExport).
Proof. split; [lia | apply (content_model_first_batch 2 sampleExport); lia]. Defined.

End SplitFacts.

(** ** The rate limiter *)

Module LimiterFacts.
Import Limiter.
Local Open Scope Q_scope.

Lemma ofCount_pos (p : positive) : 1 <= ofCount (Npos p).
Proof.
  unfold ofCount. change 1 with (inject_Z 1). rewrite <- Zle_Qle. simpl. lia.
Qed.

Lemma orDefault_pos (x : option N) (d : positive) :
  exists p, orDefault x (Npos d) = Npos p.
Proof. destruct x as [[|p]|]; simpl; eauto. Qed.

Lemma new_ok (o : options) (now : Z) : limiterOk now (new o now).
Proof.
  unfold limiterOk, bucketOk, new. simpl.
  destruct (orDefault_pos (requestsPerSecond o) 10) as [ps ->].
  destruct (orDefault_pos (requestsPerHour o) 36000) as [ph ->].
  pose proof (ofCount_pos ps) as Hs. pose proof (ofCount_pos ph) as Hh.
  repeat split; try lra; try lia.
Qed.

Lemma elapsed_nonneg (last now : Z) (rate : Q) :
  (last <= now)%Z -> 0 < rate -> 0 <= inject_Z (now - last) / 1000 * rate.
Proof.
  intros Hle Hrate. apply Qmult_le_0_compat; [| lra].
  apply Qle_shift_div_l; [lra |]. rewrite Qmult_0_l.
  change 0 with (inject_Z 0). rewrite <- Zle_Qle. lia.
Qed.

Lemma refillBucket_ok (now now' : Z) (b : bucket) :
  bucketOk now b -> (now <= now')%Z -> bucketOk now' (refillBucket now' b).
Proof.
  intros (H0 & Hcap & H1 & Hrate & Hlast) Hnow.
  pose proof (elapsed_nonneg (lastRefill b) now' (refillRate b)) as Hadd.
  unfold bucketOk, refillBucket. simpl. repeat split; try assumption; try lia.
  - apply Q.min_glb; [lra |]. assert (0 <= _) by (apply Hadd; [lia | assumption]). lra.
  - apply Q.le_min_l.
Qed.

(** Sleeping for the computed wait brings the count back to one token. *)
Lemma refill_after_wait (now late : Z) (b : bucket) :
  bucketOk now b -> lastRefill b = now -> (0 <= late)%Z ->
  1 <= tokens (refillBucket (now + waitTimeFor b + late) b).
Proof.
  intros (H0 & Hcap & H1 & Hrate & Hlast) Hnow Hlate.
  unfold refillBucket. simpl. apply Q.min_glb; [assumption |].
  rewrite Hnow. unfold waitTimeFor.
  set (x := (1 - tokens b) / refillRate b * 1000).
  replace (now + Qceiling x + late - now)%Z with (Qceiling x + late)%Z by lia.
  assert (Hx : x <= inject_Z (Qceiling x + late)).
  { apply Qle_trans with (inject_Z (Qceiling x)); [apply Qle_ceiling |].
    rewrite <- Zle_Qle. lia. }
  assert (Hfield : x / 1000 * refillRate b == 1 - tokens b).
  { unfold x. field. intros Hz. rewrite Hz in Hrate. lra. }
  assert (Hmono : x / 1000 * refillRate b <=
                  inject_Z (Qceiling x + late) / 1000 * refillRate b).
  { apply Qmult_le_compat_r; [| lra].
    apply Qmult_le_compat_r; [exact Hx |]. apply Qinv_le_0_compat. lra. }
  lra.
Qed.

Lemma bucketOk_later (now now' : Z) (b : bucket) :
  bucketOk now b -> (now <= now')%Z -> bucketOk now' b.
Proof. unfold bucketOk. intuition lia. Qed.

Lemma waitTimeFor_nonneg (b : bucket) :
  tokens b < 1 -> 0 < refillRate b -> (0 <= waitTimeFor b)%Z.
Proof.
  intros Ht Hrate. unfold waitTimeFor.
  change 0%Z with (Qceiling (inject_Z 0)). apply Qceiling_resp_le.
  apply Qmult_le_0_compat; [| lra].
  apply Qle_shift_div_l; [assumption | lra].
Qed.

(** The shape of one [waitForToken]: the count is refilled first; the token
    is taken from a count of at least [1]; when the refilled count is below
    [1] the caller sleeps for [waitTimeFor] and the count is refilled again
    before the token is taken. *)
Lemma waitForToken_shape (now late : Z) (name : string) (b : bucket) (s : stats) :
  bucketOk now b -> (0 <= late)%Z ->
  exists b' s' now' ev,
    waitForToken now late name b s = (b', s', now', ev) /\
    bucketOk now' b' /\ (now <= now')%Z /\
    let b1 := refillBucket now b in
    (1 <= tokens b1 /\ now' = now /\
     ev = [EvRefill name (tokens b1); EvDeduct name (tokens b1)] /\
     tokens b' = tokens b1 - 1) \/
    (tokens b1 < 1 /\ now' = (now + waitTimeFor b1 + late)%Z /\
     exists t, 1 <= t /\ t = tokens (refillBucket now' b1) /\
       ev = [EvRefill name (tokens b1); EvSleep (waitTimeFor b1);
             EvRefill name t; EvDeduct name t] /\
       tokens b' = t - 1).
Proof.
  intros Hok Hlate.
  assert (Hok1 : bucketOk now (refillBucket now b))
    by (apply (refillBucket_ok now); [assumption | lia]).
  unfold waitForToken.
  destruct (Qlt_le_dec (tokens (refillBucket now b)) 1) as [Hlt | Hge].
  - set (b1 := refillBucket now b) in *.
    assert (Hw : (0 <= waitTimeFor b1)%Z)
      by (apply waitTimeFor_nonneg; [assumption | apply Hok1]).
    assert (Hone : 1 <= tokens (refillBucket (now + waitTimeFor b1 + late) b1))
      by (apply refill_after_wait; [assumption | reflexivity | assumption]).
    assert (Hok2 : bucketOk (now + waitTimeFor b1 + late)
                     (refillBucket (now + waitTimeFor b1 + late) b1))
      by (apply (refillBucket_ok now); [assumption | lia]).
    eexists _, _, _, _. split; [reflexivity |]. split; [| split; [lia |]].
    + destruct Hok2 as (H0 & Hcap & H1 & Hrate & Hlast).
      unfold bucketOk, setTokens. simpl in *. repeat split; try assumption; lra.
    + right. split; [assumption | split; [reflexivity |]].
      eexists. split; [exact Hone |]. repeat split.
  - eexists _, _, _, _. split; [reflexivity |]. split; [| split; [lia |]].
    + destruct Hok1 as (H0 & Hcap & H1 & Hrate & Hlast).
      unfold bucketOk, setTokens. simpl in *. repeat split; try assumption; lra.
    + left. repeat split. exact Hge.
Qed.

Lemma acquireTokens_ok (now : Z) (late : lateness) (l : limiter) :
  limiterOk now l -> lateOk late ->
  exists l1 t ev,
    acquireTokens now late l = (l1, t, ev) /\ limiterOk t l1 /\ (now <= t)%Z.
Proof.
  intros [Hs Hh] (Hl1 & Hl2 & _). unfold acquireTokens.
  destruct (waitForToken_shape now (lateSecond late) "per-second"
              (secondBucket l) (lstats l) Hs Hl1)
    as (sb & s1 & t1 & ev1 & -> & Hsb & Ht1 & _).
  destruct (waitForToken_shape t1 (lateHour late) "per-hour"
              (hourBucket l) s1 (bucketOk_later _ _ _ Hh Ht1) Hl2)
    as (hb & s2 & t2 & ev2 & -> & Hhb & Ht2 & _).
  eexists _, _, _. split; [reflexivity |]. split; [| lia].
  split; simpl; [apply (bucketOk_later t1); assumption | assumption].
Qed.

Lemma conservativeReset_ok (now : Z) (l : limiter) :
  limiterOk now l -> limiterOk now (conservativeReset l).
Proof.
  intros [(Hs0 & Hscap & Hs1 & Hsr & Hsl) (Hh0 & Hhcap & Hh1 & Hhr & Hhl)].
  unfold limiterOk, bucketOk, conservativeReset. simpl.
  repeat split; try assumption; try lra.
  - apply Q.min_glb; lra.
  - apply Qle_trans with (tokens (hourBucket l)); [apply Q.le_min_l | assumption].
Qed.

Lemma limiterOk_later (now now' : Z) (l : limiter) :
  limiterOk now l -> (now <= now')%Z -> limiterOk now' l.
Proof. intros [Hs Hh] Hle. split; eapply bucketOk_later; eassumption. Qed.

Lemma throttle_ok {A : Type} (now : Z) (late : lateness)
    (fn : Z -> Z * outcome A) (l : limiter) :
  limiterOk now l -> lateOk late -> (forall t, 0 <= fst (fn t))%Z ->
  exists l' now' r ev,
    throttle now late fn l = (l', now', r, ev) /\
    limiterOk now' l' /\ (now <= now')%Z.
Proof.
  intros Hok Hlate Hfn.
  destruct (acquireTokens_ok now late l Hok Hlate) as (l1 & t & ev & Hadm & Hok1 & Ht).
  unfold throttle. rewrite Hadm. specialize (Hfn t).
  destruct (fn t) as [d [a | e]]; simpl in Hfn.
  - eexists _, _, _, _. split; [reflexivity |].
    split; [apply (limiterOk_later t); [assumption | lia] | lia].
  - destruct Hlate as (_ & _ & Hc). destruct (is429 e).
    + eexists _, _, _, _. split; [reflexivity |]. split; [| lia].
      apply conservativeReset_ok. apply (limiterOk_later t); [assumption | lia].
    + eexists _, _, _, _. split; [reflexivity |].
      split; [apply (limiterOk_later t); [assumption | lia] | lia].
Qed.

Lemma updateFromHeaders_ok (now : Z) (sr hr : option Z) (l : limiter) :
  limiterOk now l -> remainingOk sr -> remainingOk hr ->
  limiterOk now (updateFromHeaders sr hr l).
Proof.
  intros [Hs Hh] Hsr Hhr. unfold limiterOk, updateFromHeaders. simpl.
  assert (Hmin : forall b n, bucketOk now b -> (0 <= n)%Z ->
            bucketOk now (setTokens b (Qmin (tokens b) (inject_Z n)))).
  { intros b n (H0 & Hcap & H1 & Hrate & Hlast) Hn.
    unfold bucketOk, setTokens. simpl. repeat split; try assumption.
    - apply Q.min_glb; [assumption |]. change 0 with (inject_Z 0).
      rewrite <- Zle_Qle. exact Hn.
    - apply Qle_trans with (tokens b); [apply Q.le_min_l | assumption]. }
  split.
  - destruct sr as [n|]; [apply Hmin |]; assumption.
  - destruct hr as [n|]; [apply Hmin |]; assumption.
Qed.




(** The token bucket over exact fractions.  When the clock does not go
    back, timers do not fire early and the reported remaining counts are not
    negative, every limiter reached from the constructor has
    [0 <= tokens <= capacity] in both buckets; [refillBucket],
    [waitForToken], [throttle] and [updateFromHeaders] preserve the bound.
    In [waitForToken] the count is refilled before it is read; when the
    refilled count is below [1] the caller first sleeps for
    [ceil((1 - tokens) / refillRate * 1000)] ms and the count is refilled
    again.  [RateLimiterFacts] shows what rounding and early timers do to
    this bound. *)
Theorem exact_fractions_keep_the_bound :
  (forall now l, reachable now l ->
     0 <= tokens (secondBucket l) <= capacity (secondBucket l) /\
     0 <= tokens (hourBucket l) <= capacity (hourBucket l)) /\
  (forall o now, limiterOk now (new o now)) /\
  (forall now now' b,
     bucketOk now b -> (now <= now')%Z -> bucketOk now' (refillBucket now' b)) /\
  (forall now late name b s,
     bucketOk now b -> (0 <= late)%Z ->
     exists b' s' now' ev,
       waitForToken now late name b s = (b', s', now', ev) /\
       bucketOk now' b' /\ (now <= now')%Z /\
       let b1 := refillBucket now b in
       (1 <= tokens b1 /\ now' = now /\
        ev = [EvRefill name (tokens b1); EvDeduct name (tokens b1)] /\
        tokens b' = tokens b1 - 1) \/
       (tokens b1 < 1 /\
        now' = (now + Qceiling ((1 - tokens b1) / refillRate b1 * 1000) + late)%Z /\
        exists t, 1 <= t /\ t = tokens (refillBucket now' b1) /\
          ev = [EvRefill name (tokens b1);
                EvSleep (Qceiling ((1 - tokens b1) / refillRate b1 * 1000));
                EvRefill name t; EvDeduct name t] /\
          tokens b' = t - 1)) /\
  (forall (A : Type) now late (fn : Z -> Z * outcome A) l,
     limiterOk now l -> lateOk late -> (forall t, 0 <= fst (fn t))%Z ->
     exists l' now' r ev,
       throttle now late fn l = (l', now', r, ev) /\
       limiterOk now' l' /\ (now <= now')%Z) /\
  (forall now sr hr l,
     limiterOk now l -> remainingOk sr -> remainingOk hr ->
     limiterOk now (updateFromHeaders sr hr l)).
Proof.
  split.
  { intros now l Hreach.
    assert (Hok : limiterOk now l).
    { induction Hreach as [o now|now now' l _ IH Hle
                           |A now now' late fn l l' r ev _ IH Hlate Hfn Hrun
                           |now sr hr l _ IH Hsr Hhr].
      - apply new_ok.
      - eapply limiterOk_later; eassumption.
      - destruct (throttle_ok now late fn l IH Hlate Hfn)
          as (l2 & now2 & r2 & ev2 & Hrun2 & Hok2 & _).
        rewrite Hrun in Hrun2. injection Hrun2 as <- <- <- <-. exact Hok2.
      - apply updateFromHeaders_ok; assumption. }
    destruct Hok as [(Hs0 & Hs1 & _) (Hh0 & Hh1 & _)]. auto. }
  split; [exact new_ok |]. split; [exact refillBucket_ok |].
  split; [exact waitForToken_shape |]. split; [exact @throttle_ok |].
  exact updateFromHeaders_ok.
Qed.

(** Two admissions in a row at one request per second: the first finds a
    full bucket, the second sleeps one second before it takes its token. *)
Example second_admission_waits :
  let l0 := new onePerSecond 0 in
  let '(l1, t1, _, ev1) := throttle 0 onTime resolved l0 in
  let '(l2, t2, _, ev2) := throttle t1 onTime resolved l1 in
  t1 = 5%Z /\ t2 = 1005%Z /\
  List.filter (fun e => match e with EvSleep _ => true | _ => false end) ev1 = [] /\
  List.filter (fun e => match e with EvSleep _ => true | _ => false end) ev2
    = [EvSleep 995] /\
  tokens (secondBucket l2) == 0.
Proof. vm_compute. repeat split; discriminate. Qed.

End LimiterFacts.

(** ** The rate limiter in double precision *)

Module RateLimiterFacts.
Import Float64 RateLimiter.

(** The doubles named in the runs below. *)
Lemma named_doubles :
  hasValue d0_08 (5764607523034235 # 72057594037927936)%Q /\
  hasValue belowOne (1 - (1 # 9007199254740992))%Q /\
  hasValue minusUlp (-1 # 9007199254740992)%Q /\
  hasValue minusTwoUlp (-1 # 4503599627370496)%Q /\
  hasValue (ofZ 92) 92%Q /\ hasValue (ofZ 101) 101%Q.
Proof. vm_compute. repeat split. Qed.

(** The order of the steps of [waitForToken]: the count is refilled from the
    time that has passed before it is compared with 1 and before the token is
    taken; when the refilled count is below 1 the caller sleeps for the
    computed time, the count is refilled once more, and the token is taken
    from whatever the count then is. *)
Lemma waitForToken_refills_first (now late : Z) (name : string) (b : bucket)
    (s : stats) :
  let b1 := refillBucket now b in
  let ms := ceil (mul (div (sub (ofZ 1) (tokens b1)) (refillRate b1)) (ofZ 1000)) in
  exists b' s' now' ev,
    waitForToken now late name b s = (b', s', now', ev) /\
    (ltb (tokens b1) (ofZ 1) = false /\ now' = now /\ s' = s /\
     ev = [EvRefill name (tokens b1); EvDeduct name (tokens b1)] /\
     b' = setTokens b1 (sub (tokens b1) (ofZ 1))
     \/
     ltb (tokens b1) (ofZ 1) = true /\
     now' = (now + timerDelay ms + late)%Z /\
     throttledRequests s' = S (throttledRequests s) /\
     totalWaitTime s' = add (totalWaitTime s) ms /\
     let b2 := refillBucket now' b1 in
     ev = [EvRefill name (tokens b1); EvSleep ms;
           EvRefill name (tokens b2); EvDeduct name (tokens b2)] /\
     b' = setTokens b2 (sub (tokens b2) (ofZ 1))).
Proof.
  intros b1 ms. unfold waitForToken. fold b1.
  destruct (ltb (tokens b1) (ofZ 1)) eqn:Hlow.
  - eexists _, _, _, _. split; [reflexivity |]. right.
    repeat (split; [reflexivity |]). reflexivity.
  - eexists _, _, _, _. split; [reflexivity |]. left.
    repeat (split; [reflexivity |]). reflexivity.
Qed.

(** C6 (token-bucket invariant), on the limiter with its default options
    and timers that fire on time.  Ten calls of [throttle] when the process
    starts empty the per-second bucket.  A call 8 ms later finds [0.08]
    tokens, sleeps 92 ms and refills again; the refilled count is
    [0.9999999999999999], below 1, and the token is taken from it without
    the count being read again: the bucket is left with
    [-1.1102230246251565e-16] tokens, outside [0 <= tokens <= capacity].
    After a call 114 ms from the start the count is [-2.220446049250313e-16],
    and a call at 200 ms then sleeps 101 ms, longer than the 100 ms an empty
    bucket needs for one token.  With a timer that fires 1 ms early the
    count after the eleventh call is below [-0.01].  So the bound does not
    hold of the limiters a process can reach. *)
Theorem token_count_goes_negative :
  let start := new Limiter.defaults clock0 in
  let run11 := calls Limiter.onTime burstAndOne clock0 start in
  let run13 := calls Limiter.onTime burstAndThree clock0 start in
  let early := calls oneEarly burstAndOne clock0 start in
  withinBounds (secondBucket start) = true /\
  firstn 4 (nth 10 (snd run11) []) =
    [EvRefill "per-second" d0_08; EvSleep (ofZ 92);
     EvRefill "per-second" belowOne; EvDeduct "per-second" belowOne] /\
  ltb belowOne (ofZ 1) = true /\
  tokens (secondBucket (fst (fst run11))) = minusUlp /\
  ltb (tokens (secondBucket (fst (fst run11)))) (ofZ 0) = true /\
  withinBounds (secondBucket (fst (fst run11))) = false /\
  snd (fst run11) = (clock0 + 100)%Z /\
  firstn 4 (nth 11 (snd run13) []) =
    [EvRefill "per-second" (SpecFloat.S754_finite false 5044031582654952 (-55));
     EvSleep (ofZ 86);
     EvRefill "per-second" (SpecFloat.S754_finite false 9007199254740990 (-53));
     EvDeduct "per-second" (SpecFloat.S754_finite false 9007199254740990 (-53))] /\
  firstn 2 (nth 12 (snd run13) []) =
    [EvRefill "per-second" minusTwoUlp; EvSleep (ofZ 101)] /\
  timerDelay (waitTimeFor (setTokens (secondBucket start) (ofZ 0))) = 100%Z /\
  snd (fst run13) = (clock0 + 301)%Z /\
  ltb (tokens (secondBucket (fst (fst early)))) (div (ofZ (-1)) (ofZ 100)) = true /\
  ~ (forall (late : Limiter.lateness) (arrivals : list Z),
       Limiter.lateOk late ->
       withinBounds
         (secondBucket (fst (fst (calls late arrivals clock0 start)))) = true).
Proof.
  intros start run11 run13 early.
  repeat (split; [vm_compute; reflexivity |]).
  intros Hall.
  assert (Hlate : Limiter.lateOk Limiter.onTime)
    by (unfold Limiter.lateOk; simpl; lia).
  pose proof (Hall Limiter.onTime burstAndOne Hlate) as Hin.
  vm_compute in Hin. discriminate Hin.
Qed.

End RateLimiterFacts.

(** ** The state store and the batch loop *)

Module ImporterFacts.
Import Importer.

Lemma monotone_app (s0 : importState) (tr1 tr2 : list driverEvent) :
  monotone s0 (tr1 ++ tr2) <->
  monotone s0 tr1 /\ monotone (persisted s0 tr1) tr2.
Proof.
  revert s0. induction tr1 as [|e tr1 IH]; intros s0; simpl.
  - tauto.
  - destruct e; simpl; rewrite ?IH; tauto.
Qed.

Lemma persisted_app (s0 : importState) (tr1 tr2 : list driverEvent) :
  persisted s0 (tr1 ++ tr2) = persisted (persisted s0 tr1) tr2.
Proof.
  revert s0. induction tr1 as [|e tr1 IH]; intros s0; simpl; [reflexivity |].
  destruct e; simpl; apply IH.
Qed.

Lemma succeeded_app (b : string) (tr1 tr2 : list driverEvent) :
  succeeded b (tr1 ++ tr2) <-> succeeded b tr1 \/ succeeded b tr2.
Proof.
  unfold succeeded. split.
  - intros [cm Hin]. apply in_app_or in Hin as [Hin | Hin]; eauto.
  - intros [[cm Hin] | [cm Hin]]; exists cm; apply in_or_app; auto.
Qed.

Lemma attempts_app (b : string) (tr1 tr2 : list driverEvent) :
  attempts b (tr1 ++ tr2) = attempts b tr1 + attempts b tr2.
Proof. unfold attempts. rewrite List.filter_app, length_app. reflexivity. Qed.


Section RunFacts.
Variable W : Type.
Variable importBatch : string -> string -> bool -> W -> W * option string.
Variable toISOString : W -> string.
Variable outputDir : string.
Variable opts : importOptions.
Variable m : Split.manifest.

#[local] Abbreviation driver := (driver W).
#[local] Abbreviation retryLoop := (retryLoop W importBatch toISOString opts m).
#[local] Abbreviation batchLoop := (batchLoop W importBatch toISOString outputDir opts m).
#[local] Abbreviation processBatch := (processBatch W importBatch toISOString outputDir opts m).

Lemma continues_refl (d : driver) : continues d d.
Proof.
  exists []. rewrite app_nil_r. simpl. repeat split; auto.
Qed.

Lemma continues_trans (d1 d2 d3 : driver) :
  continues d1 d2 -> continues d2 d3 -> continues d1 d3.
Proof.
  intros (e1 & Ht1 & Hm1 & Hp1 & Hc1) (e2 & Ht2 & Hm2 & Hp2 & Hc2).
  exists (e1 ++ e2). rewrite Ht2, Ht1, <- app_assoc.
  split; [reflexivity |]. split; [| split].
  - apply monotone_app. rewrite Hp1. auto.
  - rewrite persisted_app, Hp1. exact Hp2.
  - intros b Hb. rewrite succeeded_app.
    destruct (Hc2 b Hb) as [Hin | Hs]; [| auto].
    destruct (Hc1 b Hin); auto.
Qed.

Lemma continues_emit (d : driver) (e : driverEvent) :
  (forall s, e <> DSave s) -> continues d (emit W d e).
Proof.
  intros Hns. exists [e]. simpl.
  destruct e; try (repeat split; auto; fail). destruct (Hns s eq_refl).
Qed.

Lemma continues_setWorld (d : driver) (w : W) : continues d (setWorld W w d).
Proof. exists []. simpl. rewrite app_nil_r. repeat split; auto. Qed.

Lemma continues_markInFlight (d : driver) (b : string) :
  continues d (markInFlight W b d).
Proof.
  eexists [_]. simpl. repeat split; auto; reflexivity.
Qed.

Lemma continues_markFailed (d : driver) (b msg : string) :
  continues d (markFailed W toISOString b msg d).
Proof.
  eexists [_]. simpl. repeat split; auto; try reflexivity.
  eexists. reflexivity.
Qed.

Lemma continues_success (d : driver) (b : string) (cm : bool) :
  continues d (markCompleted W b (emit W d (DImport b cm true))).
Proof.
  eexists [_; _]. simpl. rewrite <- app_assoc. simpl.
  split; [reflexivity |]. split; [| split; [reflexivity |]].
  - repeat split; try reflexivity. eexists. reflexivity.
  - intros b' Hin. apply in_app_or in Hin as [Hin | [<- | []]]; [auto |].
    right. exists cm. left. reflexivity.
Qed.

Lemma retryLoop_done (fuel i : nat) (dir num : string) (cm : bool)
    (retries : nat) (d : driver) :
  retryLoop fuel i dir num cm retries true d = Some d.
Proof. destruct fuel; simpl; rewrite andb_false_r; reflexivity. Qed.

Lemma retryLoop_exit (fuel i : nat) (dir num : string) (cm : bool)
    (retries : nat) (success : bool) (d : driver) :
  Nat.leb retries (maxRetries opts) && negb success = false ->
  retryLoop fuel i dir num cm retries success d = Some d.
Proof. intros Hc. destruct fuel; simpl; rewrite Hc; reflexivity. Qed.

(** One iteration of the retry loop. *)
Lemma retryLoop_step (fuel i : nat) (dir num : string) (cm : bool)
    (retries : nat) (success : bool) (d : driver) :
  Nat.leb retries (maxRetries opts) && negb success = true ->
  retryLoop (S fuel) i dir num cm retries success d =
  let d1 := if Nat.ltb 0 retries
            then emit W d (DSleep (retryDelay opts * Z.of_nat retries))
            else d in
  match importBatch dir num cm (world W d1) with
  | (w', None) =>
      let d3 := markCompleted W num (emit W (setWorld W w' d1) (DImport num cm true)) in
      retryLoop fuel i dir num cm retries true
        (if Nat.ltb i (Split.totalBatches m)
         then emit W d3 (DSleep (delayBetweenBatches opts)) else d3)
  | (w', Some msg) =>
      let d2 := emit W (setWorld W w' d1) (DImport num cm false) in
      retryLoop fuel i dir num cm (S retries) false
        (if Nat.ltb (maxRetries opts) (S retries)
         then markFailed W toISOString num msg d2 else d2)
  end.
Proof. intros Hc. cbn [Importer.retryLoop]. rewrite Hc. reflexivity. Qed.

(** The retry loop returns within [maxRetries + 1] iterations. *)
Lemma retryLoop_total (fuel i : nat) (dir num : string) (cm : bool) :
  forall retries success d,
  S (maxRetries opts) <= fuel + retries ->
  exists d', retryLoop fuel i dir num cm retries success d = Some d'.
Proof.
  induction fuel as [|fuel IH]; intros retries success d Hfuel;
    destruct (Nat.leb retries (maxRetries opts) && negb success) eqn:Hc;
    try (rewrite retryLoop_exit by exact Hc; eauto; fail).
  - apply andb_prop in Hc as [Hc _]. apply Nat.leb_le in Hc. lia.
  - rewrite retryLoop_step by exact Hc. cbv zeta.
    destruct (importBatch dir num cm _) as [w' [msg|]].
    + apply IH. lia.
    + rewrite retryLoop_done. eauto.
Qed.

Lemma retryLoop_continues (fuel i : nat) (dir num : string) (cm : bool) :
  forall retries success d d',
  retryLoop fuel i dir num cm retries success d = Some d' -> continues d d'.
Proof.
  induction fuel as [|fuel IH]; intros retries success d d';
    destruct (Nat.leb retries (maxRetries opts) && negb success) eqn:Hc;
    try (rewrite retryLoop_exit by exact Hc; intros [= <-]; apply continues_refl).
  - simpl. rewrite Hc. discriminate.
  - rewrite retryLoop_step by exact Hc. cbv zeta.
    set (d1 := if Nat.ltb 0 retries then emit W d _ else d).
    assert (H1 : continues d d1).
    { unfold d1. destruct (Nat.ltb 0 retries); [| apply continues_refl].
      apply continues_emit. discriminate. }
    destruct (importBatch dir num cm (world W d1)) as [w' [msg|]].
    + intros Hrun. apply IH in Hrun.
      refine (continues_trans _ _ _ H1 (continues_trans _ _ _ _ Hrun)).
      apply continues_trans with (emit W (setWorld W w' d1) (DImport num cm false)).
      * apply continues_trans with (setWorld W w' d1);
          [apply continues_setWorld | apply continues_emit; discriminate].
      * destruct (Nat.ltb (maxRetries opts) (S retries));
          [apply continues_markFailed | apply continues_refl].
    + rewrite retryLoop_done. intros [= <-].
      refine (continues_trans _ _ _ H1 _).
      apply continues_trans with (setWorld W w' d1); [apply continues_setWorld |].
      apply continues_trans
        with (markCompleted W num (emit W (setWorld W w' d1) (DImport num cm true)));
        [apply continues_success |].
      destruct (Nat.ltb i (Split.totalBatches m));
        [apply continues_emit; discriminate | apply continues_refl].
Qed.

Lemma attempts_one (num : string) (cm ok : bool) :
  attempts num [DImport num cm ok] = 1.
Proof. unfold attempts. simpl. rewrite String.eqb_refl. reflexivity. Qed.

Lemma batchLoop_next (fuel i : nat) (d d' : driver) :
  i <= Split.totalBatches m ->
  existsb (String.eqb (batchNumOf i)) (completedBatches (state W d)) = false ->
  processBatch i d = Some (Some d') ->
  batchLoop (S fuel) i d = batchLoop fuel (S i) d'.
Proof.
  intros Hi Hnew Hproc. cbn [Importer.batchLoop].
  replace (Nat.leb i (Split.totalBatches m)) with true
    by (symmetry; apply Nat.leb_le; exact Hi).
  rewrite Hnew, Hproc. reflexivity.
Qed.



(** The batch loop returns, and its result continues the driver it started
    from. *)
Lemma batchLoop_continues (fuel : nat) :
  forall i d, S (Split.totalBatches m) <= fuel + i ->
  exists d', (batchLoop fuel i d = Finished W d' \/ batchLoop fuel i d = Fatal W d') /\
             continues d d'.
Proof.
  induction fuel as [|fuel IH]; intros i d Hfuel; cbn [Importer.batchLoop].
  - replace (Nat.leb i (Split.totalBatches m)) with false
      by (symmetry; apply Nat.leb_gt; lia).
    exists d. split; [auto | apply continues_refl].
  - destruct (Nat.leb i (Split.totalBatches m));
      [| exists d; split; [auto | apply continues_refl]].
    destruct (existsb _ _); [apply IH; lia |].
    unfold Importer.processBatch.
    destruct (List.find _ _) as [batchInfo|];
      [| exists d; split; [auto | apply continues_refl]].
    destruct (retryLoop_total (S (maxRetries opts)) i
                (String.append outputDir (String.append "/batch-" (batchNumOf i)))
                (batchNumOf i) (Split.hasContentModel batchInfo) 0 false
                (markInFlight W (batchNumOf i) d)) as [d1 Hd1]; [lia |].
    rewrite Hd1. destruct (IH (S i) d1) as (d' & Hres & Hcont); [lia |].
    exists d'. split; [exact Hres |].
    apply continues_trans with (markInFlight W (batchNumOf i) d);
      [apply continues_markInFlight |].
    apply continues_trans with d1; [| exact Hcont].
    eapply retryLoop_continues. exact Hd1.
Qed.


End RunFacts.

(** A whole run on a target on which batch 01 always fails: batch 01 is
    attempted four times and recorded as failed, batch 02 is then imported,
    and the process exits with a failure status. *)
Example run_goes_on_after_a_failed_batch :
  exists d,
    importAllBatches nat firstAlwaysFails stamp "batches" sampleOptions
      sampleManifest 1 None 0 = Finished nat d /\
    attempts "01" (trace nat d) = 4 /\ attempts "02" (trace nat d) = 1 /\
    completedBatches (state nat d) = ["02"] /\
    map batch (failedBatches (state nat d)) = ["01"] /\
    exitOf nat (Finished nat d) = ExitFailures.
Proof. eexists. split; [vm_compute; reflexivity |]. repeat split. Qed.

(** A later run in which batch 01 imports: it is appended to
    [completedBatches], and its failure record is still in [failedBatches]. *)
Example failure_record_stays_after_success :
  exists d,
    importAllBatches nat alwaysImports stamp "batches" sampleOptions
      sampleManifest 1 (Some firstFailed) 0 = Finished nat d /\
    completedBatches (state nat d) = ["02"; "01"] /\
    failedBatches (state nat d) = failedBatches firstFailed.
Proof. eexists. split; [vm_compute; reflexivity |]. repeat split. Qed.

(** *** The state file *)

(** C7, as stated, fails: a process that stops between the two steps of
    [writeFileSync] leaves an empty state file, which is neither the previous
    document nor the new one. *)
Lemma save_is_not_atomic : ~ atomicSave.
Proof.
  intros Hatomic.
  destruct (Hatomic "batches"
              {[ STATE_FILE "batches" := JSON_stringify freshState ]}
              (JSON_stringify freshState) oneDone
              (lookup_singleton_eq _ _) (Some EmptyString)) as [Heq | Heq].
  - right. left. unfold observableDuringSave. simpl.
    apply lookup_insert_eq.
  - vm_compute in Heq. discriminate.
  - vm_compute in Heq. discriminate.
Qed.

(** C7, amended.  [saveState] overwrites the state file in place: the file
    is truncated and the serialisation of the whole state is written to it,
    so that a reader sees in turn the previous content, an empty file and the
    new document; after the save the file holds the whole new document
    whatever it held before, and no other file is touched.  So, after the
    saves of a run, the file that held the document of the starting state
    holds the document of the state last saved. *)
Theorem saveState_rewrites_whole_state (outputDir : string) (f : files)
    (s : importState) :
  saveState outputDir s =
    [FsTruncate (STATE_FILE outputDir);
     FsWrite (STATE_FILE outputDir) (JSON_stringify s)] /\
  observableDuringSave outputDir f s =
    [f !! STATE_FILE outputDir; Some EmptyString; Some (JSON_stringify s)] /\
  fsRun f (saveState outputDir s) !! STATE_FILE outputDir
    = Some (JSON_stringify s) /\
  (forall p, p <> STATE_FILE outputDir ->
     fsRun f (saveState outputDir s) !! p = f !! p) /\
  (forall tr, f !! STATE_FILE outputDir = Some (JSON_stringify s) ->
     replaySaves outputDir f tr !! STATE_FILE outputDir
       = Some (JSON_stringify (persisted s tr))).
Proof.
  assert (Hsave : forall g s', fsRun g (saveState outputDir s') !! STATE_FILE outputDir
                               = Some (JSON_stringify s')).
  { intros g s'. unfold saveState, writeFileSync, fsRun. simpl.
    rewrite lookup_insert_eq. f_equal. rewrite lookup_insert_eq. reflexivity. }
  assert (Hreplay : forall tr g s', g !! STATE_FILE outputDir = Some (JSON_stringify s') ->
            replaySaves outputDir g tr !! STATE_FILE outputDir
              = Some (JSON_stringify (persisted s' tr))).
  { unfold replaySaves. induction tr as [|e tr IH]; intros g s' Hg; simpl; [exact Hg |].
    destruct e; try (apply IH; exact Hg). apply IH, Hsave. }
  split; [reflexivity |]. split; [| split; [apply Hsave | split]].
  - unfold observableDuringSave. simpl. f_equal. f_equal.
    + apply lookup_insert_eq.
    + f_equal. apply Hsave.
  - intros p Hp. unfold saveState, writeFileSync, fsRun. simpl.
    rewrite !lookup_insert_ne by (intros Heq; apply Hp; symmetry; exact Heq).
    reflexivity.
  - intros tr Hf. apply Hreplay, Hf.
Qed.

End ImporterFacts.

(** ** One batch against the SDK *)

Module SdkFacts.
Import Importer Sdk.

(** C9 on the sample batch, with the rate limiter enabled: opening the
    session sends two requests outside any admission, and the admissions of
    the locale, the content type, the editor interface and the asset's
    publication each cover several requests. *)
Theorem admission_is_not_universal :
  snd sampleImport = inl tt /\
  unadmittedCalls (log (fst sampleImport)) = [GetSpace; GetEnvironment] /\
  callsOfAdmission 0 (log (fst sampleImport))
    = [GetLocales; CreateLocale "en-US"] /\
  callsOfAdmission 2 (log (fst sampleImport))
    = [CreateContentTypeWithId "post"; PublishContentType "post"] /\
  callsOfAdmission 3 (log (fst sampleImport))
    = [GetContentType "post"; GetEditorInterface "post";
       UpdateEditorInterface "post"] /\
  callsOfAdmission 7 (log (fst sampleImport))
    = [GetAsset "a1"; PublishAsset "a1"] /\
  admissions (fst sampleImport) = 10 /\ sent (fst sampleImport) = 17 /\
  ~ admittedOneByOne (log (fst sampleImport)).
Proof.
  repeat (split; [vm_compute; reflexivity |]).
  intros [Hnone _]. vm_compute in Hnone. discriminate.
Qed.

(** With skip-update options the create step may also send two requests in
    one admission: the lookup and, when it fails, the creation. *)
Example lookup_and_create_share_an_admission :
  let opts := {| maxRetries := 3; retryDelay := 5000; delayBetweenBatches := 0;
                 uploadAssets := false; skipContentPublishing := true;
                 skipContentUpdates := true; skipAssetUpdates := true |} in
  let missing (n : nat) (c : remoteCall) : unit + errorMessage :=
    match c with
    | GetAsset _ | GetEntry _ => inr "not found"
    | _ => inl tt
    end in
  let bd := {| bd_contentTypes := []; bd_locales := []; bd_tags := [];
               bd_editorInterfaces := []; bd_assets := [{| a_id := "a1" |}];
               bd_entries := [{| e_id := "e1"; e_contentType := "post" |}] |} in
  let w := fst (importBatch missing noLocales processed true opts bd false start) in
  callsOfAdmission 0 (log w) = [GetAsset "a1"; CreateAssetWithId "a1"] /\
  callsOfAdmission 1 (log w) = [GetEntry "e1"; CreateEntryWithId "post" "e1"].
Proof. vm_compute. split; reflexivity. Qed.

(** The scenario of the specification: the creation of the content type
    throws on every attempt, with [maxRetries = 3].  Batch 01 is imported
    four times and recorded as failed with the message of the error; batch 02
    is imported after it. *)
Example content_type_failure_exhausts_retries :
  exists d,
    importAllBatches sdkWorld
      (importBatchFrom rejectsContentTypes noLocales processed true sampleOptions
         readSample)
      (fun w => stamp (sent w)) "batches" sampleOptions sampleManifest 1 None start
    = Finished sdkWorld d /\
    attempts "01" (trace sdkWorld d) = 4 /\
    completedBatches (state sdkWorld d) = ["02"] /\
    map (fun f => (batch f, error f)) (failedBatches (state sdkWorld d))
      = [("01", "Validation error")] /\
    currentBatch (state sdkWorld d) = None.
Proof. eexists. split; [vm_compute; reflexivity |]. repeat split. Qed.

End SdkFacts.

(** ** The resume coordinator *)

Module ResumeFacts.
Import Importer Resume.

Lemma readDigits_uint (d : Decimal.uint) :
  forall acc, readDigits (NilEmpty.string_of_uint d) acc true = Some (uintValue d acc).
Proof. induction d; intros acc; simpl; auto. Qed.

Lemma uintValue_of_uint_acc (d : Decimal.uint) :
  forall acc, uintValue d (Z.of_nat acc) = Z.of_nat (Nat.of_uint_acc d acc).
Proof.
  induction d; intros acc; simpl; [reflexivity | ..];
    rewrite Nat.tail_mul_spec; rewrite <- IHd; f_equal; lia.
Qed.

Lemma parseInt_digit (c : ascii) (rest : string) (d0 : Z) :
  digitOf c = Some d0 -> parseInt (String c rest) = readDigits rest d0 true.
Proof.
  destruct c as [[] [] [] [] [] [] [] []]; intros Hd; vm_compute in Hd;
    try discriminate Hd; injection Hd as <-; reflexivity.
Qed.

Lemma parseInt_numeral (d : Decimal.uint) :
  d <> Decimal.Nil ->
  parseInt (NilEmpty.string_of_uint d) = Some (uintValue d 0).
Proof.
  destruct d; intros Hd; [contradiction | ..]; simpl NilEmpty.string_of_uint;
    erewrite parseInt_digit by reflexivity; rewrite readDigits_uint; reflexivity.
Qed.

Lemma padStart2_long (s : string) : 2 <= String.length s -> padStart2 s = s.
Proof.
  unfold padStart2. destruct s as [|c [|c' s]]; simpl; intros Hlen; try lia.
  reflexivity.
Qed.

(** [parseInt] reads back the number of a batch identifier. *)
Lemma parseInt_batchNumOf (i : nat) : parseInt (batchNumOf i) = Some (Z.of_nat i).
Proof.
  unfold batchNumOf, String_of_nat.
  rewrite <- (DecimalNat.Unsigned.of_to i) at 2. unfold Nat.of_uint.
  rewrite <- uintValue_of_uint_acc. generalize (Nat.to_uint i). intros d.
  destruct d as [|d|d|d|d|d|d|d|d|d|d]; [reflexivity | ..];
    destruct d; try reflexivity;
    (rewrite padStart2_long by (simpl; lia));
    apply parseInt_numeral; discriminate.
Qed.

Lemma truthy_batchNumOf (i : nat) : truthy (batchNumOf i) = true.
Proof.
  unfold batchNumOf, padStart2.
  destruct (String_of_nat i) as [|c [|c' s]]; reflexivity.
Qed.

Lemma sortNumbers_head (l : list Z) :
  forall a r,
  hd None (fold_left (fun sorted x => insertSorted x sorted) (map Some l)
                     (Some a :: r)) = Some (fold_left Z.min l a).
Proof.
  induction l as [|x l IH]; intros a r; simpl; [reflexivity |].
  destruct (Z.ltb_spec (x - a) 0).
  - rewrite IH. f_equal. f_equal. lia.
  - rewrite IH. f_equal. f_equal. lia.
Qed.

Lemma fold_min_lowest (l : list nat) :
  forall x, fold_left Z.min (map Z.of_nat l) (Z.of_nat x)
            = Z.of_nat (fold_left Nat.min l x) /\
            lowestOf (x :: l) (fold_left Nat.min l x).
Proof.
  induction l as [|y l IH]; intros x; simpl.
  - split; [reflexivity |]. split; [left; reflexivity |].
    intros k [<- | []]. lia.
  - rewrite <- Nat2Z.inj_min. destruct (IH (Nat.min x y)) as [Heq [Hin Hlow]].
    split; [exact Heq |]. split.
    + destruct Hin as [Hin | Hin]; [| right; right; exact Hin].
      rewrite <- Hin. destruct (Nat.min_dec x y) as [-> | ->]; simpl; auto.
    + intros k [<- | [<- | Hk]].
      * etransitivity; [apply Hlow; left; reflexivity | apply Nat.le_min_l].
      * etransitivity; [apply Hlow; left; reflexivity | apply Nat.le_min_r].
      * apply Hlow. right. exact Hk.
Qed.

Lemma mathMax0_numbers (l : list nat) :
  forall x,
  fold_left (fun acc y => match acc, y with
                          | Some a, Some b => Some (Z.max a b)
                          | _, _ => None
                          end) (map (fun k => Some (Z.of_nat k)) l)
            (Some (Z.of_nat x))
  = Some (Z.of_nat (fold_left Nat.max l x)) /\
  (fold_left Nat.max l x = x \/ In (fold_left Nat.max l x) l) /\
  x <= fold_left Nat.max l x /\
  forall k, In k l -> k <= fold_left Nat.max l x.
Proof.
  induction l as [|y l IH]; intros x; simpl.
  - split; [reflexivity |]. split; [auto |]. split; [lia |]. intros k [].
  - rewrite <- Nat2Z.inj_max. destruct (IH (Nat.max x y)) as (Heq & Hin & Hge & Hup).
    split; [exact Heq |]. split; [| split].
    + destruct Hin as [Hin | Hin]; [| auto].
      rewrite Hin. destruct (Nat.max_dec x y) as [-> | ->]; auto.
    + lia.
    + intros k [<- | Hk]; [lia | apply Hup, Hk].
Qed.

(** C5 (resume decision order).  For a state written by the driver (batch
    identifiers of the form [batchNumOf]) and any manifest: with a batch in
    flight the restart point is that batch's number; otherwise, with failure
    records, the lowest failed batch number; otherwise, with [hi] the highest
    completed batch number ([0] when none), the migration is reported
    complete when [hi] is at least [totalBatches], and else the restart point
    is [hi + 1].  The state of the specification's example restarts at 3. *)
Theorem resume_decision_order (started : string) (completed : list nat)
    (failed : list (nat * (string * string))) (current : option nat)
    (m : Split.manifest) :
  let decision :=
    resumeImport (Some (stateOf started completed failed current)) (Some m) in
  match current with
  | Some c => decision = StartFrom Current (Some (Z.of_nat c))
  | None =>
      match failed with
      | _ :: _ =>
          exists n, lowestOf (map fst failed) n /\
                    decision = StartFrom RetryFailed (Some (Z.of_nat n))
      | [] =>
          exists hi, highestOf completed hi /\
            decision = if Nat.leb (Split.totalBatches m) hi then AllCompleted
                       else StartFrom Next (Some (Z.of_nat (hi + 1)))
      end
  end /\
  resumeImport
    (Some {| startedAt := started; completedBatches := ["01"; "02"];
             failedBatches := []; currentBatch := Some "03" |})
    (Some m) = StartFrom Current (Some 3%Z).
Proof.
  intros decision. split; [| reflexivity].
  unfold decision, resumeImport, stateOf. simpl.
  destruct current as [c|]; simpl.
  - rewrite truthy_batchNumOf, parseInt_batchNumOf. reflexivity.
  - unfold resumeIdle. simpl. destruct failed as [|[x info] failed]; simpl.
    + rewrite map_map.
      rewrite (map_ext _ (fun k => Some (Z.of_nat k)) parseInt_batchNumOf).
      unfold mathMax0.
      destruct (mathMax0_numbers completed 0) as (Heq & Hin & _ & Hup).
      change (Z.of_nat 0) with 0%Z in Heq. rewrite Heq.
      exists (fold_left Nat.max completed 0). split; [split; assumption |].
      destruct (Nat.leb_spec (Split.totalBatches m) (fold_left Nat.max completed 0));
        destruct (Z.leb_spec (Z.of_nat (Split.totalBatches m))
                    (Z.of_nat (fold_left Nat.max completed 0))); try lia.
      * reflexivity.
      * do 2 f_equal. lia.
    + unfold sortNumbers. simpl. rewrite parseInt_batchNumOf.
      rewrite map_map. simpl.
      rewrite (map_ext (fun f => parseInt (batchNumOf (fst f)))
                 (fun f => Some (Z.of_nat (fst f))))
        by (intros f; apply parseInt_batchNumOf).
      rewrite <- (map_map fst (fun k => Some (Z.of_nat k))).
      rewrite <- (map_map Z.of_nat Some).
      rewrite sortNumbers_head.
      destruct (fold_min_lowest (map fst failed) x) as [Heq Hlow].
      rewrite Heq. eexists. split; [exact Hlow | reflexivity].
Qed.

End ResumeFacts.

(** ** The draft cleanup *)

Module CleanupFacts.
Import Cleanup.

Section LinkFacts.
Variable removedEntries removedAssets : gset string.

#[local] Abbreviation removed := (linksToRemoved removedEntries removedAssets).

Lemma cleanLocale_spec (lv : string * value) (locale : string) (v : value) :
  cleanLocale removedEntries removedAssets lv = Some (locale, v) ->
  removed v = false /\
  forall items, v = JArr items -> forall item, In item items -> removed item = false.
Proof.
  destruct lv as [locale0 v0]. unfold cleanLocale.
  destruct (removed v0) eqn:Hv0; [discriminate |].
  destruct v0; intros [= <- <-]; (split; [try exact Hv0; reflexivity |]);
    intros items' [= <-] item Hin.
  apply filter_In in Hin as [_ Hkeep]. apply negb_true_iff in Hkeep. exact Hkeep.
Qed.

Lemma cleanEntry_fields (e : entry) (k : string) (f : localized)
    (locale : string) (v : value) :
  In (k, f) (e_fields (cleanEntry removedEntries removedAssets e)) ->
  In (locale, v) f ->
  removed v = false /\
  forall items, v = JArr items -> forall item, In item items -> removed item = false.
Proof.
  simpl. intros Hf Hv. apply in_map_iff in Hf as ([k0 f0] & [= <- <-] & _).
  apply list_elem_of_In, list_elem_of_omap in Hv as (lv & _ & Hclean).
  eapply cleanLocale_spec. exact Hclean.
Qed.
End LinkFacts.

(** C10 (shallow link cleanup).  In the cleaned export no remaining entry
    has the id of a removed entry, and in every remaining entry no locale
    value, and no direct element of an array stored as a locale value, is a
    link to a removed entry or asset.  Deeper links are kept: in the sample
    export the asset [gone] is removed and the remaining entry still links to
    it from inside its rich-text field, a link that the partitioner's
    [getAssetReferencesFromEntry] does collect, as it collects every link to
    an asset that the fields of an entry hold at any depth. *)
Theorem shallow_link_cleanup :
  (forall E e,
     In e (entries (cleanedData E)) ->
     (e_id e ∉ entriesToRemove E) /\
     forall k f locale v,
       In (k, f) (e_fields e) -> In (locale, v) f ->
       linksToRemoved (entriesToRemove E) (assetsToRemove E) v = false /\
       forall items, v = JArr items -> forall item, In item items ->
         linksToRemoved (entriesToRemove E) (assetsToRemove E) item = false) /\
  (exists e,
     entries (cleanedData sampleExport) = [e] /\
     ("gone" ∈ assetsToRemove sampleExport) /\
     map a_id (assets (cleanedData sampleExport)) = ["kept"] /\
     e_fields e =
       [("hero", []);
        ("gallery", [("en-US", JArr [linkTo "Asset" "kept"])]);
        ("body", [("en-US",
           JObj [("nodeType", JStr "document");
                 ("content", JArr [JObj [("nodeType", JStr "embedded-asset-block");
                                         ("data", JObj [("target",
                                            linkTo "Asset" "gone")])]])])])] /\
     Split.getAssetReferencesFromEntry (toSplitEntry e) = ["kept"; "gone"]) /\
  (forall e v id,
     inside (fieldsAsValue e) v -> Split.assetLinkId v = Some id ->
     In id (Split.getAssetReferencesFromEntry (toSplitEntry e))).
Proof.
  split; [| split].
  - intros E e He. unfold cleanedData in He. simpl in He.
    apply in_map_iff in He as (e0 & <- & He0).
    apply filter_In in He0 as [_ Hkeep].
    apply negb_true_iff, bool_decide_eq_false in Hkeep.
    split; [exact Hkeep |].
    intros k f locale v. apply cleanEntry_fields.
  - eexists. split; [vm_compute; reflexivity |].
    split; [vm_compute; reflexivity |].
    repeat split; vm_compute; reflexivity.
  - intros e v id Hins Hlink.
    apply SplitFacts.getAssetReferencesFromEntry_spec. exists v. auto.
Qed.

End CleanupFacts.

(** ** The partitioner: asset chunks and the manifest *)

Module SplitCoverage.
Import Split SplitFacts.

Lemma fold_left_keeps {A B : Type} (P : B -> Prop) (f : B -> A -> B) (l : list A) :
  Forall (fun x => forall acc, P acc -> P (f acc x)) l ->
  forall acc, P acc -> P (fold_left f l acc).
Proof.
  induction 1 as [|x l Hx _ IH]; intros acc Hacc; simpl; [exact Hacc |].
  apply IH, Hx, Hacc.
Qed.

Lemma set_add_NoDup (x : string) (acc : list string) :
  NoDup acc -> NoDup (set_add x acc).
Proof.
  unfold set_add. destruct (existsb (String.eqb x) acc) eqn:Hex; [auto |].
  intros Hnd. apply NoDup_app. split; [exact Hnd |]. split; [| apply NoDup_singleton].
  intros y Hy Hin. apply list_elem_of_singleton in Hin. subst y.
  assert (Hex' : existsb (String.eqb x) acc = true).
  { apply existsb_exists. exists x. split; [apply list_elem_of_In, Hy |].
    apply String.eqb_refl. }
  congruence.
Qed.

Lemma traverseFields_NoDup (v : value) :
  forall acc, NoDup acc -> NoDup (traverseFields v acc).
Proof.
  induction v as [| | | |items IH|members IH] using value_rect';
    intros acc Hnd; simpl; try exact Hnd.
  - apply (fold_left_keeps (fun acc => NoDup acc)); [exact IH | exact Hnd].
  - apply (fold_left_keeps (fun acc => NoDup acc)
             (fun acc kv => traverseFields (snd kv) acc)); [exact IH |].
    destruct (assetLinkId (JObj members)); [apply set_add_NoDup |]; exact Hnd.
Qed.

(** X1.  The asset references of an entry hold no id twice, and they are the
    ids of the links of type Asset found in the entry's fields at any depth. *)
Theorem asset_references_exact (e : entry) :
  NoDup (getAssetReferencesFromEntry e) /\
  forall id, In id (getAssetReferencesFromEntry e) <->
    exists v', inside (entry_fields e) v' /\ assetLinkId v' = Some id.
Proof.
  split.
  - apply traverseFields_NoDup, NoDup_nil_2.
  - intros id. apply getAssetReferencesFromEntry_spec.
Qed.

(** The chunks, put end to end, are the assets from index [i] on. *)
Lemma sliceLoop_concat (batchSize : nat) (l : list asset) :
  forall fuel i chunks,
  sliceLoop fuel batchSize i l = Some chunks -> concat chunks = skipn i l.
Proof.
  induction fuel as [|fuel IH]; intros i chunks; simpl;
    destruct (Nat.ltb_spec i (length l)) as [Hlt | Hge]; try discriminate.
  - intros [= <-]. symmetry. apply drop_ge. exact Hge.
  - destruct (sliceLoop fuel batchSize (i + batchSize) l) as [rest|] eqn:Hrest;
      [| discriminate].
    intros [= <-]. simpl. rewrite (IH _ _ Hrest). unfold slice.
    replace (i + batchSize - i) with batchSize by lia.
    rewrite <- (drop_drop l batchSize i). apply take_drop.
  - intros [= <-]. symmetry. apply drop_ge. exact Hge.
Qed.

Lemma sliceLoop_shape (batchSize : nat) (l : list asset) :
  0 < batchSize ->
  forall fuel i chunks,
  sliceLoop fuel batchSize i l = Some chunks ->
  (length l - i <= length chunks * batchSize /\
   length chunks * batchSize < length l - i + batchSize) /\
  forall k c, chunks !! k = Some c ->
    c = slice (i + k * batchSize) (i + k * batchSize + batchSize) l /\
    i + k * batchSize < length l.
Proof.
  intros Hpos. induction fuel as [|fuel IH]; intros i chunks; simpl;
    destruct (Nat.ltb_spec i (length l)) as [Hlt | Hge]; try discriminate.
  - intros [= <-]. simpl. split; [lia |]. intros k c Hk.
    rewrite lookup_nil in Hk. discriminate.
  - destruct (sliceLoop fuel batchSize (i + batchSize) l) as [rest|] eqn:Hrest;
      [| discriminate].
    intros [= <-]. destruct (IH _ _ Hrest) as [[Hlo Hhi] Hk]. split.
    + simpl. split; [lia |].
      destruct (Nat.le_gt_cases batchSize (length l - i)) as [Hfull | Hpart]; [lia |].
      assert (Hnone : length rest = 0) by nia. rewrite Hnone. lia.
    + intros [|k] c Hc; simpl in Hc.
      * injection Hc as <-. simpl. rewrite Nat.add_0_r. auto.
      * destruct (Hk k c Hc) as [-> Hlt']. simpl. split; [f_equal |]; lia.
  - intros [= <-]. simpl. split; [lia |]. intros k c Hk.
    rewrite lookup_nil in Hk. discriminate.
Qed.

(** X2.  For a positive batch size the slicing loop returns; its chunks, put
    end to end, are the assets in their order; there are
    [ceil (length / batchSize)] of them; chunk [k] is the [batchSize] assets
    from index [k * batchSize] on, so it holds between one and [batchSize]
    assets, and exactly [batchSize] when it is not the last. *)
Theorem asset_chunks (batchSize : nat) (l : list asset) :
  0 < batchSize ->
  exists chunks,
    makeAssetBatches batchSize l = Some chunks /\
    concat chunks = l /\
    length chunks = (length l + batchSize - 1) / batchSize /\
    forall k c, chunks !! k = Some c ->
      c = firstn batchSize (skipn (k * batchSize) l) /\
      1 <= length c <= batchSize /\
      (S k < length chunks -> length c = batchSize).
Proof.
  intros Hpos.
  destruct (makeAssetBatches_total batchSize l Hpos) as [chunks Hc].
  exists chunks. split; [exact Hc |]. unfold makeAssetBatches in Hc.
  pose proof (sliceLoop_concat _ _ _ _ _ Hc) as Hcat.
  destruct (sliceLoop_shape _ _ Hpos _ _ _ Hc) as [[Hlo Hhi] Hk].
  rewrite Nat.sub_0_r in Hlo, Hhi.
  split; [exact Hcat |]. split.
  - apply (Nat.div_unique _ _ _ (length l + batchSize - 1 - batchSize * length chunks));
      nia.
  - intros k c Hkc. destruct (Hk k c Hkc) as [-> Hlt]. simpl in Hlt. unfold slice.
    simpl. replace (k * batchSize + batchSize - k * batchSize) with batchSize by lia.
    split; [reflexivity |]. rewrite length_take, length_drop.
    split; [lia |]. intros Hnext. nia.
Qed.

Lemma asset_chunks_witness :
  0 < 2 /\
  exists chunks,
    makeAssetBatches 2 (assets sampleExport) = Some chunks /\
    map (map asset_id) chunks = [["a1"; "a2"]; ["a3"]].
Proof.
  split; [lia |].
  destruct (asset_chunks 2 (assets sampleExport)) as (chunks & Hc & _); [lia |].
  exists chunks. split; [exact Hc |].
  vm_compute in Hc. injection Hc as <-. reflexivity.
Defined.

Lemma sliceLoop_stuck (l : list asset) :
  forall fuel i, i < length l -> sliceLoop fuel 0 i l = None.
Proof.
  induction fuel as [|fuel IH]; intros i Hlt; simpl;
    destruct (Nat.ltb_spec i (length l)); try lia; [reflexivity |].
  rewrite Nat.add_0_r, IH by exact Hlt. reflexivity.
Qed.

(** X3.  With [batchSize = 0] and at least one asset the slicing loop never
    ends: no number of iterations is enough, and [splitExport] writes
    nothing. *)
Theorem zero_batch_size_never_returns (E : export) :
  assets E <> [] ->
  (forall fuel, sliceLoop fuel 0 0 (assets E) = None) /\
  splitExport 0 E = None.
Proof.
  intros Hne.
  assert (Hlen : 0 < length (assets E)) by (destruct (assets E); [contradiction | simpl; lia]).
  split.
  - intros fuel. apply sliceLoop_stuck, Hlen.
  - unfold splitExport, makeAssetBatches. rewrite sliceLoop_stuck by exact Hlen.
    reflexivity.
Qed.

Lemma zero_batch_size_never_returns_witness :
  assets sampleExport <> [] /\ splitExport 0 sampleExport = None.
Proof.
  assert (Hne : assets sampleExport <> []) by discriminate.
  split; [exact Hne |]. apply (zero_batch_size_never_returns sampleExport Hne).
Defined.

(** What [splitExport] returns, when it returns. *)
Lemma splitExport_inv (batchSize : nat) (E : export) (out : list export)
    (man : manifest) :
  splitExport batchSize E = Some (out, man) ->
  exists chunks written P,
    makeAssetBatches batchSize (assets E) = Some chunks /\
    batchLoop E (buildEntryToAssets (entries E)) 0 chunks ∅ = (written, P) /\
    out = written ++
      (if Nat.ltb 0 (length (List.filter
            (fun e => negb (bool_decide (entry_id e ∈ P))) (entries E)))
       then [orphanBatch (List.filter
               (fun e => negb (bool_decide (entry_id e ∈ P))) (entries E))]
       else []) /\
    man = {| totalBatches := length out;
             totalAssets := length (assets E);
             totalEntries := length (entries E);
             m_batchSize := batchSize;
             batches := imap (fun k b => manifestEntry (S k) b) out |}.
Proof.
  unfold splitExport.
  destruct (makeAssetBatches batchSize (assets E)) as [chunks|]; [| discriminate].
  destruct (batchLoop E (buildEntryToAssets (entries E)) 0 chunks ∅)
    as [written P] eqn:Hloop.
  cbv zeta. intros Hrun. exists chunks, written, P.
  split; [reflexivity |]. split; [exact Hloop |].
  destruct (Nat.ltb 0 (length (List.filter _ (entries E))));
    injection Hrun as <- <-; rewrite ?app_nil_r; auto.
Qed.

Lemma batchLoop_assets (E : export) (e2a : gmap string (list string))
    (chunks : list (list asset)) :
  forall k P written P',
  batchLoop E e2a k chunks P = (written, P') -> map assets written = chunks.
Proof.
  induction chunks as [|chunk rest IH]; intros k P written P' Hrun; simpl in Hrun.
  - injection Hrun as <- <-. reflexivity.
  - destruct (batchLoop E e2a (S k) rest _) as [more final] eqn:Hrest.
    injection Hrun as <- <-. simpl. f_equal. eapply IH, Hrest.
Qed.

Lemma splitExport_assets (batchSize : nat) (E : export) (out : list export)
    (man : manifest) :
  splitExport batchSize E = Some (out, man) ->
  exists chunks,
    makeAssetBatches batchSize (assets E) = Some chunks /\
    concat (map assets out) = concat chunks /\
    forall i b, out !! i = Some b -> assets b = [] \/ chunks !! i = Some (assets b).
Proof.
  intros Hrun.
  destruct (splitExport_inv _ _ _ _ Hrun) as (chunks & written & P & Hc & Hloop & -> & _).
  exists chunks. split; [exact Hc |].
  pose proof (batchLoop_assets _ _ _ _ _ _ _ Hloop) as Hassets.
  split.
  - rewrite map_app, concat_app, Hassets.
    destruct (Nat.ltb 0 _); simpl; rewrite app_nil_r; reflexivity.
  - intros i b Hi. apply lookup_app_Some in Hi as [Hi | [_ Hi]].
    + right. rewrite <- Hassets, list_lookup_fmap, Hi. reflexivity.
    + left. destruct (Nat.ltb 0 _); [| rewrite lookup_nil in Hi; discriminate].
      destruct (i - length written); simpl in Hi;
        [injection Hi as <-; reflexivity | rewrite lookup_nil in Hi; discriminate].
Qed.

Lemma splitExport_concat_assets (batchSize : nat) (E : export) (out : list export)
    (man : manifest) :
  splitExport batchSize E = Some (out, man) -> concat (map assets out) = assets E.
Proof.
  intros Hrun.
  destruct (splitExport_assets _ _ _ _ Hrun) as (chunks & Hc & Hcat & _).
  rewrite Hcat. apply (sliceLoop_concat _ _ _ _ _ Hc).
Qed.

(** X4 (asset coverage).  The assets of the output batches, put end to end in
    batch order, are the assets of the export: every asset is in exactly one
    batch, as often as in the export and in the same order; and no batch
    holds more than [batchSize] assets. *)
Theorem asset_coverage (batchSize : nat) (E : export) (out : list export)
    (man : manifest) :
  splitExport batchSize E = Some (out, man) ->
  concat (map assets out) = assets E /\
  forall i b, out !! i = Some b -> length (assets b) <= batchSize.
Proof.
  intros Hrun.
  destruct (splitExport_assets _ _ _ _ Hrun) as (chunks & Hc & Hcat & Hat).
  unfold makeAssetBatches in Hc. split.
  - eapply splitExport_concat_assets, Hrun.
  - intros i b Hi. destruct (Hat i b Hi) as [-> | Hchunk]; [simpl; lia |].
    destruct batchSize as [|n].
    + destruct (assets E) as [|a l] eqn:HE.
      * simpl in Hc. injection Hc as <-. rewrite lookup_nil in Hchunk. discriminate.
      * rewrite sliceLoop_stuck in Hc by (simpl; lia). discriminate.
    + destruct (sliceLoop_shape (S n) _ ltac:(lia) _ _ _ Hc) as [_ Hk].
      destruct (Hk i _ Hchunk) as [Heq _]. rewrite Heq. unfold slice.
      rewrite length_take. lia.
Qed.

Lemma asset_coverage_witness :
  exists out man,
    splitExport 2 sampleExport = Some (out, man) /\
    map (fun b => map asset_id (assets b)) out = [["a1"; "a2"]; ["a3"]; []] /\
    concat (map assets out) = assets sampleExport.
Proof.
  assert (Hrun : exists out man, splitExport 2 sampleExport = Some (out, man) /\
            map (fun b => map asset_id (assets b)) out = [["a1"; "a2"]; ["a3"]; []]).
  { eexists _, _. split; [vm_compute; reflexivity | reflexivity]. }
  destruct Hrun as (out & man & Hrun & Hids). exists out, man.
  split; [exact Hrun |]. split; [exact Hids |].
  apply (asset_coverage 2 sampleExport out man Hrun).
Defined.

Lemma splitExport_entries (batchSize : nat) (E : export) (out : list export)
    (man : manifest) :
  splitExport batchSize E = Some (out, man) ->
  Permutation (concat (map entries out)) (entries E).
Proof.
  intros Hrun.
  destruct (splitExport_inv _ _ _ _ Hrun) as (chunks & written & P & _ & Hloop & -> & _).
  pose proof (batchLoop_permutation E _ chunks _ _ _ _ Hloop) as Hperm.
  rewrite (List.filter_ext (fun e => negb (bool_decide (entry_id e ∈ (∅ : gset string))))
             (fun _ => true)) in Hperm
    by (intros e; apply negb_true_iff, bool_decide_eq_false; set_solver).
  rewrite filter_true in Hperm. etransitivity; [| exact Hperm].
  rewrite map_app, concat_app.
  destruct (List.filter _ (entries E)); simpl; rewrite ?app_nil_r; reflexivity.
Qed.

Lemma splitExport_model (batchSize : nat) (E : export) (out : list export)
    (man : manifest) :
  splitExport batchSize E = Some (out, man) ->
  forall k b, out !! k = Some b ->
    contentTypes b <> [] -> k = 0 /\ contentTypes b = contentTypes E.
Proof.
  intros Hrun k b Hk Hne.
  destruct (splitExport_inv _ _ _ _ Hrun) as (chunks & written & P & _ & Hloop & -> & _).
  apply lookup_app_Some in Hk as [Hk | [_ Hk]].
  - destruct (batchLoop_model E _ chunks _ _ _ _ Hloop k b Hk) as [Hempty Hsame].
    destruct k as [|k].
    + split; [reflexivity |]. apply Hsame. reflexivity.
    + destruct Hempty as [Hct _]; [simpl; lia | contradiction].
  - destruct (Nat.ltb 0 _); [| rewrite lookup_nil in Hk; discriminate].
    destruct (k - length written); simpl in Hk;
      [injection Hk as <- | rewrite lookup_nil in Hk; discriminate].
    destruct Hne. reflexivity.
Qed.

Lemma map_imap_const {A B C : Type} (f : nat -> A -> B) (g : B -> C) (h : A -> C)
    (l : list A) :
  (forall k a, g (f k a) = h a) -> map g (imap f l) = map h l.
Proof.
  intros Hgh. revert f Hgh. induction l as [|a l IH]; intros f Hgh; simpl; [reflexivity |].
  rewrite Hgh. f_equal. apply IH. intros k a'. apply Hgh.
Qed.

(** X5.  The manifest describes the batches that were written: it lists one
    record per batch, in order, numbered from 1 and named
    [batch-NN]; each record holds the number of assets and of entries of its
    batch and whether the batch has content types; the per-batch counts add
    up to [totalAssets] and [totalEntries], which are the counts of the
    export; and only the first batch can be marked as holding the content
    model, whose content types are then those of the export. *)
Theorem manifest_describes_batches (batchSize : nat) (E : export)
    (out : list export) (man : manifest) :
  splitExport batchSize E = Some (out, man) ->
  totalBatches man = length out /\
  length (batches man) = length out /\
  m_batchSize man = batchSize /\
  totalAssets man = length (assets E) /\
  list_sum (map mb_assets (batches man)) = totalAssets man /\
  totalEntries man = length (entries E) /\
  list_sum (map mb_entries (batches man)) = totalEntries man /\
  forall k b, out !! k = Some b ->
    batches man !! k =
      Some {| batchNumber := S k;
              batchId := String.append "batch-" (batchNumOf (S k));
              mb_assets := length (assets b);
              mb_entries := length (entries b);
              hasContentModel := negb (Nat.eqb (length (contentTypes b)) 0) |} /\
    (negb (Nat.eqb (length (contentTypes b)) 0) = true ->
     k = 0 /\ contentTypes b = contentTypes E).
Proof.
  intros Hrun.
  pose proof (splitExport_concat_assets _ _ _ _ Hrun) as Hassets.
  pose proof (splitExport_entries _ _ _ _ Hrun) as Hentries.
  pose proof (splitExport_model _ _ _ _ Hrun) as Hmodel.
  destruct (splitExport_inv _ _ _ _ Hrun) as (_ & _ & _ & _ & _ & _ & ->). simpl.
  split; [reflexivity |]. split; [apply length_imap |]. split; [reflexivity |].
  split; [reflexivity |]. split; [| split; [reflexivity | split]].
  - rewrite (map_imap_const _ mb_assets (fun b => length (assets b)))
      by reflexivity.
    rewrite <- Hassets, length_concat, map_map. reflexivity.
  - rewrite (map_imap_const _ mb_entries (fun b => length (entries b)))
      by reflexivity.
    rewrite <- (Permutation_length Hentries), length_concat, map_map. reflexivity.
  - intros k b Hk. split.
    + rewrite list_lookup_imap, Hk. reflexivity.
    + intros Hcm. apply (Hmodel k b Hk). intros Hnil. rewrite Hnil in Hcm. discriminate.
Qed.

Lemma manifest_describes_batches_witness :
  exists out man,
    splitExport 2 sampleExport = Some (out, man) /\
    totalBatches man = 3 /\
    map (fun mb => (batchId mb, mb_assets mb, mb_entries mb, hasContentModel mb))
        (batches man)
      = [("batch-01", 2, 1, true); ("batch-02", 1, 1, false);
         ("batch-03", 0, 1, false)] /\
    list_sum (map mb_assets (batches man)) = totalAssets man.
Proof.
  assert (Hrun : exists out man, splitExport 2 sampleExport = Some (out, man) /\
            totalBatches man = 3 /\
            map (fun mb => (batchId mb, mb_assets mb, mb_entries mb, hasContentModel mb))
                (batches man)
              = [("batch-01", 2, 1, true); ("batch-02", 1, 1, false);
                 ("batch-03", 0, 1, false)]).
  { eexists _, _. split; [vm_compute; reflexivity | split; reflexivity]. }
  destruct Hrun as (out & man & Hrun & Htotal & Hbatches). exists out, man.
  split; [exact Hrun |]. split; [exact Htotal |]. split; [exact Hbatches |].
  apply (manifest_describes_batches 2 sampleExport out man Hrun).
Defined.

End SplitCoverage.
(** ** The rate limiter in use *)

Module UsageFacts.
Import Limiter LimiterFacts Usage.
Local Open Scope Q_scope.

Lemma inject_succ (k : nat) :
  inject_Z (Z.of_nat (S k)) == inject_Z (Z.of_nat k) + 1.
Proof. rewrite Nat2Z.inj_succ. unfold Z.succ. rewrite inject_Z_plus. reflexivity. Qed.

Lemma waitForToken_static (now late : Z) (name : string) (b b' : bucket)
    (s s' : stats) (now' : Z) (ev : list event) :
  waitForToken now late name b s = (b', s', now', ev) ->
  capacity b' = capacity b /\ refillRate b' = refillRate b /\
  lastRefill b' = now' /\
  totalRequests s' = totalRequests s /\ startTime s' = startTime s.
Proof.
  unfold waitForToken. destruct (Qlt_le_dec _ 1); intros [= <- <- <- <-]; simpl; auto.
Qed.

Lemma sleepsOf_app (ev1 ev2 : list event) :
  sleepsOf (ev1 ++ ev2) = sleepsOf ev1 ++ sleepsOf ev2.
Proof. unfold sleepsOf. apply flat_map_app. Qed.

Lemma sumZ_app (l1 l2 : list Z) : sumZ (l1 ++ l2) = (sumZ l1 + sumZ l2)%Z.
Proof. induction l1 as [|x l1 IH]; simpl; [reflexivity |]. rewrite IH. lia. Qed.

Lemma waitForToken_stats (now late : Z) (name : string) (b b' : bucket)
    (s s' : stats) (now' : Z) (ev : list event) :
  waitForToken now late name b s = (b', s', now', ev) ->
  totalRequests s' = totalRequests s /\ startTime s' = startTime s /\
  throttledRequests s' = (throttledRequests s + length (sleepsOf ev))%nat /\
  totalWaitTime s' = (totalWaitTime s + sumZ (sleepsOf ev))%Z.
Proof.
  unfold waitForToken. destruct (Qlt_le_dec _ 1); intros [= _ <- <- <-]; simpl.
  - repeat split; lia.
  - repeat split; lia.
Qed.

(** X8.  The statistics follow what [throttle] does: each call counts one
    request, whether the operation resolves or not; [throttledRequests] grows
    by the number of waits for a token and [totalWaitTime] by their total
    length; the 60 s pause after a 429 is counted in neither; [startTime]
    never changes. *)
Theorem statistics_follow_events {A : Type} (now : Z) (late : lateness)
    (fn : Z -> Z * outcome A) (l l' : limiter) (now' : Z) (r : outcome A)
    (ev : list event) :
  throttle now late fn l = (l', now', r, ev) ->
  exists waits,
    sleepsOf ev = waits ++ cooldownOf r /\
    (length waits <= 2)%nat /\
    totalRequests (lstats l') = S (totalRequests (lstats l)) /\
    throttledRequests (lstats l') = (throttledRequests (lstats l) + length waits)%nat /\
    totalWaitTime (lstats l') = (totalWaitTime (lstats l) + sumZ waits)%Z /\
    startTime (lstats l') = startTime (lstats l).
Proof.
  unfold throttle, acquireTokens.
  destruct (waitForToken now (lateSecond late) "per-second" (secondBucket l) (lstats l))
    as [[[sb s1] t1] ev1] eqn:Hws.
  destruct (waitForToken t1 (lateHour late) "per-hour" (hourBucket l) s1)
    as [[[hb s2] t2] ev2] eqn:Hwh.
  destruct (waitForToken_stats _ _ _ _ _ _ _ _ _ Hws) as (Hn1 & Hst1 & Hth1 & Hw1).
  destruct (waitForToken_stats _ _ _ _ _ _ _ _ _ Hwh) as (Hn2 & Hst2 & Hth2 & Hw2).
  assert (Hlen1 : (length (sleepsOf ev1) <= 1)%nat).
  { unfold waitForToken in Hws. destruct (Qlt_le_dec _ 1);
      injection Hws as _ _ _ <-; simpl; lia. }
  assert (Hlen2 : (length (sleepsOf ev2) <= 1)%nat).
  { unfold waitForToken in Hwh. destruct (Qlt_le_dec _ 1);
      injection Hwh as _ _ _ <-; simpl; lia. }
  intros Hrun. exists (sleepsOf ev1 ++ sleepsOf ev2).
  assert (Hgoal : sleepsOf ev = (sleepsOf ev1 ++ sleepsOf ev2) ++ cooldownOf r /\
                  lstats l' = bumpRequests s2).
  { destruct (fn t2) as [d [a | e]].
    - injection Hrun as <- _ <- <-. rewrite !sleepsOf_app. simpl.
      rewrite app_nil_r. auto.
    - destruct (is429 e) eqn:H429; injection Hrun as <- _ <- <-;
        rewrite !sleepsOf_app; simpl; rewrite H429; simpl; rewrite ?app_nil_r; auto. }
  destruct Hgoal as [Hev ->]. simpl.
  split; [exact Hev |]. rewrite length_app, sumZ_app.
  split; [lia |]. split; [lia |]. split; [lia |]. split; [lia | congruence].
Qed.

Lemma statistics_follow_events_witness :
  exists l' now' ev,
    throttle 0 onTime rejected429 (new defaults 0)
      = (l', now', Rejected tooManyRequests, ev) /\
    sleepsOf ev = [60000%Z] /\
    totalRequests (lstats l') = 1%nat /\ totalWaitTime (lstats l') = 0%Z /\
    throttledRequests (lstats l') = 0%nat.
Proof.
  destruct (throttle 0 onTime rejected429 (new defaults 0)) as [[[l' now'] r] ev] eqn:Hthr.
  assert (Hr : r = Rejected tooManyRequests /\ sleepsOf ev = [60000%Z]).
  { vm_compute in Hthr. injection Hthr as _ _ <- <-. split; reflexivity. }
  destruct Hr as [-> Hsleeps]. exists l', now', ev.
  split; [reflexivity |]. split; [exact Hsleeps |].
  destruct (statistics_follow_events 0 onTime rejected429 _ l' now' _ ev Hthr)
    as (waits & Hev & _ & Hn & Hth & Hw & _).
  rewrite Hsleeps in Hev. simpl in Hev.
  destruct waits as [|x [|y waits]]; simpl in Hev; try discriminate Hev.
  simpl in Hn, Hth, Hw. repeat split; assumption.
Defined.

(** A limiter that holds at least one token in a bucket admits at once. *)
Lemma waitForToken_ready (now late : Z) (name : string) (b : bucket) (s : stats)
    (n : nat) :
  bucketOk now b -> inject_Z (Z.of_nat (S n)) <= tokens b ->
  exists b' ev,
    waitForToken now late name b s = (b', s, now, ev) /\ sleepsOf ev = [] /\
    bucketOk now b' /\ inject_Z (Z.of_nat n) <= tokens b'.
Proof.
  intros Hok Hn.
  assert (Hok1 : bucketOk now (refillBucket now b))
    by (apply (refillBucket_ok now); [exact Hok | lia]).
  destruct Hok as (H0 & Hle & H1 & Hpos & Hlast).
  pose proof (elapsed_nonneg (lastRefill b) now (refillRate b) Hlast Hpos) as Hnn.
  assert (Hkeep : tokens b <= tokens (refillBucket now b)).
  { simpl. apply Q.min_glb; lra. }
  rewrite inject_succ in Hn.
  assert (Hk : 0 <= inject_Z (Z.of_nat n))
    by (change 0 with (inject_Z 0); rewrite <- Zle_Qle; lia).
  unfold waitForToken.
  destruct (Qlt_le_dec (tokens (refillBucket now b)) 1) as [Hlt | Hge]; [lra |].
  eexists _, _. split; [reflexivity |]. split; [reflexivity |]. split.
  - destruct Hok1 as (H0' & Hle' & H1' & Hpos' & Hlast').
    unfold bucketOk, setTokens. cbn [tokens capacity refillRate lastRefill] in *.
    repeat split; try assumption; lra.
  - cbn [tokens setTokens]. lra.
Qed.


Lemma throttle_ready {A : Type} (now : Z) (late : lateness)
    (fn : Z -> Z * outcome A) (l : limiter) (n : nat) :
  limiterOk now l ->
  (forall t, (0 <= fst (fn t))%Z /\ rateLimited (snd (fn t)) = false) ->
  inject_Z (Z.of_nat (S n)) <= tokens (secondBucket l) ->
  inject_Z (Z.of_nat (S n)) <= tokens (hourBucket l) ->
  exists l' now' r ev,
    throttle now late fn l = (l', now', r, ev) /\ sleepsOf ev = [] /\
    limiterOk now' l' /\
    inject_Z (Z.of_nat n) <= tokens (secondBucket l') /\
    inject_Z (Z.of_nat n) <= tokens (hourBucket l') /\
    lstats l' = bumpRequests (lstats l).
Proof.
  intros [Hs Hh] Hfn Hns Hnh. unfold throttle, acquireTokens.
  destruct (waitForToken_ready now (lateSecond late) "per-second" _ (lstats l) n Hs Hns)
    as (sb & ev1 & -> & Hev1 & Hsb & Hn1).
  destruct (waitForToken_ready now (lateHour late) "per-hour" _ (lstats l) n Hh Hnh)
    as (hb & ev2 & -> & Hev2 & Hhb & Hn2).
  destruct (Hfn now) as [Hd Hnot].
  assert (Hlater : forall d, (0 <= d)%Z ->
            limiterOk (now + d)
              {| secondBucket := sb; hourBucket := hb;
                 lstats := bumpRequests (lstats l); verbose := verbose l |}).
  { intros d Hd'. split; simpl; eapply bucketOk_later; try eassumption; lia. }
  destruct (fn now) as [d [a | e]]; simpl in Hd, Hnot.
  - eexists _, _, _, _. split; [reflexivity |].
    rewrite !sleepsOf_app, Hev1, Hev2. simpl. auto 10.
  - rewrite Hnot. eexists _, _, _, _. split; [reflexivity |].
    rewrite !sleepsOf_app, Hev1, Hev2. simpl. auto 10.
Qed.

(** X9 (burst).  A limiter that holds at least [n] tokens in each bucket
    admits the next [n] requests without any pause, however close together
    they come, as long as the target does not answer 429: no wait is recorded
    in the statistics and every request is counted.  A limiter fresh from the
    constructor holds [requestsPerSecond] and [requestsPerHour] tokens. *)
Theorem held_tokens_admit_at_once {A : Type} (rs : list (request A)) (now : Z)
    (l : limiter) :
  limiterOk now l -> Forall requestOk rs ->
  inject_Z (Z.of_nat (length rs)) <= tokens (secondBucket l) ->
  inject_Z (Z.of_nat (length rs)) <= tokens (hourBucket l) ->
  exists l' now' ev,
    throttleAll now rs l = (l', now', ev) /\
    sleepsOf ev = [] /\
    totalRequests (lstats l') = (totalRequests (lstats l) + length rs)%nat /\
    throttledRequests (lstats l') = throttledRequests (lstats l) /\
    totalWaitTime (lstats l') = totalWaitTime (lstats l).
Proof.
  revert now l. induction rs as [|r rs IH]; intros now l Hok Hrs Hns Hnh.
  - eexists _, _, _. split; [reflexivity |]. simpl. repeat split. lia.
  - apply Forall_cons in Hrs as [(Hgap & Hlate & Hop) Hrs].
    assert (Hok0 : limiterOk (now + gap r) l) by (eapply limiterOk_later; [exact Hok | lia]).
    destruct (throttle_ready (now + gap r) (late r) (operation r) l (length rs)
                Hok0 Hop Hns Hnh)
      as (l1 & t1 & res & ev1 & Hthr & Hev1 & Hok1 & Hn1 & Hn2 & Hst).
    destruct (IH t1 l1 Hok1 Hrs Hn1 Hn2) as (l2 & t2 & ev2 & Hall & Hev2 & Hn & Hth & Hw).
    cbn [throttleAll]. rewrite Hthr, Hall.
    eexists _, _, _. split; [reflexivity |].
    rewrite sleepsOf_app, Hev1, Hev2, Hn, Hth, Hw, Hst. simpl.
    repeat split. lia.
Qed.

Lemma held_tokens_admit_at_once_witness :
  let rs := repeat {| gap := 0; late := onTime; operation := resolved |} 10 in
  limiterOk 0 (new defaults 0) /\ Forall requestOk rs /\
  exists l' now' ev,
    throttleAll 0 rs (new defaults 0) = (l', now', ev) /\ sleepsOf ev = [] /\
    totalRequests (lstats l') = 10%nat.
Proof.
  intros rs.
  assert (Hok : limiterOk 0 (new defaults 0)) by apply new_ok.
  assert (Hrs : Forall requestOk rs).
  { apply List.Forall_forall. intros x Hx. apply repeat_spec in Hx. subst x.
    split; [simpl; lia |]. split; [unfold lateOk; simpl; lia |].
    intros t. simpl. split; [lia | reflexivity]. }
  split; [exact Hok |]. split; [exact Hrs |].
  destruct (held_tokens_admit_at_once rs 0 (new defaults 0) Hok Hrs)
    as (l' & now' & ev & Hall & Hev & Hn & _).
  - unfold rs. simpl. unfold ofCount. simpl. rewrite <- Zle_Qle. lia.
  - unfold rs. simpl. unfold ofCount. simpl. rewrite <- Zle_Qle. lia.
  - exists l', now', ev. split; [exact Hall |]. split; [exact Hev |]. exact Hn.
Defined.

End UsageFacts.
(** ** The batch loop, whatever the imports do *)

Module DriverFacts.
Import Importer ImporterFacts RunLog.

Lemma pausesOf_app (tr1 tr2 : list driverEvent) :
  pausesOf (tr1 ++ tr2) = pausesOf tr1 ++ pausesOf tr2.
Proof. apply flat_map_app. Qed.

Lemma outcomesOf_app (tr1 tr2 : list driverEvent) :
  outcomesOf (tr1 ++ tr2) = outcomesOf tr1 ++ outcomesOf tr2.
Proof. apply flat_map_app. Qed.

Lemma flagsOf_app (tr1 tr2 : list driverEvent) :
  flagsOf (tr1 ++ tr2) = flagsOf tr1 ++ flagsOf tr2.
Proof. apply flat_map_app. Qed.

Lemma backoff_cons (retryDelay : Z) (retries n : nat) :
  backoff retryDelay retries (S n) =
  (if Nat.ltb 0 retries then [(retryDelay * Z.of_nat retries)%Z] else []) ++
  backoff retryDelay (S retries) n.
Proof. unfold backoff. simpl. destruct (Nat.ltb 0 retries); reflexivity. Qed.


(** The attempts on a batch are the calls of [importBatch] logged for it. *)
Lemma attempts_outcomes (b : string) (tr : list driverEvent) :
  attempts b tr =
  length (List.filter (fun o => String.eqb (fst o) b) (outcomesOf tr)).
Proof.
  unfold attempts. induction tr as [|e tr IH]; simpl; [reflexivity |].
  destruct e; simpl; try exact IH.
  destruct (String.eqb batchNum b); simpl; rewrite IH; reflexivity.
Qed.

Lemma filter_repeat_same (num : string) (ok : bool) (n : nat) :
  List.filter (fun o : string * bool => String.eqb (fst o) num) (repeat (num, ok) n)
  = repeat (num, ok) n.
Proof.
  induction n as [|n IH]; simpl; [reflexivity |].
  rewrite String.eqb_refl, IH. reflexivity.
Qed.

Lemma filter_repeat_other (num b : string) (ok : bool) (n : nat) :
  b <> num ->
  List.filter (fun o : string * bool => String.eqb (fst o) b) (repeat (num, ok) n) = [].
Proof.
  intros Hne. induction n as [|n IH]; simpl; [reflexivity |].
  replace (String.eqb num b) with false
    by (symmetry; apply String.eqb_neq; congruence).
  exact IH.
Qed.

Lemma existsb_eqb_In (x : string) (l : list string) :
  existsb (String.eqb x) l = true <-> In x l.
Proof.
  rewrite existsb_exists. split.
  - intros (y & Hy & Heq). apply String.eqb_eq in Heq. subst y. exact Hy.
  - intros Hin. exists x. split; [exact Hin | apply String.eqb_refl].
Qed.

Lemma historyOf_app (b : string) (tr1 tr2 : list driverEvent) :
  historyOf b (tr1 ++ tr2) = historyOf b tr1 ++ historyOf b tr2.
Proof. unfold historyOf. rewrite outcomesOf_app. apply List.filter_app. Qed.

Lemma attempts_history (b : string) (tr : list driverEvent) :
  attempts b tr = length (historyOf b tr).
Proof. apply attempts_outcomes. Qed.

Lemma batchNumOf_inj (i j : nat) : batchNumOf i = batchNumOf j -> i = j.
Proof.
  intros Heq.
  pose proof (ResumeFacts.parseInt_batchNumOf i) as Hi.
  rewrite Heq, ResumeFacts.parseInt_batchNumOf in Hi.
  injection Hi as Hi. lia.
Qed.

Section Loop.
Variable W : Type.
Variable importBatch : string -> string -> bool -> W -> W * option string.
Variable toISOString : W -> string.
Variable outputDir : string.
Variable opts : importOptions.
Variable m : Split.manifest.

#[local] Abbreviation driver := (driver W).
#[local] Abbreviation retryLoop := (retryLoop W importBatch toISOString opts m).
#[local] Abbreviation batchLoop := (batchLoop W importBatch toISOString outputDir opts m).
#[local] Abbreviation processBatch := (processBatch W importBatch toISOString outputDir opts m).

Lemma retryLoop_outcome (i : nat) (dir num : string) (cm : bool) :
  forall fuel retries d,
  fuel + retries = S (maxRetries opts) -> 0 < fuel ->
  exists d' evs failures,
    retryLoop fuel i dir num cm retries false d = Some d' /\
    trace W d' = trace W d ++ evs /\
    startedAt (state W d') = startedAt (state W d) /\
    currentBatch (state W d') = None /\
    Forall (fun p => p = (num, cm)) (flagsOf evs) /\
    endsWith W opts m i num retries fuel d d' evs failures.
Proof.
  induction fuel as [|fuel IH]; intros retries d Hsum Hpos; [lia |].
  rewrite retryLoop_step
    by (apply andb_true_intro; split; [apply Nat.leb_le; lia | reflexivity]).
  cbv zeta.
  set (d1 := if Nat.ltb 0 retries then emit W d _ else d).
  assert (H1 : exists pre1, trace W d1 = trace W d ++ pre1 /\
            state W d1 = state W d /\ failureCount W d1 = failureCount W d /\
            successCount W d1 = successCount W d /\
            outcomesOf pre1 = [] /\ flagsOf pre1 = [] /\
            pausesOf pre1 = if Nat.ltb 0 retries
                            then [(retryDelay opts * Z.of_nat retries)%Z] else []).
  { unfold d1. destruct (Nat.ltb 0 retries).
    - eexists [_]. simpl. repeat split.
    - exists []. rewrite app_nil_r. repeat split. }
  destruct H1 as (pre1 & Ht1 & Hs1 & Hf1 & Hc1 & Ho1 & Hg1 & Hp1). clearbody d1.
  destruct (importBatch dir num cm (world W d1)) as [w' [msg|]].
  - destruct fuel as [|fuel].
    + replace (Nat.ltb (maxRetries opts) (S retries)) with true
        by (symmetry; apply Nat.ltb_lt; lia).
      rewrite retryLoop_exit by (apply andb_false_intro1; apply Nat.leb_gt; lia).
      eexists _, (pre1 ++ [DImport num cm false; DSave _]), 1.
      split; [reflexivity |]. simpl. rewrite Ht1, Hs1, <- !app_assoc. simpl.
      split; [reflexivity |]. split; [reflexivity |]. split; [reflexivity |].
      split; [rewrite flagsOf_app, Hg1; simpl; repeat constructor |].
      right. simpl.
      rewrite outcomesOf_app, pausesOf_app, Ho1, Hp1, ?Hf1, ?Hc1, ?Hs1. simpl.
      split; [reflexivity |]. split; [reflexivity |]. split; [reflexivity |].
      split; [eexists _, _; reflexivity |]. split; [reflexivity |].
      split; [reflexivity |]. rewrite backoff_cons, app_nil_r.
      unfold backoff. simpl. rewrite app_nil_r. reflexivity.
    + replace (Nat.ltb (maxRetries opts) (S retries)) with false
        by (symmetry; apply Nat.ltb_ge; lia).
      destruct (IH (S retries) (emit W (setWorld W w' d1) (DImport num cm false)))
        as (d' & evs & failures & Hrun & Ht & Hst & Hcur & Hflags & Hend);
        [lia | lia |].
      exists d', (pre1 ++ DImport num cm false :: evs), (S failures).
      split; [exact Hrun |]. simpl in Ht, Hst, Hend.
      split; [rewrite Ht, Ht1, <- !app_assoc; reflexivity |].
      split; [rewrite Hst, Hs1; reflexivity |]. split; [exact Hcur |].
      split; [rewrite flagsOf_app, Hg1; simpl; constructor; [reflexivity | exact Hflags] |].
      unfold endsWith in *. simpl in Hend.
      rewrite outcomesOf_app, pausesOf_app, Ho1, Hp1. simpl.
      rewrite Hs1, Hf1, Hc1 in Hend.
      rewrite (backoff_cons _ retries (S failures)), (backoff_cons _ retries failures).
      destruct Hend as [(Hlt & Ho & Hc & Hf & Hsc & Hfc & Hp)
                       | (Heq & Ho & Hc & Hf & Hsc & Hfc & Hp)]; [left | right].
      * rewrite Ho, Hp, <- app_assoc. repeat split; try assumption. lia.
      * rewrite Ho, Hp. repeat split; try assumption. lia.
  - rewrite retryLoop_done.
    eexists _, (pre1 ++ [DImport num cm true; DSave _] ++
                if Nat.ltb i (Split.totalBatches m)
                then [DSleep (delayBetweenBatches opts)] else []), 0.
    split; [reflexivity |].
    split; [destruct (Nat.ltb i (Split.totalBatches m)); simpl;
            rewrite Ht1, <- !app_assoc; reflexivity |].
    split; [destruct (Nat.ltb i (Split.totalBatches m)); simpl;
            rewrite Hs1; reflexivity |].
    split; [destruct (Nat.ltb i (Split.totalBatches m)); reflexivity |].
    split; [rewrite flagsOf_app, Hg1; destruct (Nat.ltb i (Split.totalBatches m));
            simpl; repeat constructor |].
    left. rewrite outcomesOf_app, pausesOf_app, Ho1, Hp1, backoff_cons.
    change (backoff (retryDelay opts) (S retries) 0) with (@nil Z).
    rewrite app_nil_r.
    destruct (Nat.ltb i (Split.totalBatches m)); simpl;
      rewrite Hs1, Hf1, Hc1, ?app_nil_r; repeat split; lia.
Qed.


Lemma processBatch_outcome (i : nat) (d d' : driver) :
  processBatch i d = Some (Some d') ->
  exists batchInfo evs failures,
    List.find (fun b => String.eqb (Split.batchId b)
                          (String.append "batch-" (batchNumOf i)))
              (Split.batches m) = Some batchInfo /\
    trace W d' = trace W d ++ DSave (state W (markInFlight W (batchNumOf i) d)) :: evs /\
    startedAt (state W d') = startedAt (state W d) /\
    currentBatch (state W d') = None /\
    Forall (fun p => p = (batchNumOf i, Split.hasContentModel batchInfo)) (flagsOf evs) /\
    endsWith W opts m i (batchNumOf i) 0 (S (maxRetries opts)) d d' evs failures.
Proof.
  unfold Importer.processBatch.
  destruct (List.find _ (Split.batches m)) as [batchInfo|]; [| discriminate].
  destruct (retryLoop_outcome i
              (String.append outputDir (String.append "/batch-" (batchNumOf i)))
              (batchNumOf i) (Split.hasContentModel batchInfo)
              (S (maxRetries opts)) 0 (markInFlight W (batchNumOf i) d))
    as (d1 & evs & failures & Hrun & Ht & Hst & Hcur & Hflags & Hend); [lia | lia |].
  rewrite Hrun. intros [= <-]. exists batchInfo, evs, failures.
  split; [reflexivity |]. simpl in Ht.
  split; [rewrite Ht, <- app_assoc; reflexivity |].
  split; [exact Hst |]. split; [exact Hcur |]. split; [exact Hflags | exact Hend].
Qed.

Lemma processBatch_cases (i : nat) (d : driver) :
  (processBatch i d = None /\
   List.find (fun b => String.eqb (Split.batchId b)
                         (String.append "batch-" (batchNumOf i)))
             (Split.batches m) = None) \/
  exists d', processBatch i d = Some (Some d').
Proof.
  unfold Importer.processBatch.
  destruct (List.find _ (Split.batches m)) as [batchInfo|]; [right | left; auto].
  destruct (retryLoop_total W importBatch toISOString opts m (S (maxRetries opts)) i
              (String.append outputDir (String.append "/batch-" (batchNumOf i)))
              (batchNumOf i) (Split.hasContentModel batchInfo) 0 false
              (markInFlight W (batchNumOf i) d)) as [d' Hd']; [lia |].
  exists d'. rewrite Hd'. reflexivity.
Qed.

(** Reasoning about the batch loop with an invariant: [P i d] holds when the
    loop is about to look at batch [i] with driver [d]. *)
Lemma batchLoop_rule (P : nat -> driver -> Prop) :
  (forall i d, P i d -> i <= Split.totalBatches m ->
     existsb (String.eqb (batchNumOf i)) (completedBatches (state W d)) = true ->
     P (S i) d) ->
  (forall i d d', P i d -> i <= Split.totalBatches m ->
     existsb (String.eqb (batchNumOf i)) (completedBatches (state W d)) = false ->
     processBatch i d = Some (Some d') -> P (S i) d') ->
  forall fuel i d, S (Split.totalBatches m) <= fuel + i -> P i d ->
  (exists d' j, batchLoop fuel i d = Finished W d' /\
                Split.totalBatches m < j /\ i <= j /\ P j d') \/
  (exists d' j, batchLoop fuel i d = Fatal W d' /\
                i <= j <= Split.totalBatches m /\ P j d' /\
                existsb (String.eqb (batchNumOf j)) (completedBatches (state W d')) = false /\
                List.find (fun b => String.eqb (Split.batchId b)
                                      (String.append "batch-" (batchNumOf j)))
                          (Split.batches m) = None).
Proof.
  intros Hskip Hstep.
  induction fuel as [|fuel IH]; intros i d Hfuel HP; cbn [Importer.batchLoop].
  - replace (Nat.leb i (Split.totalBatches m)) with false
      by (symmetry; apply Nat.leb_gt; lia).
    left. exists d, i. split; [reflexivity |]. split; [lia | auto].
  - destruct (Nat.leb_spec i (Split.totalBatches m)) as [Hle | Hgt];
      [| left; exists d, i; split; [reflexivity |]; split; [lia | auto]].
    destruct (existsb _ _) eqn:Hdone.
    + destruct (IH (S i) d) as [(d' & j & Hrun & Hj & Hij & HPj)
                               | (d' & j & Hrun & Hj & HPj & Hrest)];
        [lia | eapply Hskip; eassumption | left | right];
        exists d', j; (split; [exact Hrun |]).
      * split; [exact Hj |]. split; [lia | exact HPj].
      * split; [lia |]. split; [exact HPj | exact Hrest].
    + destruct (processBatch_cases i d) as [[Hnone Hfind] | [d1 Hd1]].
      * rewrite Hnone. right. exists d, i. split; [reflexivity |].
        split; [lia |]. split; [exact HP |]. split; [exact Hdone | exact Hfind].
      * rewrite Hd1.
        destruct (IH (S i) d1) as [(d' & j & Hrun & Hj & Hij & HPj)
                                  | (d' & j & Hrun & Hj & HPj & Hrest)];
          [lia | eapply Hstep; eassumption | left | right];
          exists d', j; (split; [exact Hrun |]).
        -- split; [exact Hj |]. split; [lia | exact HPj].
        -- split; [lia |]. split; [exact HPj | exact Hrest].
Qed.


(** The calls of [importBatch] made while a batch is worked on are calls for
    that batch: failed ones, then at most one that succeeds. *)
Lemma endsWith_history (i : nat) (num : string) (fuel : nat) (d d' : driver)
    (evs : list driverEvent) (failures : nat) :
  endsWith W opts m i num 0 fuel d d' evs failures ->
  (forall b, b <> num -> historyOf b evs = []) /\
  (failures < fuel /\ historyOf num evs = repeat (num, false) failures ++ [(num, true)]
   \/ failures = fuel /\ historyOf num evs = repeat (num, false) failures).
Proof.
  intros Hend. unfold historyOf.
  destruct Hend as [(Hlt & Ho & _) | (Heq & Ho & _)]; rewrite Ho; split.
  - intros b Hb. rewrite List.filter_app, filter_repeat_other by exact Hb. simpl.
    replace (String.eqb num b) with false
      by (symmetry; apply String.eqb_neq; congruence).
    reflexivity.
  - left. split; [exact Hlt |]. rewrite List.filter_app, filter_repeat_same. simpl.
    rewrite String.eqb_refl. reflexivity.
  - intros b Hb. apply filter_repeat_other, Hb.
  - right. split; [exact Heq | apply filter_repeat_same].
Qed.

#[local] Abbreviation runFrom startFromBatch stored w :=
  (importAllBatches W importBatch toISOString outputDir opts m startFromBatch stored w).

#[local] Abbreviation initial stored w :=
  ({| state := loadState W toISOString stored w; world := w; trace := [];
      successCount := 0; failureCount := 0 |} : driver).

(** X10 (idempotent resume).  Whatever the state file held and wherever the
    run starts, a batch listed in [completedBatches] when the run starts is
    not imported again, and it stays listed; and when no batch is listed
    twice at the start, none is at the end. *)
Theorem completed_batches_are_skipped (startFromBatch : nat)
    (stored : option importState) (w : W) :
  let s0 := loadState W toISOString stored w in
  let run := runFrom startFromBatch stored w in
  exists d,
    (run = Finished W d \/ run = Fatal W d) /\
    (forall b, In b (completedBatches s0) ->
       attempts b (trace W d) = 0 /\ In b (completedBatches (state W d))) /\
    (NoDup (completedBatches s0) -> NoDup (completedBatches (state W d))).
Proof.
  intros s0 run.
  set (P := fun (i : nat) (d : driver) =>
    (forall b, In b (completedBatches s0) ->
       historyOf b (trace W d) = [] /\ In b (completedBatches (state W d))) /\
    (NoDup (completedBatches s0) -> NoDup (completedBatches (state W d)))).
  assert (Hrule : forall i d d', P i d -> i <= Split.totalBatches m ->
            existsb (String.eqb (batchNumOf i)) (completedBatches (state W d)) = false ->
            processBatch i d = Some (Some d') -> P (S i) d').
  { intros i d d' [Hold Hnd] _ Hnew Hproc.
    destruct (processBatch_outcome i d d' Hproc)
      as (info & evs & failures & _ & Ht & _ & _ & _ & Hend).
    destruct (endsWith_history _ _ _ _ _ _ _ Hend) as [Hother _].
    assert (Hfresh : ~ In (batchNumOf i) (completedBatches (state W d))).
    { intros Hin. apply existsb_eqb_In in Hin. congruence. }
    assert (Hcompleted :
      completedBatches (state W d') = completedBatches (state W d) ++ [batchNumOf i] \/
      completedBatches (state W d') = completedBatches (state W d)).
    { destruct Hend as [(_ & _ & Hc & _) | (_ & _ & Hc & _)]; auto. }
    split.
    - intros b Hb. destruct (Hold b Hb) as [Hnone Hin]. split.
      + rewrite Ht, historyOf_app, Hnone. simpl.
        change (historyOf b (DSave _ :: evs)) with (historyOf b evs).
        apply Hother. intros ->. contradiction.
      + destruct Hcompleted as [-> | ->]; [apply in_or_app; auto | exact Hin].
    - intros Hnd0. specialize (Hnd Hnd0).
      destruct Hcompleted as [-> | ->]; [| exact Hnd].
      apply NoDup_app. split; [exact Hnd |]. split; [| apply NoDup_singleton].
      intros x Hx Hin. apply list_elem_of_singleton in Hin. subst x.
      apply Hfresh, list_elem_of_In, Hx. }
  destruct (batchLoop_rule P ltac:(intros i d HP _ _; exact HP) Hrule
              (S (Split.totalBatches m) - startFromBatch) startFromBatch
              (initial stored w))
    as [(d & j & Hrun & _ & _ & HP) | (d & j & Hrun & _ & HP & _)];
    [lia | split; [intros b Hb; split; [reflexivity | exact Hb] | auto] | |];
    exists d; (split; [auto |]); destruct HP as [Hold Hnd];
    (split; [| exact Hnd]); intros b Hb; destruct (Hold b Hb) as [Hnone Hin];
    (split; [rewrite attempts_history, Hnone; reflexivity | exact Hin]).
Qed.

(** X11 (bounded attempts).  In a run, whatever the imports do, the calls of
    [importBatch] for a batch are some failed calls followed by at most one
    call that succeeds; there are at most [maxRetries + 1] of them; a batch
    without a successful call was tried [maxRetries + 1] times or not at all;
    and only batches from the start point up to [totalBatches] are tried. *)
Theorem attempts_are_bounded (startFromBatch : nat) (stored : option importState)
    (w : W) :
  let run := runFrom startFromBatch stored w in
  exists d,
    (run = Finished W d \/ run = Fatal W d) /\
    forall b,
      attempts b (trace W d) <= S (maxRetries opts) /\
      (0 < attempts b (trace W d) ->
       exists k, startFromBatch <= k <= Split.totalBatches m /\ b = batchNumOf k) /\
      exists failures,
        (failures <= maxRetries opts /\
         historyOf b (trace W d) = repeat (b, false) failures ++ [(b, true)]) \/
        ((failures = 0 \/ failures = S (maxRetries opts)) /\
         historyOf b (trace W d) = repeat (b, false) failures).
Proof.
  intros run.
  set (shape := fun (b : string) (h : list (string * bool)) =>
    exists failures,
      (failures <= maxRetries opts /\ h = repeat (b, false) failures ++ [(b, true)]) \/
      (failures = S (maxRetries opts) /\ h = repeat (b, false) failures)).
  set (P := fun (i : nat) (d : driver) =>
    startFromBatch <= i /\
    forall b, historyOf b (trace W d) = [] \/
      ((exists k, startFromBatch <= k < i /\ k <= Split.totalBatches m /\
                  b = batchNumOf k) /\
       shape b (historyOf b (trace W d)))).
  assert (Hrule : forall i d d', P i d -> i <= Split.totalBatches m ->
            existsb (String.eqb (batchNumOf i)) (completedBatches (state W d)) = false ->
            processBatch i d = Some (Some d') -> P (S i) d').
  { intros i d d' [Hstart HP] Hle _ Hproc. split; [lia |]. intros b.
    destruct (processBatch_outcome i d d' Hproc)
      as (info & evs & failures & _ & Ht & _ & _ & _ & Hend).
    destruct (endsWith_history _ _ _ _ _ _ _ Hend) as [Hother Hown].
    rewrite Ht, historyOf_app.
    change (historyOf b (DSave _ :: evs)) with (historyOf b evs).
    destruct (String.eqb_spec b (batchNumOf i)) as [-> | Hne].
    - assert (Hnone : historyOf (batchNumOf i) (trace W d) = []).
      { destruct (HP (batchNumOf i)) as [Hnone | [(k & Hk & _ & Heq) _]]; [exact Hnone |].
        apply batchNumOf_inj in Heq. lia. }
      rewrite Hnone. simpl. right. split.
      + exists i. split; [lia | auto].
      + exists failures.
        destruct Hown as [[Hlt ->] | [-> ->]]; [left | right]; split; auto; lia.
    - rewrite (Hother b Hne), app_nil_r.
      destruct (HP b) as [Hnone | [(k & Hk & Hkt & Heq) Hshape]]; [left; exact Hnone |].
      right. split; [| exact Hshape]. exists k. split; [lia | auto]. }
  assert (Hskip : forall i d, P i d -> i <= Split.totalBatches m ->
            existsb (String.eqb (batchNumOf i)) (completedBatches (state W d)) = true ->
            P (S i) d).
  { intros i d [Hstart HP] _ _. split; [lia |]. intros b.
    destruct (HP b) as [Hnone | [(k & Hk & Hkt & Heq) Hshape]]; [left; exact Hnone |].
    right. split; [| exact Hshape]. exists k. split; [lia | auto]. }
  assert (Hend : forall d j, P j d -> forall b,
            attempts b (trace W d) <= S (maxRetries opts) /\
            (0 < attempts b (trace W d) ->
             exists k, startFromBatch <= k <= Split.totalBatches m /\ b = batchNumOf k) /\
            exists failures,
              (failures <= maxRetries opts /\
               historyOf b (trace W d) = repeat (b, false) failures ++ [(b, true)]) \/
              ((failures = 0 \/ failures = S (maxRetries opts)) /\
               historyOf b (trace W d) = repeat (b, false) failures)).
  { intros d j [_ HP] b. rewrite attempts_history.
    destruct (HP b) as [Hnone | [(k & Hk & Hkt & Heq) (failures & Hshape)]].
    - rewrite Hnone. simpl. split; [lia |]. split; [lia |]. exists 0. right. auto.
    - split; [| split].
      + destruct Hshape as [[Hf ->] | [-> ->]];
          rewrite ?length_app, repeat_length; simpl; lia.
      + intros _. exists k. split; [lia | exact Heq].
      + exists failures. destruct Hshape as [[Hf Hh] | [Hf Hh]]; auto. }
  destruct (batchLoop_rule P Hskip Hrule
              (S (Split.totalBatches m) - startFromBatch) startFromBatch
              (initial stored w))
    as [(d & j & Hrun & _ & _ & HP) | (d & j & Hrun & _ & HP & _)];
    [lia | split; [lia | intros b; left; reflexivity] | |];
    exists d; (split; [auto |]); eapply Hend; exact HP.
Qed.

Lemma recorded_kept (d d' : driver) (evs : list driverEvent) (i failures fuel : nat)
    (num b : string) :
  endsWith W opts m i num 0 fuel d d' evs failures ->
  (recorded (state W d) b -> recorded (state W d') b) /\ recorded (state W d') num.
Proof.
  unfold recorded.
  intros [(_ & _ & Hc & Hf & _) | (_ & _ & Hc & (msg & stamp & Hf) & _)];
    rewrite Hc, Hf, ?map_app, ?in_app_iff; simpl; tauto.
Qed.

(** X12 (every batch is accounted for).  A run ends normally, or it stops
    at a batch that is not yet completed and has no record in the manifest.
    In both cases every batch from the start point up to where the run came
    is then listed in [completedBatches] or has a record in [failedBatches];
    for a run that ends normally these are all batches up to
    [totalBatches].  Unless the run did nothing at all, no batch is left
    marked as in flight. *)
Theorem every_batch_is_recorded (startFromBatch : nat)
    (stored : option importState) (w : W) :
  let s0 := loadState W toISOString stored w in
  let run := runFrom startFromBatch stored w in
  exists d,
    ((run = Finished W d /\
      forall k, startFromBatch <= k <= Split.totalBatches m ->
        recorded (state W d) (batchNumOf k)) \/
     (exists j, run = Fatal W d /\ startFromBatch <= j <= Split.totalBatches m /\
        List.find (fun b => String.eqb (Split.batchId b)
                              (String.append "batch-" (batchNumOf j)))
                  (Split.batches m) = None /\
        ~ In (batchNumOf j) (completedBatches (state W d)) /\
        forall k, startFromBatch <= k < j -> recorded (state W d) (batchNumOf k))) /\
    (trace W d = [] /\ state W d = s0 \/ currentBatch (state W d) = None) /\
    startedAt (state W d) = startedAt s0.
Proof.
  intros s0 run.
  set (P := fun (i : nat) (d : driver) =>
    (forall k, startFromBatch <= k < i -> k <= Split.totalBatches m ->
       recorded (state W d) (batchNumOf k)) /\
    (trace W d = [] /\ state W d = s0 \/ currentBatch (state W d) = None) /\
    startedAt (state W d) = startedAt s0).
  assert (Hskip : forall i d, P i d -> i <= Split.totalBatches m ->
            existsb (String.eqb (batchNumOf i)) (completedBatches (state W d)) = true ->
            P (S i) d).
  { intros i d (Hrec & Hrest) Hle Hdone. split; [| exact Hrest].
    intros k Hk Hkt. destruct (Nat.eq_dec k i) as [-> | Hne]; [| apply Hrec; lia].
    left. apply existsb_eqb_In, Hdone. }
  assert (Hrule : forall i d d', P i d -> i <= Split.totalBatches m ->
            existsb (String.eqb (batchNumOf i)) (completedBatches (state W d)) = false ->
            processBatch i d = Some (Some d') -> P (S i) d').
  { intros i d d' (Hrec & _ & Hstarted) Hle _ Hproc.
    destruct (processBatch_outcome i d d' Hproc)
      as (info & evs & failures & _ & _ & Hst & Hcur & _ & Hend).
    split; [| split; [right; exact Hcur | congruence]].
    intros k Hk Hkt.
    destruct (recorded_kept _ _ _ _ _ _ _ (batchNumOf k) Hend) as [Hkeep Hown].
    destruct (Nat.eq_dec k i) as [-> | Hne]; [exact Hown | apply Hkeep, Hrec; lia]. }
  destruct (batchLoop_rule P Hskip Hrule
              (S (Split.totalBatches m) - startFromBatch) startFromBatch
              (initial stored w))
    as [(d & j & Hrun & Hj & Hij & Hrec & Hrest)
       | (d & j & Hrun & Hj & (Hrec & Hrest) & Hnew & Hfind)];
    [lia | split; [intros k Hk; lia | split; [left; split |]; reflexivity] | |];
    exists d; (split; [| exact Hrest]).
  - left. split; [exact Hrun |]. intros k Hk. apply Hrec; lia.
  - right. exists j. split; [exact Hrun |]. split; [lia |]. split; [exact Hfind |].
    split; [| intros k Hk; apply Hrec; lia].
    intros Hin. apply existsb_eqb_In in Hin. congruence.
Qed.

(** X13 (summary).  The two counters of the summary are the numbers of
    batches that the run added to [completedBatches] and of failure records
    that it added to [failedBatches]; so the process exits with status 0
    exactly when the run ends normally and has added no failure record, and
    with the failure status of the summary exactly when it ends normally and
    has added one. *)
Theorem summary_counts_match_state (startFromBatch : nat)
    (stored : option importState) (w : W) :
  let s0 := loadState W toISOString stored w in
  let run := runFrom startFromBatch stored w in
  exists d,
    (run = Finished W d \/ run = Fatal W d) /\
    length (completedBatches (state W d))
      = length (completedBatches s0) + successCount W d /\
    length (failedBatches (state W d))
      = length (failedBatches s0) + failureCount W d /\
    (exitOf W run = ExitOk <->
     run = Finished W d /\ failedBatches (state W d) = failedBatches s0) /\
    (exitOf W run = ExitFailures <->
     run = Finished W d /\ failedBatches (state W d) <> failedBatches s0).
Proof.
  intros s0 run.
  set (P := fun (i : nat) (d : driver) =>
    length (completedBatches (state W d))
      = length (completedBatches s0) + successCount W d /\
    length (failedBatches (state W d))
      = length (failedBatches s0) + failureCount W d /\
    failedBatches s0 `prefix_of` failedBatches (state W d)).
  assert (Hrule : forall i d d', P i d -> i <= Split.totalBatches m ->
            existsb (String.eqb (batchNumOf i)) (completedBatches (state W d)) = false ->
            processBatch i d = Some (Some d') -> P (S i) d').
  { intros i d d' (Hc & Hf & Hpre) _ _ Hproc.
    destruct (processBatch_outcome i d d' Hproc)
      as (info & evs & failures & _ & _ & _ & _ & _ & Hend).
    destruct Hend as [(_ & _ & Hc' & Hf' & Hsc & Hfc & _)
                     | (_ & _ & Hc' & (msg & stamp & Hf') & Hsc & Hfc & _)];
      unfold P; rewrite Hc', Hf', Hsc, Hfc, ?length_app; simpl;
      (split; [lia |]); (split; [lia |]); [exact Hpre | apply prefix_app_r, Hpre]. }
  destruct (batchLoop_rule P ltac:(intros i d HP _ _; exact HP) Hrule
              (S (Split.totalBatches m) - startFromBatch) startFromBatch
              (initial stored w))
    as [(d & j & Hrun & _ & _ & Hc & Hf & Hpre) | (d & j & Hrun & _ & (Hc & Hf & Hpre) & _)];
    [lia | unfold P, s0; simpl; split; [lia | split; [lia | reflexivity]] | |];
    exists d; unfold run, Importer.importAllBatches; rewrite Hrun;
    (split; [auto |]); (split; [exact Hc |]); (split; [exact Hf |]).
  - assert (Hsame : failureCount W d = 0 <->
                    failedBatches (state W d) = failedBatches s0).
    { split.
      - intros Hz. symmetry. apply prefix_length_eq; [exact Hpre | lia].
      - intros Heq. rewrite Heq in Hf. lia. }
    simpl. destruct (Nat.ltb_spec 0 (failureCount W d)) as [Hpos | Hzero];
      (split; split).
    + discriminate.
    + intros [_ Heq]. apply Hsame in Heq. lia.
    + intros _. split; [reflexivity |]. intros Heq. apply Hsame in Heq. lia.
    + reflexivity.
    + intros _. split; [reflexivity |]. apply Hsame. lia.
    + reflexivity.
    + discriminate.
    + intros [_ Hne]. destruct Hne. apply Hsame. lia.
  - simpl. split; split; try discriminate; intros [Habs _]; discriminate Habs.
Qed.


End Loop.


End DriverFacts.

(** ** The retry ceiling *)

Module RetryFacts.
Import Importer ImporterFacts RunLog DriverFacts Retry.

Lemma flagsOf_In (b : string) (cm ok : bool) (tr : list driverEvent) :
  In (DImport b cm ok) tr -> In (b, cm) (flagsOf tr).
Proof.
  intros Hin. unfold flagsOf. apply in_flat_map.
  exists (DImport b cm ok). split; [exact Hin | left; reflexivity].
Qed.

Lemma outcomesOf_In (tr : list driverEvent) :
  outcomesOf tr <> [] -> exists b cm ok, In (DImport b cm ok) tr.
Proof.
  induction tr as [|e tr IH]; intros Hne; [destruct Hne; reflexivity |].
  destruct e as [s|ms|b cm ok].
  - destruct (IH Hne) as (b & cm & ok & Hin). exists b, cm, ok. right. exact Hin.
  - destruct (IH Hne) as (b & cm & ok & Hin). exists b, cm, ok. right. exact Hin.
  - exists b, cm, ok. left. reflexivity.
Qed.

Lemma attempts_failedAttempts (opts : importOptions) (num : string) (cm : bool)
    (retries n : nat) :
  attempts num (failedAttempts opts num cm retries n) = n.
Proof.
  unfold failedAttempts. revert retries.
  induction n as [|n IH]; intros retries; [reflexivity |].
  cbn [seq flat_map]. rewrite !attempts_app, IH.
  destruct (Nat.ltb 0 retries); unfold attempts; simpl; rewrite String.eqb_refl;
    reflexivity.
Qed.

Section Ceiling.
Variable W : Type.
Variable importBatch : string -> string -> bool -> W -> W * option string.
Variable toISOString : W -> string.
Variable outputDir : string.
Variable opts : importOptions.
Variable m : Split.manifest.

#[local] Abbreviation driver := (driver W).
#[local] Abbreviation retryLoop := (retryLoop W importBatch toISOString opts m).
#[local] Abbreviation batchLoop := (batchLoop W importBatch toISOString outputDir opts m).
#[local] Abbreviation processBatch := (processBatch W importBatch toISOString outputDir opts m).
#[local] Abbreviation worldAfter := (worldAfter W importBatch).
#[local] Abbreviation thrownAfter := (thrownAfter W importBatch).
#[local] Abbreviation failedAttempts := (failedAttempts opts).

(** When every call throws, the retry loop entered with [retries] failed
    attempts behind it makes the attempts that are left, with the pauses of
    the backoff before them, and then records the failure with the message
    of the last error and the time after the last call. *)
Lemma retryLoop_gives_up (i : nat) (dir num : string) (cm : bool) :
  (forall w, exists w' msg, importBatch dir num cm w = (w', Some msg)) ->
  forall fuel retries d,
  S fuel + retries = S (maxRetries opts) ->
  exists msg,
    thrownAfter dir num cm fuel (world W d) = Some msg /\
    retryLoop (S fuel) i dir num cm retries false d =
      Some {| state := failedState (state W d) num msg
                         (toISOString (worldAfter dir num cm (S fuel) (world W d)));
              world := worldAfter dir num cm (S fuel) (world W d);
              trace := trace W d ++ failedAttempts num cm retries (S fuel) ++
                         [DSave (failedState (state W d) num msg
                                   (toISOString
                                      (worldAfter dir num cm (S fuel) (world W d))))];
              successCount := successCount W d;
              failureCount := S (failureCount W d) |}.
Proof.
  intros Hfail. induction fuel as [|fuel IH]; intros retries d Hsum.
  - rewrite retryLoop_step
      by (apply andb_true_intro; split; [apply Nat.leb_le; lia | reflexivity]).
    cbv zeta.
    assert (Hw : world W (if Nat.ltb 0 retries
                          then emit W d (DSleep (retryDelay opts * Z.of_nat retries))
                          else d) = world W d)
      by (destruct (Nat.ltb 0 retries); reflexivity).
    rewrite Hw. destruct (Hfail (world W d)) as (w' & msg & Hcall). rewrite Hcall.
    replace (Nat.ltb (maxRetries opts) (S retries)) with true
      by (symmetry; apply Nat.ltb_lt; lia).
    rewrite retryLoop_exit by (apply andb_false_intro1; apply Nat.leb_gt; lia).
    exists msg. split.
    + unfold Retry.thrownAfter. simpl. rewrite Hcall. reflexivity.
    + f_equal. unfold markFailed, failedState, Retry.failedAttempts. simpl.
      rewrite Hcall. simpl.
      destruct (Nat.ltb 0 retries); simpl; rewrite <- ?app_assoc; reflexivity.
  - rewrite retryLoop_step
      by (apply andb_true_intro; split; [apply Nat.leb_le; lia | reflexivity]).
    cbv zeta.
    assert (Hw : world W (if Nat.ltb 0 retries
                          then emit W d (DSleep (retryDelay opts * Z.of_nat retries))
                          else d) = world W d)
      by (destruct (Nat.ltb 0 retries); reflexivity).
    rewrite Hw. destruct (Hfail (world W d)) as (w' & msg & Hcall). rewrite Hcall.
    replace (Nat.ltb (maxRetries opts) (S retries)) with false
      by (symmetry; apply Nat.ltb_ge; lia).
    match goal with
    | |- context [Importer.retryLoop _ _ _ _ _ _ _ _ _ _ _ _ ?d3] =>
        destruct (IH (S retries) d3) as (msg' & Hth & Hrun); [lia |];
        rewrite Hrun; clear Hrun
    end.
    exists msg'. split.
    + unfold Retry.thrownAfter in *. cbn [Retry.worldAfter]. rewrite Hcall.
      exact Hth.
    + f_equal. unfold failedState, Retry.failedAttempts.
      cbn [Retry.worldAfter seq flat_map]. rewrite Hcall. simpl.
      destruct (Nat.ltb 0 retries); simpl; rewrite <- ?app_assoc; reflexivity.
Qed.

(** C3 (retry ceiling).  For a batch whose import throws on every attempt,
    [importBatch] is called [maxRetries + 1] times (4 times for
    [maxRetries = 3]), the [k]-th retry after a pause of [retryDelay * k] ms
    and none of them successful.  Then the record of the batch, with the
    message of the last error and the time after the last call, is appended
    to [failedBatches], [currentBatch] is set to [null] and the state is
    saved; these are all the events of the batch, after the save that marks
    it as in flight.  The run is not aborted: the batch loop returns, and it
    ends normally or on a later batch that has no record in the manifest;
    the failure record is still in the state at the end; and when the next
    batch is not completed and has its record in the manifest, [importBatch]
    is called for it after the failure was saved. *)
Theorem retry_ceiling (i : nat) (d : driver) (batchInfo : Split.manifestBatch) :
  let batchNum := batchNumOf i in
  let batchDir := String.append outputDir (String.append "/batch-" batchNum) in
  let cm := Split.hasContentModel batchInfo in
  let w' := worldAfter batchDir batchNum cm (S (maxRetries opts)) (world W d) in
  List.find (fun b => String.eqb (Split.batchId b) (String.append "batch-" batchNum))
            (Split.batches m) = Some batchInfo ->
  (forall w, exists w1 msg, importBatch batchDir batchNum cm w = (w1, Some msg)) ->
  i <= Split.totalBatches m ->
  existsb (String.eqb batchNum) (completedBatches (state W d)) = false ->
  exists msg d' df rest,
    thrownAfter batchDir batchNum cm (maxRetries opts) (world W d) = Some msg /\
    processBatch i d = Some (Some d') /\
    d' = {| state := failedState (state W d) batchNum msg (toISOString w');
            world := w';
            trace := trace W d ++
                     DSave (state W (markInFlight W batchNum d)) ::
                     failedAttempts batchNum cm 0 (S (maxRetries opts)) ++
                     [DSave (failedState (state W d) batchNum msg (toISOString w'))];
            successCount := successCount W d;
            failureCount := S (failureCount W d) |} /\
    attempts batchNum (trace W d') = attempts batchNum (trace W d) + S (maxRetries opts) /\
    (maxRetries opts = 3 ->
     attempts batchNum (trace W d') = attempts batchNum (trace W d) + 4) /\
    currentBatch (state W d') = None /\
    (batchLoop (S (Split.totalBatches m) - i) i d = Finished W df \/
     batchLoop (S (Split.totalBatches m) - i) i d = Fatal W df /\
     exists j, i < j <= Split.totalBatches m /\
       List.find (fun b => String.eqb (Split.batchId b)
                             (String.append "batch-" (batchNumOf j)))
                 (Split.batches m) = None) /\
    trace W df = trace W d' ++ rest /\
    In {| batch := batchNum; error := msg; timestamp := toISOString w' |}
       (failedBatches (state W df)) /\
    (forall next,
       S i <= Split.totalBatches m ->
       List.find (fun b => String.eqb (Split.batchId b)
                             (String.append "batch-" (batchNumOf (S i))))
                 (Split.batches m) = Some next ->
       existsb (String.eqb (batchNumOf (S i))) (completedBatches (state W d)) = false ->
       exists ok, In (DImport (batchNumOf (S i)) (Split.hasContentModel next) ok) rest).
Proof.
  intros batchNum batchDir cm w' Hfind Hfail Hi Hnew.
  destruct (retryLoop_gives_up i batchDir batchNum cm Hfail (maxRetries opts) 0
              (markInFlight W batchNum d)) as (msg & Hthrown & Hloop); [lia |].
  cbn [markInFlight world state trace successCount failureCount] in Hthrown, Hloop.
  set (rec := {| batch := batchNum; error := msg; timestamp := toISOString w' |}).
  set (d' := {| state := failedState (state W d) batchNum msg (toISOString w');
                world := w';
                trace := trace W d ++
                         DSave (state W (markInFlight W batchNum d)) ::
                         failedAttempts batchNum cm 0 (S (maxRetries opts)) ++
                         [DSave (failedState (state W d) batchNum msg (toISOString w'))];
                successCount := successCount W d;
                failureCount := S (failureCount W d) |} : driver).
  assert (Hproc : processBatch i d = Some (Some d')).
  { unfold Importer.processBatch. fold batchNum. rewrite Hfind. fold cm. fold batchDir.
    rewrite Hloop. unfold d', failedState. cbn [startedAt completedBatches failedBatches].
    rewrite <- app_assoc. reflexivity. }
  (* the rest of the run *)
  set (nextNum := batchNumOf (S i)).
  set (P := fun (j : nat) (dj : driver) =>
    S i <= j /\ (j = S i -> dj = d') /\
    In rec (failedBatches (state W dj)) /\
    exists rest, trace W dj = trace W d' ++ rest /\
      (S i < j ->
       existsb (String.eqb nextNum) (completedBatches (state W d')) = false ->
       forall next,
         List.find (fun b => String.eqb (Split.batchId b)
                               (String.append "batch-" nextNum))
                   (Split.batches m) = Some next ->
         exists ok, In (DImport nextNum (Split.hasContentModel next) ok) rest)).
  assert (Hskip : forall j dj, P j dj -> j <= Split.totalBatches m ->
            existsb (String.eqb (batchNumOf j)) (completedBatches (state W dj)) = true ->
            P (S j) dj).
  { intros j dj (Hj & Hat & Hrec & rest & Ht & Hnext) _ Hdone.
    split; [lia |]. split; [lia |]. split; [exact Hrec |].
    exists rest. split; [exact Ht |]. intros _ Hopen next Hn.
    destruct (Nat.eq_dec j (S i)) as [-> | Hne].
    - rewrite (Hat eq_refl) in Hdone. fold nextNum in Hdone. congruence.
    - apply Hnext; [lia | exact Hopen | exact Hn]. }
  assert (Hstep : forall j dj dj', P j dj -> j <= Split.totalBatches m ->
            existsb (String.eqb (batchNumOf j)) (completedBatches (state W dj)) = false ->
            processBatch j dj = Some (Some dj') -> P (S j) dj').
  { intros j dj dj' (Hj & Hat & Hrec & rest & Ht & Hnext) _ _ Hpj.
    destruct (processBatch_outcome W importBatch toISOString outputDir opts m j dj dj' Hpj)
      as (info & evs & failures & Hinfo & Htr & _ & _ & Hflags & Hend).
    split; [lia |]. split; [lia |]. split.
    { destruct Hend as [(_ & _ & _ & Hf & _) | (_ & _ & _ & (msg1 & stamp1 & Hf) & _)];
        rewrite Hf; [exact Hrec | apply in_or_app; left; exact Hrec]. }
    exists (rest ++ DSave (state W (markInFlight W (batchNumOf j) dj)) :: evs).
    split; [rewrite Htr, Ht, <- app_assoc; reflexivity |].
    intros _ Hopen next Hn.
    destruct (Nat.eq_dec j (S i)) as [-> | Hne].
    - fold nextNum in Hinfo, Hflags. rewrite Hn in Hinfo. injection Hinfo as <-.
      assert (Hne : outcomesOf evs <> []).
      { destruct Hend as [(_ & Ho & _) | (Hf & Ho & _)]; rewrite Ho.
        - intros Habs. apply app_eq_nil in Habs as [_ Habs]. discriminate.
        - subst failures. discriminate. }
      destruct (outcomesOf_In evs Hne) as (b & c & ok & Hin).
      pose proof (flagsOf_In b c ok evs Hin) as Hflag.
      rewrite List.Forall_forall in Hflags. apply Hflags in Hflag.
      injection Hflag as -> ->. exists ok.
      apply in_or_app. right. right. exact Hin.
    - destruct (Hnext ltac:(lia) Hopen next Hn) as [ok Hin]. exists ok.
      apply in_or_app. left. exact Hin. }
  assert (HP0 : P (S i) d').
  { split; [lia |]. split; [reflexivity |]. split.
    - unfold d', failedState. cbn [state failedBatches].
      apply in_or_app. right. left. reflexivity.
    - exists []. rewrite app_nil_r. split; [reflexivity | lia]. }
  assert (Hrun : batchLoop (S (Split.totalBatches m) - i) i d
                 = batchLoop (Split.totalBatches m - i) (S i) d').
  { replace (S (Split.totalBatches m) - i) with (S (Split.totalBatches m - i)) by lia.
    apply (batchLoop_next W importBatch toISOString outputDir opts m); assumption. }
  assert (Hopen' : existsb (String.eqb nextNum) (completedBatches (state W d'))
                   = existsb (String.eqb nextNum) (completedBatches (state W d)))
    by reflexivity.
  destruct (batchLoop_rule W importBatch toISOString outputDir opts m P Hskip Hstep
              (Split.totalBatches m - i) (S i) d')
    as [(df & j & Hres & Hj & _ & (_ & _ & Hrec & rest & Ht & Hnext))
       | (df & j & Hres & Hj & (Hij & Hat & Hrec & rest & Ht & Hnext) & _ & Hnone)];
    [lia | exact HP0 | |].
  - exists msg, d', df, rest.
    split; [exact Hthrown |]. split; [exact Hproc |]. split; [reflexivity |].
    assert (Hatt : attempts batchNum (trace W d')
                   = attempts batchNum (trace W d) + S (maxRetries opts)).
    { unfold d'. cbn [trace].
      change (DSave (state W (markInFlight W batchNum d)) ::
              failedAttempts batchNum cm 0 (S (maxRetries opts)) ++
              [DSave (failedState (state W d) batchNum msg (toISOString w'))])
        with ([DSave (state W (markInFlight W batchNum d))] ++
              failedAttempts batchNum cm 0 (S (maxRetries opts)) ++
              [DSave (failedState (state W d) batchNum msg (toISOString w'))]).
      rewrite !attempts_app, attempts_failedAttempts. unfold attempts. simpl. lia. }
    split; [exact Hatt |]. split; [intros HR; rewrite Hatt, HR; reflexivity |].
    split; [reflexivity |]. split; [left; rewrite Hrun; exact Hres |].
    split; [exact Ht |]. split; [exact Hrec |].
    intros next Hle Hn Hopen. apply Hnext; [lia | rewrite Hopen'; exact Hopen | exact Hn].
  - exists msg, d', df, rest.
    split; [exact Hthrown |]. split; [exact Hproc |]. split; [reflexivity |].
    assert (Hatt : attempts batchNum (trace W d')
                   = attempts batchNum (trace W d) + S (maxRetries opts)).
    { unfold d'. cbn [trace].
      change (DSave (state W (markInFlight W batchNum d)) ::
              failedAttempts batchNum cm 0 (S (maxRetries opts)) ++
              [DSave (failedState (state W d) batchNum msg (toISOString w'))])
        with ([DSave (state W (markInFlight W batchNum d))] ++
              failedAttempts batchNum cm 0 (S (maxRetries opts)) ++
              [DSave (failedState (state W d) batchNum msg (toISOString w'))]).
      rewrite !attempts_app, attempts_failedAttempts. unfold attempts. simpl. lia. }
    split; [exact Hatt |]. split; [intros HR; rewrite Hatt, HR; reflexivity |].
    split; [reflexivity |].
    split; [right; split; [rewrite Hrun; exact Hres | exists j; split; [lia | exact Hnone]] |].
    split; [exact Ht |]. split; [exact Hrec |].
    intros next Hle Hn Hopen.
    destruct (Nat.eq_dec j (S i)) as [-> | Hne]; [fold nextNum in Hnone; congruence |].
    apply Hnext; [lia | rewrite Hopen'; exact Hopen | exact Hn].
Qed.

End Ceiling.

Lemma retry_ceiling_witness :
  exists d' df,
    processBatch nat firstAlwaysFails stamp "batches" sampleOptions sampleManifest
      1 (driverAt freshState) = Some (Some d') /\
    attempts "01" (trace nat d') = 4 /\
    failedBatches (state nat d') =
      [{| batch := "01"; error := "content type rejected"; timestamp := "t4" |}] /\
    pausesOf (trace nat d') = [5000; 10000; 15000]%Z /\
    batchLoop nat firstAlwaysFails stamp "batches" sampleOptions sampleManifest
      2 1 (driverAt freshState) = Finished nat df /\
    attempts "02" (trace nat df) = 1.
Proof.
  destruct (retry_ceiling nat firstAlwaysFails stamp "batches" sampleOptions
              sampleManifest 1 (driverAt freshState)
              {| Split.batchNumber := 1; Split.batchId := "batch-01";
                 Split.mb_assets := 1; Split.mb_entries := 1;
                 Split.hasContentModel := true |} eq_refl
              (fun w => ex_intro _ (S w) (ex_intro _ _ eq_refl))
              (le_S 1 1 (le_n 1)) eq_refl)
    as (msg & d' & df & rest & Hthrown & Hproc & Hd' & _ & _ & _ & Hres & _).
  vm_compute in Hthrown. injection Hthrown as <-.
  exists d', df. split; [exact Hproc |].
  assert (Hrun : batchLoop nat firstAlwaysFails stamp "batches" sampleOptions
                   sampleManifest 2 1 (driverAt freshState) = Finished nat df).
  { destruct Hres as [Hres | [Hres _]]; [exact Hres |].
    vm_compute in Hres. discriminate Hres. }
  split; [rewrite Hd'; reflexivity |].
  split; [rewrite Hd'; reflexivity |].
  split; [rewrite Hd'; reflexivity |].
  split; [exact Hrun |].
  vm_compute in Hrun. injection Hrun as <-. reflexivity.
Defined.

End RetryFacts.
(** ** From one script to the next *)

Module PipelineFacts.
Import Importer ImporterFacts RunLog DriverFacts Resume ResumeFacts Handoff StateFile.

Lemma to_uint_nonnil (n : nat) : Nat.to_uint n <> Decimal.Nil.
Proof.
  intros Hnil. pose proof (DecimalNat.Unsigned.to_of (Nat.to_uint n)) as Hto.
  rewrite DecimalNat.Unsigned.of_to, Hnil in Hto. discriminate Hto.
Qed.

Lemma uintValue_to_uint (n : nat) : uintValue (Nat.to_uint n) 0 = Z.of_nat n.
Proof.
  rewrite <- (DecimalNat.Unsigned.of_to n) at 2. unfold Nat.of_uint.
  apply (uintValue_of_uint_acc (Nat.to_uint n) 0).
Qed.

Lemma parseInt_String_of_nat (n : nat) : parseInt (String_of_nat n) = Some (Z.of_nat n).
Proof.
  unfold String_of_nat. rewrite parseInt_numeral by apply to_uint_nonnil.
  f_equal. apply uintValue_to_uint.
Qed.

(** A numeral is not empty and does not start with a sign. *)
Lemma numeral_head (d : Decimal.uint) :
  d <> Decimal.Nil ->
  exists c rest, NilEmpty.string_of_uint d = String c rest /\
                 exists v, digitOf c = Some v.
Proof.
  destruct d; intros Hd; [contradiction | ..]; simpl; eexists _, _;
    (split; [reflexivity |]); eexists; reflexivity.
Qed.

Lemma readDigits_numeral (d : Decimal.uint) :
  d <> Decimal.Nil ->
  readDigits (NilEmpty.string_of_uint d) 0 false = Some (uintValue d 0).
Proof.
  destruct d; intros Hd; [contradiction | ..]; simpl; apply readDigits_uint.
Qed.

(** X15 (hand-over of the start point).  bin/import.js reads back the start
    point that bin/resume.js passes on its command line, whatever it is (a
    batch number or [NaN]); without arguments it starts at batch 1; and when
    [--start-from] is given several times, the last one that has a value
    counts. *)
Theorem start_point_is_handed_over :
  (forall x, startFromArg (spawnArgs x) = x) /\
  startFromArg [] = Some 1%Z /\
  (forall args v, truthy v = true ->
     startFromArg (args ++ ["--start-from"; v]) = parseInt v).
Proof.
  split; [| split; [reflexivity |]].
  - intros [z|]; [| reflexivity].
    unfold startFromArg, spawnArgs, numberToString.
    destruct (Z.ltb_spec z 0) as [Hneg | Hpos]; cbn [parseArgs];
      change (String.eqb "--start-from" "--start-from") with true; cbn [andb].
    + cbn [truthy].
      assert (Hdash : forall s, parseInt (String "-" s)
                                = option_map Z.opp (readDigits s 0 false))
        by reflexivity.
      rewrite Hdash. unfold String_of_nat.
      rewrite readDigits_numeral by apply to_uint_nonnil.
      rewrite uintValue_to_uint. simpl. f_equal. lia.
    + destruct (numeral_head (Nat.to_uint (Z.to_nat z)) (to_uint_nonnil _))
        as (c & rest & Hs & _).
      fold (String_of_nat (Z.to_nat z)) in Hs.
      replace (truthy (String_of_nat (Z.to_nat z))) with true
        by (rewrite Hs; reflexivity).
      rewrite parseInt_String_of_nat. f_equal. lia.
  - intros args v Hv. unfold startFromArg. generalize (Some 1%Z).
    induction args as [|a args IH]; intros s.
    + simpl. rewrite Hv. destruct v; reflexivity.
    + cbn [app parseArgs]. apply IH.
Qed.


(** Looking up a batch in a manifest written by bin/split.js. *)
Lemma find_manifestEntry (l : list Split.export) :
  forall offset i b,
  l !! (i - S offset) = Some b -> offset < i ->
  List.find (fun mb => String.eqb (Split.batchId mb)
                         (String.append "batch-" (batchNumOf i)))
            (imap (fun k x => Split.manifestEntry (S (offset + k)) x) l)
  = Some (Split.manifestEntry i b).
Proof.
  induction l as [|x l IH]; intros offset i b Hb Hlt; [discriminate |].
  cbn [imap List.find]. rewrite Nat.add_0_r.
  assert (Hcmp : String.eqb (Split.batchId (Split.manifestEntry (S offset) x))
                            (String.append "batch-" (batchNumOf i))
                 = String.eqb (batchNumOf (S offset)) (batchNumOf i)) by reflexivity.
  rewrite Hcmp. destruct (String.eqb_spec (batchNumOf (S offset)) (batchNumOf i)) as [Heq | Hne].
  - apply batchNumOf_inj in Heq. subst i. rewrite Nat.sub_diag in Hb.
    injection Hb as <-. reflexivity.
  - assert (Hi : S offset < i).
    { destruct (Nat.eq_dec i (S offset)) as [-> | Hn]; [destruct Hne; reflexivity | lia]. }
    rewrite (imap_ext _ (fun k y => Split.manifestEntry (S (S offset + k)) y)).
    + apply IH; [| exact Hi].
      replace (i - S offset) with (S (i - S (S offset))) in Hb by lia. exact Hb.
    + intros k y _. unfold compose. f_equal. lia.
Qed.

Section Pipeline.
Variable W : Type.
Variable importBatch : string -> string -> bool -> W -> W * option string.
Variable toISOString : W -> string.
Variable outputDir : string.
Variable opts : importOptions.

(** X16 (split, then import).  A manifest written by bin/split.js has a
    record for every batch number from 1 to [totalBatches], so a run of the
    importer over it that starts at batch 1 or later ends normally, whatever
    the imports do; each call of [importBatch] is for a batch of that range
    and gets as [isFirstBatch] whether that batch holds content types; so the
    flag is set for batch 01 only, and only when the export has content
    types. *)
Theorem split_manifest_is_importable (batchSize : nat) (E : Split.export)
    (out : list Split.export) (man : Split.manifest) (startFromBatch : nat)
    (stored : option importState) (w : W) :
  Split.splitExport batchSize E = Some (out, man) -> 1 <= startFromBatch ->
  exists d,
    importAllBatches W importBatch toISOString outputDir opts man
      startFromBatch stored w = Finished W d /\
    (forall b cm, In (b, cm) (flagsOf (trace W d)) ->
       exists k bk, startFromBatch <= k <= length out /\ b = batchNumOf k /\
                    out !! (k - 1) = Some bk /\
                    cm = negb (Nat.eqb (length (Split.contentTypes bk)) 0)) /\
    (forall b, In (b, true) (flagsOf (trace W d)) ->
       b = "01" /\ Split.contentTypes E <> []).
Proof.
  intros Hsplit Hstart.
  pose proof (SplitCoverage.splitExport_model _ _ _ _ Hsplit) as Hmodel.
  destruct (SplitCoverage.splitExport_inv _ _ _ _ Hsplit)
    as (_ & _ & _ & _ & _ & _ & Hman).
  assert (Htotal : Split.totalBatches man = length out) by (rewrite Hman; reflexivity).
  assert (Hfind : forall i, 1 <= i <= length out ->
            exists bk, out !! (i - 1) = Some bk /\
              List.find (fun mb => String.eqb (Split.batchId mb)
                                     (String.append "batch-" (batchNumOf i)))
                        (Split.batches man) = Some (Split.manifestEntry i bk)).
  { intros i Hi. destruct (lookup_lt_is_Some_2 out (i - 1)) as [bk Hbk]; [lia |].
    exists bk. split; [exact Hbk |]. rewrite Hman. cbn [Split.batches].
    apply (find_manifestEntry out 0 i bk); [exact Hbk | lia]. }
  set (P := fun (i : nat) (d : driver W) =>
    startFromBatch <= i /\
    forall b cm, In (b, cm) (flagsOf (trace W d)) ->
      exists k bk, startFromBatch <= k < i /\ k <= length out /\ b = batchNumOf k /\
                   out !! (k - 1) = Some bk /\
                   cm = negb (Nat.eqb (length (Split.contentTypes bk)) 0)).
  assert (Hskip : forall i d, P i d -> i <= Split.totalBatches man ->
            existsb (String.eqb (batchNumOf i)) (completedBatches (state W d)) = true ->
            P (S i) d).
  { intros i d [Hi HP] _ _. split; [lia |]. intros b cm Hin.
    destruct (HP b cm Hin) as (k & bk & Hk & Hrest). exists k, bk. split; [lia | exact Hrest]. }
  assert (Hrule : forall i d d', P i d -> i <= Split.totalBatches man ->
            existsb (String.eqb (batchNumOf i)) (completedBatches (state W d)) = false ->
            processBatch W importBatch toISOString outputDir opts man i d
              = Some (Some d') -> P (S i) d').
  { intros i d d' [Hi HP] Hle _ Hproc. split; [lia |]. intros b cm Hin.
    destruct (processBatch_outcome W importBatch toISOString outputDir opts man i d d' Hproc)
      as (info & evs & failures & Hinfo & Ht & _ & _ & Hflags & _).
    rewrite Ht, flagsOf_app in Hin. apply in_app_or in Hin as [Hin | Hin].
    - destruct (HP b cm Hin) as (k & bk & Hk & Hrest). exists k, bk.
      split; [lia | exact Hrest].
    - change (flagsOf (DSave _ :: evs)) with (flagsOf evs) in Hin.
      rewrite List.Forall_forall in Hflags. apply Hflags in Hin. injection Hin as -> ->.
      destruct (Hfind i) as (bk & Hbk & Hfound); [lia |].
      rewrite Hfound in Hinfo. injection Hinfo as <-.
      exists i, bk. split; [lia |]. split; [lia |]. auto. }
  destruct (batchLoop_rule W importBatch toISOString outputDir opts man P Hskip Hrule
              (S (Split.totalBatches man) - startFromBatch) startFromBatch
              {| state := loadState W toISOString stored w; world := w; trace := [];
                 successCount := 0; failureCount := 0 |})
    as [(d & j & Hrun & _ & _ & _ & HP) | (d & j & _ & Hj & _ & _ & Hnone)];
    [lia | split; [lia | intros b cm []] | |].
  - exists d. split; [exact Hrun |]. split.
    + intros b cm Hin. destruct (HP b cm Hin) as (k & bk & Hk & Hlen & Hrest).
      exists k, bk. split; [lia | exact Hrest].
    + intros b Hin. destruct (HP b true Hin) as (k & bk & Hk & Hlen & -> & Hbk & Hcm).
      destruct (Hmodel (k - 1) bk Hbk) as [Hfirst Hsame].
      { intros Hnil. rewrite Hnil in Hcm. discriminate Hcm. }
      replace k with 1 by lia. split; [reflexivity |].
      rewrite <- Hsame. intros Hnil. rewrite Hnil in Hcm. discriminate Hcm.
  - destruct (Hfind j) as (bk & _ & Hfound); [lia |]. congruence.
Qed.


(** What bin/resume.js decides on a state without a batch in flight whose
    batch identifiers are those of the batch numbers [cs] and [fs]. *)
Lemma resumeIdle_numbers (s : importState) (m : Split.manifest) (cs fs : list nat) :
  completedBatches s = map batchNumOf cs ->
  map batch (failedBatches s) = map batchNumOf fs ->
  match fs with
  | [] =>
      resumeIdle s m =
        if Nat.leb (Split.totalBatches m) (fold_left Nat.max cs 0) then AllCompleted
        else StartFrom Next (Some (Z.of_nat (fold_left Nat.max cs 0 + 1)))
  | x :: rest =>
      resumeIdle s m = StartFrom RetryFailed (Some (Z.of_nat (fold_left Nat.min rest x)))
  end.
Proof.
  intros Hcs Hfs. unfold resumeIdle.
  rewrite <- (length_map batch (failedBatches s)), Hfs, Hcs.
  rewrite <- (map_map batch parseInt), Hfs, !map_map.
  rewrite !(map_ext (fun k => parseInt (batchNumOf k)) (fun k => Some (Z.of_nat k))
              parseInt_batchNumOf).
  destruct fs as [|x rest]; simpl.
  - unfold mathMax0.
    destruct (mathMax0_numbers cs 0) as (Heq & _).
    change (Z.of_nat 0) with 0%Z in Heq.
    match goal with
    | |- context [fold_left ?f ?l (Some 0%Z)] =>
        replace (fold_left f l (Some 0%Z))
          with (Some (Z.of_nat (fold_left Nat.max cs 0)))
          by (symmetry; exact Heq)
    end.
    destruct (Nat.leb_spec (Split.totalBatches m) (fold_left Nat.max cs 0));
      destruct (Z.leb_spec (Z.of_nat (Split.totalBatches m))
                  (Z.of_nat (fold_left Nat.max cs 0))); try lia.
    + reflexivity.
    + do 2 f_equal. lia.
  - unfold sortNumbers. simpl.
    rewrite <- (map_map Z.of_nat Some), sortNumbers_head.
    destruct (fold_min_lowest rest x) as [Heq _]. rewrite Heq. reflexivity.
Qed.

Variable m : Split.manifest.

(** What bin/resume.js decides on the state a first run of the importer
    ends with. *)
Lemma resume_decision_after_run (w : W) (d : driver W) :
  importAllBatches W importBatch toISOString outputDir opts m 1 None w
    = Finished W d ->
  (failureCount W d = 0 ->
   resumeImport (Some (state W d)) (Some m) = AllCompleted) /\
  (0 < failureCount W d ->
   exists n,
     1 <= n <= Split.totalBatches m /\
     In (batchNumOf n) (map batch (failedBatches (state W d))) /\
     (forall k, In (batchNumOf k) (map batch (failedBatches (state W d))) -> n <= k) /\
     resumeImport (Some (state W d)) (Some m)
       = StartFrom RetryFailed (Some (Z.of_nat n))).
Proof.
  intros Hrun.
  set (P := fun (i : nat) (d : driver W) =>
    1 <= i /\ currentBatch (state W d) = None /\
    exists cs fs,
      completedBatches (state W d) = map batchNumOf cs /\
      map batch (failedBatches (state W d)) = map batchNumOf fs /\
      length fs = failureCount W d /\
      (forall k, In k cs \/ In k fs -> 1 <= k <= Split.totalBatches m) /\
      (forall k, 1 <= k < i -> k <= Split.totalBatches m -> In k cs \/ In k fs)).
  assert (Hskip : forall i d, P i d -> i <= Split.totalBatches m ->
            existsb (String.eqb (batchNumOf i)) (completedBatches (state W d)) = true ->
            P (S i) d).
  { intros i d0 (Hi & Hcur & cs & fs & Hcs & Hfs & Hlen & Hin & Hall) Hle Hdone.
    split; [lia |]. split; [exact Hcur |]. exists cs, fs.
    repeat (split; [assumption |]). intros k Hk Hkt.
    destruct (Nat.eq_dec k i) as [-> | Hne]; [| apply Hall; lia].
    left. apply existsb_eqb_In in Hdone. rewrite Hcs in Hdone.
    apply in_map_iff in Hdone as (k' & Heq & Hk'). apply batchNumOf_inj in Heq.
    subst k'. exact Hk'. }
  assert (Hrule : forall i d d', P i d -> i <= Split.totalBatches m ->
            existsb (String.eqb (batchNumOf i)) (completedBatches (state W d)) = false ->
            processBatch W importBatch toISOString outputDir opts m i d
              = Some (Some d') -> P (S i) d').
  { intros i d0 d' (Hi & _ & cs & fs & Hcs & Hfs & Hlen & Hin & Hall) Hle _ Hproc.
    destruct (processBatch_outcome W importBatch toISOString outputDir opts m i d0 d' Hproc)
      as (info & evs & failures & _ & _ & _ & Hcur & _ & Hend).
    split; [lia |]. split; [exact Hcur |].
    destruct Hend as [(_ & _ & Hc & Hf & _ & Hfc & _)
                     | (_ & _ & Hc & (msg & stamp & Hf) & _ & Hfc & _)].
    - exists (cs ++ [i]), fs. rewrite Hc, Hf, Hcs, Hfc, map_app. simpl.
      repeat (split; [auto; fail |]). split.
      + intros k [Hk | Hk]; [| apply Hin; auto].
        apply in_app_or in Hk as [Hk | [<- | []]]; [apply Hin; auto | lia].
      + intros k Hk Hkt. destruct (Nat.eq_dec k i) as [-> | Hne].
        * left. apply in_or_app. right. left. reflexivity.
        * destruct (Hall k) as [Hc' | Hf']; [lia | lia | | auto].
          left. apply in_or_app. auto.
    - exists cs, (fs ++ [i]). rewrite Hc, Hf, Hfc, !map_app, Hfs, length_app. simpl.
      split; [exact Hcs |]. split; [reflexivity |]. split; [lia |]. split.
      + intros k [Hk | Hk]; [apply Hin; auto |].
        apply in_app_or in Hk as [Hk | [<- | []]]; [apply Hin; auto | lia].
      + intros k Hk Hkt. destruct (Nat.eq_dec k i) as [-> | Hne].
        * right. apply in_or_app. right. left. reflexivity.
        * destruct (Hall k) as [Hc' | Hf']; [lia | lia | auto |].
          right. apply in_or_app. auto. }
  destruct (batchLoop_rule W importBatch toISOString outputDir opts m P Hskip Hrule
              (S (Split.totalBatches m) - 1) 1
              {| state := loadState W toISOString None w; world := w; trace := [];
                 successCount := 0; failureCount := 0 |})
    as [(d1 & j & Hrun1 & Hj & _ & HP) | (d1 & j & Hrun1 & _)].
  - lia.
  - split; [lia |]. split; [reflexivity |]. exists [], []. simpl.
    repeat (split; [reflexivity |]). split; [intros k [[] | []] | intros k Hk; lia].
  - unfold importAllBatches in Hrun. rewrite Hrun1 in Hrun. injection Hrun as ->.
    destruct HP as (_ & Hcur & cs & fs & Hcs & Hfs & Hlen & Hin & Hall).
    pose proof (resumeIdle_numbers (state W d) m cs fs Hcs Hfs) as Hidle.
    assert (Hres : resumeImport (Some (state W d)) (Some m) = resumeIdle (state W d) m)
      by (unfold resumeImport; rewrite Hcur; reflexivity).
    rewrite Hres. split.
    + intros Hzero. destruct fs as [|x rest]; [| simpl in Hlen; lia].
      rewrite Hidle.
      replace (Nat.leb (Split.totalBatches m) (fold_left Nat.max cs 0)) with true;
        [reflexivity |].
      symmetry. apply Nat.leb_le.
      destruct (Split.totalBatches m) as [|t] eqn:Ht; [lia |].
      destruct (mathMax0_numbers cs 0) as (_ & _ & _ & Hup).
      apply Hup. destruct (Hall (S t)) as [Hc | []]; [lia | lia | exact Hc].
    + intros Hpos. destruct fs as [|x rest]; [simpl in Hlen; lia |].
      rewrite Hidle. exists (fold_left Nat.min rest x).
      destruct (fold_min_lowest rest x) as [_ [Hmem Hlow]].
      split; [apply Hin; right; exact Hmem |]. split; [| split; [| reflexivity]].
      * rewrite Hfs. apply in_map, Hmem.
      * intros k Hk. rewrite Hfs in Hk. apply in_map_iff in Hk as (k' & Heq & Hk').
        apply batchNumOf_inj in Heq. subst k'. apply Hlow, Hk'.
  - unfold importAllBatches in Hrun. rewrite Hrun1 in Hrun. discriminate Hrun.
Qed.

Lemma saveState_lookup (dir : string) (f : files) (s : importState) :
  fsRun f (saveState dir s) !! STATE_FILE dir = Some (JSON_stringify s).
Proof.
  unfold saveState, writeFileSync, fsRun. simpl.
  rewrite lookup_insert_eq. f_equal. rewrite lookup_insert_eq. reflexivity.
Qed.

(** After the saves of a run the state file holds the document of the state
    last saved; it is as before when the run saved none. *)
Lemma replaySaves_lastSaved (dir : string) (tr : list driverEvent) (f : files) :
  replaySaves dir f tr !! STATE_FILE dir =
    match lastSaved tr with
    | Some s => Some (JSON_stringify s)
    | None => f !! STATE_FILE dir
    end.
Proof.
  unfold replaySaves, lastSaved.
  induction tr as [|e tr IH] using rev_ind; [reflexivity |].
  rewrite !fold_left_app. cbn [fold_left].
  destruct e; try exact IH. apply saveState_lookup.
Qed.

Lemma lastSaved_persisted (tr : list driverEvent) :
  forall (last : option importState) (s0 : importState),
  persisted (default s0 last) tr =
    default s0 (fold_left (fun last e => match e with DSave s => Some s | _ => last end)
                          tr last).
Proof.
  induction tr as [|e tr IH]; intros last s0; [reflexivity |].
  destruct e; cbn [persisted fold_left]; try apply IH.
  apply (IH (Some s) s0).
Qed.

Lemma persisted_lastSaved (s0 : importState) (tr : list driverEvent) :
  persisted s0 tr = default s0 (lastSaved tr).
Proof. exact (lastSaved_persisted tr None s0). Qed.

Lemma lastSaved_some (tr : list driverEvent) :
  forall last : option importState,
  (last <> None \/ exists s, In (DSave s) tr) ->
  fold_left (fun last e => match e with DSave s => Some s | _ => last end) tr last
    <> None.
Proof.
  induction tr as [|e tr IH]; intros last Hsome; cbn [fold_left].
  - destruct Hsome as [Hlast | [s []]]. exact Hlast.
  - apply IH. destruct e as [s|ms|b cm ok].
    + left. discriminate.
    + destruct Hsome as [Hlast | [s [Hin | Hin]]];
        [left; exact Hlast | discriminate | right; exists s; exact Hin].
    + destruct Hsome as [Hlast | [s [Hin | Hin]]];
        [left; exact Hlast | discriminate | right; exists s; exact Hin].
Qed.

(** X17 (import, then resume).  A first run of the importer (no state file,
    start at batch 1) that ends normally leaves a state file exactly when the
    manifest has a batch.  For a manifest without batches nothing is saved,
    and bin/resume.js stops with "No import state found".  Otherwise the
    file holds the state the run ended with, and bin/resume.js, reading it,
    reports that all batches are completed when no batch failed, and restarts
    at the lowest batch number that has a failure record, a batch of the
    manifest, when one failed. *)
Theorem resume_after_first_run (w : W) (d : driver W) (f : files) :
  f !! STATE_FILE outputDir = None ->
  importAllBatches W importBatch toISOString outputDir opts m 1 None w
    = Finished W d ->
  let f' := replaySaves outputDir f (trace W d) in
  (Split.totalBatches m = 0 ->
   trace W d = [] /\ holds outputDir f' None /\
   resumeImport None (Some m) = NoState) /\
  (0 < Split.totalBatches m ->
   holds outputDir f' (Some (state W d)) /\
   (failureCount W d = 0 ->
    resumeImport (Some (state W d)) (Some m) = AllCompleted) /\
   (0 < failureCount W d ->
    exists n,
      1 <= n <= Split.totalBatches m /\
      In (batchNumOf n) (map batch (failedBatches (state W d))) /\
      (forall k, In (batchNumOf k) (map batch (failedBatches (state W d))) -> n <= k) /\
      resumeImport (Some (state W d)) (Some m)
        = StartFrom RetryFailed (Some (Z.of_nat n)))).
Proof.
  intros Hnofile Hrun f'. split.
  - intros Hzero. unfold importAllBatches in Hrun. rewrite Hzero in Hrun.
    simpl in Hrun. rewrite Hzero in Hrun. injection Hrun as <-.
    split; [reflexivity |]. split; [exact Hnofile | reflexivity].
  - intros Hpos. split; [| exact (resume_decision_after_run w d Hrun)].
    unfold holds, f'. rewrite replaySaves_lastSaved.
    unfold importAllBatches in Hrun.
    destruct (batchLoop_continues W importBatch toISOString outputDir opts m
                (S (Split.totalBatches m) - 1) 1
                {| state := loadState W toISOString None w; world := w; trace := [];
                   successCount := 0; failureCount := 0 |})
      as (d1 & Hres & evs & Ht & _ & Hpers & _); [lia |].
    rewrite Hrun in Hres.
    assert (Hd1 : d1 = d) by (destruct Hres as [[= ->] | [=]]; reflexivity).
    subst d1. clear Hres. simpl in Ht, Hpers. subst evs.
    rewrite persisted_lastSaved in Hpers.
    assert (Hsaved : lastSaved (trace W d) <> None).
    { apply lastSaved_some. right.
      set (d0 := {| state := loadState W toISOString None w; world := w; trace := [];
                    successCount := 0; failureCount := 0 |} : driver W) in *.
      assert (Hnew : existsb (String.eqb (batchNumOf 1))
                       (completedBatches (state W d0)) = false) by reflexivity.
      replace (S (Split.totalBatches m) - 1) with (S (Split.totalBatches m - 1))
        in Hrun by lia.
      destruct (processBatch_cases W importBatch toISOString outputDir opts m 1 d0)
        as [[Hnone _] | [d2 Hd2]].
      - exfalso. revert Hrun. cbn [Importer.batchLoop].
        replace (Nat.leb 1 (Split.totalBatches m)) with true
          by (symmetry; apply Nat.leb_le; lia).
        rewrite Hnew, Hnone. discriminate.
      - rewrite (batchLoop_next W importBatch toISOString outputDir opts m
                   (Split.totalBatches m - 1) 1 d0 d2 ltac:(lia) Hnew Hd2) in Hrun.
        destruct (processBatch_outcome W importBatch toISOString outputDir opts m
                    1 d0 d2 Hd2) as (info & evs2 & failures & _ & Ht2 & _).
        destruct (batchLoop_continues W importBatch toISOString outputDir opts m
                    (Split.totalBatches m - 1) 2 d2)
          as (d3 & Hres3 & evs3 & Ht3 & _); [lia |].
        rewrite Hrun in Hres3.
        assert (Hd3 : d3 = d) by (destruct Hres3 as [[= ->] | [=]]; reflexivity).
        subst d3. rewrite Ht3, Ht2.
        eexists. apply in_or_app. left. apply in_or_app. right. left. reflexivity. }
    destruct (lastSaved (trace W d)) as [s|]; [| destruct Hsaved; reflexivity].
    simpl in Hpers. rewrite Hpers. reflexivity.
Qed.

End Pipeline.

Lemma split_manifest_is_importable_witness :
  exists out man d,
    Split.splitExport 2 Split.sampleExport = Some (out, man) /\
    Split.totalBatches man = 3 /\
    importAllBatches nat alwaysImports stamp "batches" sampleOptions man 1 None 0
      = Finished nat d.
Proof.
  assert (Hsplit : exists out man,
            Split.splitExport 2 Split.sampleExport = Some (out, man) /\
            Split.totalBatches man = 3).
  { eexists _, _. split; [vm_compute; reflexivity | reflexivity]. }
  destruct Hsplit as (out & man & Hsplit & Htotal).
  destruct (split_manifest_is_importable nat alwaysImports stamp "batches" sampleOptions
              2 Split.sampleExport out man 1 None 0 Hsplit (le_n 1))
    as (d & Hrun & _).
  exists out, man, d. auto.
Defined.

Lemma resume_after_first_run_witness :
  exists d,
    importAllBatches nat firstAlwaysFails stamp "batches" sampleOptions
      sampleManifest 1 None 0 = Finished nat d /\
    holds "batches" (replaySaves "batches" ∅ (trace nat d)) (Some (state nat d)) /\
    resumeImport (Some (state nat d)) (Some sampleManifest)
      = StartFrom RetryFailed (Some 1%Z).
Proof.
  assert (Hrun : exists d,
            importAllBatches nat firstAlwaysFails stamp "batches" sampleOptions
              sampleManifest 1 None 0 = Finished nat d /\
            failureCount nat d = 1 /\
            map batch (failedBatches (state nat d)) = ["01"]).
  { eexists. split; [vm_compute; reflexivity | split; reflexivity]. }
  destruct Hrun as (d & Hrun & Hcount & Hfailed). exists d. split; [exact Hrun |].
  destruct (resume_after_first_run nat firstAlwaysFails stamp "batches" sampleOptions
              sampleManifest 0 d ∅ (lookup_empty _) Hrun) as [_ Hsome].
  destruct Hsome as (Hfile & _ & Hretry); [vm_compute; lia |].
  split; [exact Hfile |].
  destruct Hretry as (n & Hn & _ & Hlow & Hres); [lia |].
  rewrite Hres. do 3 f_equal.
  specialize (Hlow 1). rewrite Hfailed in Hlow.
  assert (n <= 1) by (apply Hlow; left; reflexivity). lia.
Defined.

(** A run over a manifest without batches saves nothing, so that no state
    file exists afterwards and bin/resume.js has nothing to read. *)
Example nothing_to_resume_after_an_empty_run :
  exists d,
    importAllBatches nat alwaysImports stamp "batches" sampleOptions
      emptyManifest 1 None 0 = Finished nat d /\
    replaySaves "batches" ∅ (trace nat d) !! STATE_FILE "batches" = None /\
    resumeImport None (Some emptyManifest) = NoState.
Proof. eexists. split; [reflexivity |]. split; reflexivity. Qed.

End PipelineFacts.
(** ** The requests of one batch *)

Module RequestsFacts.
Import Importer Sdk Requests.

#[local] Existing Instance M_ret.
#[local] Existing Instance M_bind.

(** *** Which errors make a batch fail *)

Lemma bind_run {A B : Type} (step : M A) (f : A -> M B) (w : sdkWorld) :
  @mbind M M_bind A B f step w =
  match step w with
  | (w', inl a) => f a w'
  | (w', inr e) => (w', inr e)
  end.
Proof. reflexivity. Qed.





Section Blame.
Variable respond : nat -> remoteCall -> unit + errorMessage.
Variable model : bool.





End Blame.

Section Failure.
Variable respond : nat -> remoteCall -> unit + errorMessage.
Variable localeCodes : nat -> list string + errorMessage.
Variable assetFiles : nat -> string -> list bool + errorMessage.
Variable rateLimiterEnabled : bool.
Variable opts : importOptions.


End Failure.



(** *** The shape of the log *)

Lemma requestsOf_app (l1 l2 : list sdkEvent) :
  requestsOf (l1 ++ l2) = requestsOf l1 ++ requestsOf l2.
Proof. apply flat_map_app. Qed.

Lemma sdk_pausesOf_app (l1 l2 : list sdkEvent) :
  pausesOf (l1 ++ l2) = pausesOf l1 ++ pausesOf l2.
Proof. apply flat_map_app. Qed.

Lemma requestsOf_block (tag : option nat) (cs : list remoteCall) :
  requestsOf (map (fun c => Remote c tag) cs) = cs /\
  pausesOf (map (fun c => Remote c tag) cs) = [].
Proof.
  induction cs as [|c cs [IH1 IH2]]; simpl; [auto |]. rewrite IH1, IH2. auto.
Qed.

Section Shape.
Variable enabled : bool.
Variable P : remoteCall -> Prop.

Lemma admissionBlocks_app (k1 k2 k3 : nat) (e1 e2 : list sdkEvent) :
  admissionBlocks enabled P k1 e1 k2 -> admissionBlocks enabled P k2 e2 k3 ->
  admissionBlocks enabled P k1 (e1 ++ e2) k3.
Proof.
  intros H1 H2. induction H1 as [k|k k' ms evs _ IH|k k' cs evs Hlen HP _ IH]; simpl.
  - exact H2.
  - constructor. apply IH, H2.
  - rewrite <- app_assoc. constructor; [exact Hlen | exact HP | apply IH, H2].
Qed.

Lemma sendsOnly_ret {A : Type} (n : nat) (a : A) : sendsOnly n P (@mret M M_ret A a).
Proof.
  intros w. exists []. simpl. rewrite app_nil_r, Nat.add_0_r.
  repeat split; [lia | constructor].
Qed.

Lemma sendsOnly_weaken {A : Type} (n n' : nat) (fn : M A) :
  n <= n' -> sendsOnly n P fn -> sendsOnly n' P fn.
Proof.
  intros Hle Hfn w. destruct (Hfn w) as (cs & Hlen & Hrest).
  exists cs. split; [lia | exact Hrest].
Qed.

Lemma sendsOnly_record (c : remoteCall) (w : sdkWorld) :
  P c ->
  exists cs, length cs <= 1 /\ Forall P cs /\
    log (record c w) = log w ++ map (fun c => Remote c (inside w)) cs /\
    sent (record c w) = sent w + length cs /\
    admissions (record c w) = admissions w /\ inside (record c w) = inside w.
Proof.
  intros Hc. exists [c]. simpl. repeat split; [lia | repeat constructor; exact Hc | lia].
Qed.

Lemma sendsOnly_call (respond : nat -> remoteCall -> unit + errorMessage)
    (c : remoteCall) :
  P c -> sendsOnly 1 P (call respond c).
Proof. intros Hc w. apply sendsOnly_record, Hc. Qed.

Lemma sendsOnly_getLocales (localeCodes : nat -> list string + errorMessage) :
  P GetLocales -> sendsOnly 1 P (getLocales localeCodes).
Proof. intros Hc w. apply sendsOnly_record, Hc. Qed.

Lemma sendsOnly_getAssetFiles (assetFiles : nat -> string -> list bool + errorMessage)
    (id : string) :
  P (GetAsset id) -> sendsOnly 1 P (getAssetFiles assetFiles id).
Proof. intros Hc w. apply sendsOnly_record, Hc. Qed.

(** Two computations one after the other, the second run on the result or
    on the error of the first. *)
Lemma sendsOnly_then {A B : Type} (n k : nat) (step : M A)
    (next : sdkWorld -> A + errorMessage -> sdkWorld * (B + errorMessage)) :
  sendsOnly n P step ->
  (forall r w, exists cs, length cs <= k /\ Forall P cs /\
     log (fst (next w r)) = log w ++ map (fun c => Remote c (inside w)) cs /\
     sent (fst (next w r)) = sent w + length cs /\
     admissions (fst (next w r)) = admissions w /\
     inside (fst (next w r)) = inside w) ->
  forall w, exists cs, length cs <= n + k /\ Forall P cs /\
    log (fst (next (fst (step w)) (snd (step w))))
      = log w ++ map (fun c => Remote c (inside w)) cs /\
    sent (fst (next (fst (step w)) (snd (step w)))) = sent w + length cs /\
    admissions (fst (next (fst (step w)) (snd (step w)))) = admissions w /\
    inside (fst (next (fst (step w)) (snd (step w)))) = inside w.
Proof.
  intros Hs Hn w. destruct (Hs w) as (cs1 & Hl1 & HP1 & Hlog1 & Hsent1 & Hadm1 & Hin1).
  destruct (Hn (snd (step w)) (fst (step w)))
    as (cs2 & Hl2 & HP2 & Hlog2 & Hsent2 & Hadm2 & Hin2).
  exists (cs1 ++ cs2). rewrite Hlog2, Hsent2, Hadm2, Hin2, Hlog1, Hsent1, Hadm1, Hin1.
  rewrite length_app, map_app, <- app_assoc.
  repeat split; [lia | apply Forall_app; auto | lia].
Qed.

Lemma sendsOnly_bind {A B : Type} (n k : nat) (step : M A) (f : A -> M B) :
  sendsOnly n P step -> (forall a, sendsOnly k P (f a)) ->
  sendsOnly (n + k) P (@mbind M M_bind A B f step).
Proof.
  intros Hs Hf w.
  pose proof (sendsOnly_then n k step
                (fun w' r => match r with
                             | inl a => f a w'
                             | inr e => (w', inr e)
                             end) Hs) as Hthen.
  rewrite bind_run. destruct (step w) as [w' r] eqn:Hrun.
  specialize (Hthen ltac:(intros [a | e] w0;
                           [apply Hf | exists []; simpl;
                            rewrite app_nil_r, Nat.add_0_r;
                            repeat split; [lia | constructor]]) w).
  rewrite Hrun in Hthen. simpl in Hthen. destruct r; exact Hthen.
Qed.

Lemma sendsOnly_tryCatch {A : Type} (n k : nat) (body : M A)
    (handler : errorMessage -> M A) :
  sendsOnly n P body -> (forall e, sendsOnly k P (handler e)) ->
  sendsOnly (n + k) P (tryCatch body handler).
Proof.
  intros Hs Hf w.
  pose proof (sendsOnly_then n k body
                (fun w' r => match r with
                             | inl a => (w', inl a)
                             | inr e => handler e w'
                             end) Hs) as Hthen.
  unfold tryCatch. destruct (body w) as [w' r] eqn:Hrun.
  specialize (Hthen ltac:(intros [a | e] w0;
                           [exists []; simpl; rewrite app_nil_r, Nat.add_0_r;
                            repeat split; [lia | constructor]
                           | apply Hf]) w).
  rewrite Hrun in Hthen. simpl in Hthen. destruct r; exact Hthen.
Qed.

Lemma proceeds_ret {A : Type} (r p : nat) (a : A) :
  proceeds enabled P r p (@mret M M_ret A a).
Proof.
  intros w Hw. exists []. simpl. rewrite app_nil_r, Nat.add_0_r.
  repeat split; [constructor | exact Hw | lia | lia].
Qed.

Lemma proceeds_weaken {A : Type} (r r' p p' : nat) (step : M A) :
  r <= r' -> p <= p' -> proceeds enabled P r p step -> proceeds enabled P r' p' step.
Proof.
  intros Hr Hp Hs w Hw. destruct (Hs w Hw) as (evs & Hlog & Hb & Hin & Hsent & Hlr & Hlp).
  exists evs. repeat split; try assumption; lia.
Qed.

Lemma proceeds_then {A B : Type} (r1 p1 r2 p2 : nat) (step : M A)
    (next : sdkWorld -> A + errorMessage -> sdkWorld * (B + errorMessage)) :
  proceeds enabled P r1 p1 step ->
  (forall res w, inside w = None -> exists evs,
     log (fst (next w res)) = log w ++ evs /\
     admissionBlocks enabled P (admissions w) evs (admissions (fst (next w res))) /\
     inside (fst (next w res)) = None /\
     sent (fst (next w res)) = sent w + length (requestsOf evs) /\
     length (requestsOf evs) <= r2 /\ length (pausesOf evs) <= p2) ->
  forall w, inside w = None -> exists evs,
    log (fst (next (fst (step w)) (snd (step w)))) = log w ++ evs /\
    admissionBlocks enabled P (admissions w) evs
      (admissions (fst (next (fst (step w)) (snd (step w))))) /\
    inside (fst (next (fst (step w)) (snd (step w)))) = None /\
    sent (fst (next (fst (step w)) (snd (step w)))) = sent w + length (requestsOf evs) /\
    length (requestsOf evs) <= r1 + r2 /\ length (pausesOf evs) <= p1 + p2.
Proof.
  intros Hs Hn w Hw.
  destruct (Hs w Hw) as (e1 & Hlog1 & Hb1 & Hin1 & Hsent1 & Hr1 & Hp1).
  destruct (Hn (snd (step w)) (fst (step w)) Hin1)
    as (e2 & Hlog2 & Hb2 & Hin2 & Hsent2 & Hr2 & Hp2).
  exists (e1 ++ e2). rewrite Hlog2, Hsent2, Hlog1, Hsent1.
  rewrite requestsOf_app, sdk_pausesOf_app, !length_app, <- app_assoc.
  split; [reflexivity |]. split; [eapply admissionBlocks_app; eassumption |].
  split; [exact Hin2 |]. split; [lia |]. split; lia.
Qed.

Lemma proceeds_bind {A B : Type} (r1 p1 r2 p2 : nat) (step : M A) (f : A -> M B) :
  proceeds enabled P r1 p1 step -> (forall a, proceeds enabled P r2 p2 (f a)) ->
  proceeds enabled P (r1 + r2) (p1 + p2) (@mbind M M_bind A B f step).
Proof.
  intros Hs Hf w Hw.
  pose proof (proceeds_then r1 p1 r2 p2 step
                (fun w' r => match r with
                             | inl a => f a w'
                             | inr e => (w', inr e)
                             end) Hs) as Hthen.
  rewrite bind_run. destruct (step w) as [w' r] eqn:Hrun.
  specialize (Hthen ltac:(intros [a | e] w0 Hw0;
                           [apply Hf, Hw0 | exists []; simpl;
                            rewrite app_nil_r, Nat.add_0_r;
                            repeat split; [constructor | exact Hw0 | lia | lia]]) w Hw).
  rewrite Hrun in Hthen. simpl in Hthen. destruct r; exact Hthen.
Qed.

Lemma proceeds_tryCatch {A : Type} (r1 p1 r2 p2 : nat) (body : M A)
    (handler : errorMessage -> M A) :
  proceeds enabled P r1 p1 body -> (forall e, proceeds enabled P r2 p2 (handler e)) ->
  proceeds enabled P (r1 + r2) (p1 + p2) (tryCatch body handler).
Proof.
  intros Hs Hf w Hw.
  pose proof (proceeds_then r1 p1 r2 p2 body
                (fun w' r => match r with
                             | inl a => (w', inl a)
                             | inr e => handler e w'
                             end) Hs) as Hthen.
  unfold tryCatch. destruct (body w) as [w' r] eqn:Hrun.
  specialize (Hthen ltac:(intros [a | e] w0 Hw0;
                           [exists []; simpl; rewrite app_nil_r, Nat.add_0_r;
                            repeat split; [constructor | exact Hw0 | lia | lia]
                           | apply Hf, Hw0]) w Hw).
  rewrite Hrun in Hthen. simpl in Hthen. destruct r; exact Hthen.
Qed.

(** A caught step: the handler of the loops over locales, tags, editor
    interfaces, assets and entries only writes to the error log. *)
Lemma proceeds_caught (r p : nat) (body : M unit) :
  proceeds enabled P r p body ->
  proceeds enabled P r p (tryCatch body (fun _ => @mret M M_ret unit tt)).
Proof.
  intros Hb. apply (proceeds_weaken (r + 0) r (p + 0) p); [lia | lia |].
  apply proceeds_tryCatch; [exact Hb | intros e; apply proceeds_ret].
Qed.

Lemma proceeds_sleep (ms : Z) : proceeds enabled P 0 1 (sleep ms).
Proof.
  intros w Hw. exists [Pause ms]. simpl.
  repeat split; [repeat constructor | exact Hw | lia | lia | lia].
Qed.

Lemma proceeds_throttled {A : Type} (n : nat) (fn : M A) :
  n <= 3 -> sendsOnly n P fn -> proceeds enabled P n 0 (throttled enabled fn).
Proof.
  intros Hn Hfn w Hw. unfold throttled. destruct enabled eqn:Hen.
  - destruct (Hfn (setInside (Some (admissions w)) true w))
      as (cs & Hlen & HP & Hlog & Hsent & Hadm & Hin).
    destruct (fn (setInside (Some (admissions w)) true w)) as [w' r].
    simpl in *. exists (map (fun c => Remote c (Some (admissions w))) cs).
    destruct (requestsOf_block (Some (admissions w)) cs) as [Hreq Hpau].
    rewrite Hreq, Hpau, Hadm. simpl.
    split; [exact Hlog |]. split; [| repeat split; lia].
    rewrite <- (app_nil_r (map _ cs)).
    apply (blocks_block true P (admissions w) (S (admissions w)) cs []);
      [lia | exact HP | constructor].
  - destruct (Hfn w) as (cs & Hlen & HP & Hlog & Hsent & Hadm & Hin).
    rewrite Hw in Hlog, Hin.
    exists (map (fun c => Remote c None) cs).
    destruct (requestsOf_block None cs) as [Hreq Hpau].
    rewrite Hreq, Hpau, Hadm. simpl.
    split; [exact Hlog |]. split; [| repeat split; [exact Hin | lia | lia | lia]].
    rewrite <- (app_nil_r (map _ cs)).
    apply (blocks_block false P (admissions w) (admissions w) cs []);
      [lia | exact HP | constructor].
Qed.

Lemma proceeds_forEach {A : Type} (r p : nat) (l : list A) (body : A -> M unit) :
  (forall x, In x l -> proceeds enabled P r p (body x)) ->
  proceeds enabled P (length l * r) (length l * p) (forEach l body).
Proof.
  induction l as [|x l IH]; intros Hbody; simpl; [apply proceeds_ret |].
  apply proceeds_bind; [apply Hbody; left; reflexivity | intros _].
  apply IH. intros y Hy. apply Hbody. right. exact Hy.
Qed.

End Shape.

Lemma listed_In {A : Type} (id : A -> string) (l : list A) (a : A) :
  In a l -> listed id l (id a) = true.
Proof.
  intros Hin. unfold listed. apply existsb_exists. exists a.
  split; [exact Hin | apply String.eqb_refl].
Qed.

Lemma nonempty_In {A : Type} (l : list A) (a : A) :
  In a l -> Nat.ltb 0 (length l) = true.
Proof. destruct l; [intros [] | reflexivity]. Qed.

Section BatchShape.
Variable respond : nat -> remoteCall -> unit + errorMessage.
Variable localeCodes : nat -> list string + errorMessage.
Variable assetFiles : nat -> string -> list bool + errorMessage.
Variable enabled : bool.
Variable opts : importOptions.
Variable bd : batchData.
Variable isFirstBatch : bool.

#[local] Abbreviation ok := (fun c => permitted opts isFirstBatch bd c = true).
#[local] Abbreviation model := (isFirstBatch && Nat.ltb 0 (length (bd_contentTypes bd))).

Lemma importLocale_proceeds (l : locale) :
  model = true -> In l (bd_locales bd) ->
  proceeds enabled ok 2 0 (importLocale respond localeCodes enabled l).
Proof.
  intros Hm Hin. apply proceeds_caught, proceeds_throttled; [lia |].
  apply (sendsOnly_bind ok 1 1).
  - apply sendsOnly_getLocales. simpl. rewrite Hm, (nonempty_In _ _ Hin). reflexivity.
  - intros locales. destruct (existsb _ locales); [apply sendsOnly_ret |].
    apply sendsOnly_call. simpl. rewrite Hm, (listed_In code _ _ Hin). reflexivity.
Qed.

Lemma importTag_proceeds (t : tag) :
  model = true -> In t (bd_tags bd) ->
  proceeds enabled ok 1 0 (importTag respond enabled t).
Proof.
  intros Hm Hin. apply proceeds_caught, proceeds_throttled; [lia |].
  apply sendsOnly_call. simpl. rewrite Hm, (listed_In tag_id _ _ Hin). reflexivity.
Qed.

Lemma importContentType_proceeds (ct : contentType) :
  model = true -> In ct (bd_contentTypes bd) ->
  proceeds enabled ok 2 0 (importContentType respond enabled opts ct).
Proof.
  intros Hm Hin. apply proceeds_throttled; [lia |].
  apply (sendsOnly_bind ok 1 1).
  - apply sendsOnly_call. simpl. rewrite Hm, (listed_In ct_id _ _ Hin). reflexivity.
  - intros _. destruct (negb (skipContentPublishing opts)) eqn:Hpub;
      [| apply sendsOnly_ret].
    apply sendsOnly_call. simpl. rewrite Hm, Hpub, (listed_In ct_id _ _ Hin). reflexivity.
Qed.

Lemma importEditorInterface_proceeds (ei : editorInterface) :
  model = true -> In ei (bd_editorInterfaces bd) ->
  proceeds enabled ok 3 0 (importEditorInterface respond enabled ei).
Proof.
  intros Hm Hin. apply proceeds_caught, proceeds_throttled; [lia |].
  assert (Hok : forall c, (c = GetContentType (ei_contentType ei) \/
                           c = GetEditorInterface (ei_contentType ei) \/
                           c = UpdateEditorInterface (ei_contentType ei)) -> ok c).
  { intros c [-> | [-> | ->]]; simpl;
      rewrite Hm, (listed_In ei_contentType _ _ Hin); reflexivity. }
  apply (sendsOnly_bind ok 1 2); [apply sendsOnly_call, Hok; auto | intros _].
  apply (sendsOnly_bind ok 1 1); [apply sendsOnly_call, Hok; auto | intros _].
  apply sendsOnly_call, Hok; auto.
Qed.

Lemma pollProcessed_proceeds (id : string) :
  ok (GetAsset id) ->
  forall remaining fullyProcessed,
  proceeds enabled ok remaining remaining
    (pollProcessed assetFiles enabled remaining id fullyProcessed).
Proof.
  intros Hok. induction remaining as [|remaining IH]; intros fullyProcessed; simpl.
  - apply proceeds_ret.
  - destruct fullyProcessed; [apply proceeds_ret |].
    apply (proceeds_bind enabled ok 0 1 (S remaining) remaining);
      [apply proceeds_sleep | intros _].
    apply (proceeds_bind enabled ok 1 0 remaining remaining); [| intros files; apply IH].
    apply proceeds_throttled; [lia |]. apply sendsOnly_getAssetFiles, Hok.
Qed.

Lemma importAsset_proceeds (a : assetDoc) :
  In a (bd_assets bd) ->
  proceeds enabled ok 35 30 (importAsset respond assetFiles enabled opts a).
Proof.
  intros Hin. pose proof (listed_In a_id _ _ Hin) as Hl.
  apply proceeds_caught.
  apply (proceeds_bind enabled ok 2 0 33 30); [| intros _].
  - apply proceeds_throttled; [lia |].
    destruct (skipAssetUpdates opts) eqn:Hskip.
    + apply (sendsOnly_tryCatch ok 1 1); [| intros _];
        apply sendsOnly_call; simpl; rewrite ?Hskip, Hl; reflexivity.
    + apply (sendsOnly_weaken ok 1 2); [lia |].
      apply sendsOnly_call. simpl. exact Hl.
  - destruct (uploadAssets opts) eqn:Hup; [| apply proceeds_ret].
    assert (Hget : ok (GetAsset (a_id a)))
      by (simpl; rewrite Hup, Hl, orb_true_r; reflexivity).
    apply (proceeds_bind enabled ok 1 0 32 30); [| intros _].
    { apply proceeds_throttled; [lia |]. apply sendsOnly_call. simpl.
      rewrite Hup, Hl. reflexivity. }
    apply (proceeds_bind enabled ok 30 30 2 0);
      [apply pollProcessed_proceeds, Hget | intros fullyProcessed].
    destruct (negb (skipContentPublishing opts)) eqn:Hpub; simpl;
      [| apply proceeds_ret].
    destruct fullyProcessed; [| apply proceeds_ret].
    apply proceeds_throttled; [lia |].
    apply (sendsOnly_bind ok 1 1); [apply sendsOnly_call, Hget | intros _].
    apply sendsOnly_call. simpl. rewrite Hup, Hpub, Hl. reflexivity.
Qed.

Lemma importEntry_proceeds (e : entryDoc) :
  In e (bd_entries bd) ->
  proceeds enabled ok 3 0 (importEntry respond enabled opts e).
Proof.
  intros Hin. pose proof (listed_In e_id _ _ Hin) as Hl.
  assert (Hcreate : ok (CreateEntryWithId (e_contentType e) (e_id e))).
  { simpl. apply existsb_exists. exists e. split; [exact Hin |].
    rewrite !String.eqb_refl. reflexivity. }
  apply proceeds_caught.
  apply (proceeds_bind enabled ok 2 0 1 0); [| intros _].
  - apply proceeds_throttled; [lia |].
    destruct (skipContentUpdates opts) eqn:Hskip.
    + apply (sendsOnly_tryCatch ok 1 1); [| intros _; apply sendsOnly_call, Hcreate].
      apply sendsOnly_call. simpl. rewrite Hskip, Hl. reflexivity.
    + apply (sendsOnly_weaken ok 1 2); [lia |]. apply sendsOnly_call, Hcreate.
  - destruct (negb (skipContentPublishing opts)) eqn:Hpub; [| apply proceeds_ret].
    apply proceeds_throttled; [lia |]. apply sendsOnly_call. simpl.
    rewrite Hpub, Hl. reflexivity.
Qed.

(** The log of [importBatch]: the requests that open the session, sent
    outside any admission, and then a stretch of blocks. *)
Lemma importBatch_shape (w : sdkWorld) :
  inside w = None ->
  let w' := fst (importBatch respond localeCodes assetFiles enabled opts bd
                   isFirstBatch w) in
  exists session evs,
    log w' = log w ++ map (fun c => Remote c None) session ++ evs /\
    (session = [GetSpace] /\ evs = [] \/ session = [GetSpace; GetEnvironment]) /\
    admissionBlocks enabled ok (admissions w) evs (admissions w') /\
    sent w' = sent w + length session + length (requestsOf evs) /\
    2 + length (requestsOf evs) <= requestBudget bd /\
    length (pausesOf evs) <= length (bd_assets bd) * 30.
Proof.
  intros Hw w'.
  assert (Hrest : proceeds enabled ok
            (length (bd_locales bd) * 2 + length (bd_tags bd) * 1 +
             length (bd_contentTypes bd) * 2 + length (bd_editorInterfaces bd) * 3 +
             (length (bd_assets bd) * 35 + length (bd_entries bd) * 3))
            (0 + (length (bd_assets bd) * 30 + length (bd_entries bd) * 0))
            ((if model
              then forEach (bd_locales bd) (importLocale respond localeCodes enabled) ;;
                   forEach (bd_tags bd) (importTag respond enabled) ;;
                   forEach (bd_contentTypes bd) (importContentType respond enabled opts) ;;
                   forEach (bd_editorInterfaces bd) (importEditorInterface respond enabled)
              else mret tt) ;;
             forEach (bd_assets bd) (importAsset respond assetFiles enabled opts) ;;
             forEach (bd_entries bd) (importEntry respond enabled opts))).
  { apply proceeds_bind; [| intros _].
    - destruct model eqn:Hm; [| apply proceeds_ret].
      apply (proceeds_weaken enabled ok
               (length (bd_locales bd) * 2 +
                (length (bd_tags bd) * 1 +
                 (length (bd_contentTypes bd) * 2 + length (bd_editorInterfaces bd) * 3)))
               _
               (length (bd_locales bd) * 0 +
                (length (bd_tags bd) * 0 +
                 (length (bd_contentTypes bd) * 0 + length (bd_editorInterfaces bd) * 0)))
               _); [lia | lia |].
      apply proceeds_bind; [| intros _].
      { apply proceeds_forEach. intros x Hx. apply importLocale_proceeds; auto. }
      apply proceeds_bind; [| intros _].
      { apply proceeds_forEach. intros x Hx. apply importTag_proceeds; auto. }
      apply proceeds_bind; [| intros _].
      { apply proceeds_forEach. intros x Hx. apply importContentType_proceeds; auto. }
      apply proceeds_forEach. intros x Hx. apply importEditorInterface_proceeds; auto.
    - apply proceeds_bind; [| intros _].
      + apply proceeds_forEach. intros x Hx. apply importAsset_proceeds, Hx.
      + apply proceeds_forEach. intros x Hx. apply importEntry_proceeds, Hx. }
  unfold w', importBatch. rewrite bind_run. unfold call.
  destruct (respond (sent w) GetSpace) as [[] | e].
  - rewrite bind_run. cbn [sent record].
    destruct (respond (S (sent w)) GetEnvironment) as [[] | e].
    + destruct (Hrest (record GetEnvironment (record GetSpace w)))
        as (evs & Hlog & Hblocks & _ & Hsent & Hr & Hp); [simpl; exact Hw |].
      exists [GetSpace; GetEnvironment], evs. rewrite Hlog, Hsent. simpl.
      rewrite Hw, <- !app_assoc. simpl.
      split; [reflexivity |]. split; [auto |]. split; [exact Hblocks |].
      split; [lia |]. unfold requestBudget. split; lia.
    + exists [GetSpace; GetEnvironment], []. simpl. rewrite Hw, <- app_assoc. simpl.
      split; [reflexivity |]. split; [auto |]. split; [constructor |].
      split; [lia |]. unfold requestBudget. split; lia.
  - exists [GetSpace], []. simpl. rewrite Hw.
    split; [reflexivity |]. split; [auto |]. split; [constructor |].
    split; [lia |]. unfold requestBudget. split; lia.
Qed.

End BatchShape.

Lemma callsOfAdmission_app (j : nat) (l1 l2 : list sdkEvent) :
  callsOfAdmission j (l1 ++ l2) = callsOfAdmission j l1 ++ callsOfAdmission j l2.
Proof. apply flat_map_app. Qed.

Lemma unadmittedCalls_app (l1 l2 : list sdkEvent) :
  unadmittedCalls (l1 ++ l2) = unadmittedCalls l1 ++ unadmittedCalls l2.
Proof. apply flat_map_app. Qed.

Lemma calls_of_block (j k : nat) (cs : list remoteCall) :
  callsOfAdmission j (map (fun c => Remote c (Some k)) cs)
    = (if Nat.eqb j k then cs else []) /\
  unadmittedCalls (map (fun c => Remote c (Some k)) cs) = [].
Proof.
  induction cs as [|c cs [IH1 IH2]]; simpl; [destruct (Nat.eqb j k); auto |].
  rewrite IH1, IH2. destruct (Nat.eqb j k); auto.
Qed.

Lemma calls_of_untagged (j : nat) (cs : list remoteCall) :
  callsOfAdmission j (map (fun c => Remote c None) cs) = [] /\
  unadmittedCalls (map (fun c => Remote c None) cs) = cs.
Proof.
  induction cs as [|c cs [IH1 IH2]]; simpl; [auto |]. rewrite IH1, IH2. auto.
Qed.

(** With the rate limiter, the blocks are the admissions. *)
Lemma blocks_enabled (P : remoteCall -> Prop) (k k' : nat) (evs : list sdkEvent) :
  admissionBlocks true P k evs k' ->
  k <= k' /\ unadmittedCalls evs = [] /\
  (forall j, length (callsOfAdmission j evs) <= 3) /\
  (forall j, callsOfAdmission j evs <> [] -> k <= j < k') /\
  Forall P (requestsOf evs).
Proof.
  induction 1 as [k|k k' ms evs _ IH|k k' cs evs Hlen HP _ IH].
  - split; [lia |]. split; [reflexivity |]. split; [intros j; simpl; lia |].
    split; [intros j Hj; destruct Hj; reflexivity | constructor].
  - exact IH.
  - destruct IH as (Hle & Hun & Hmax & Hrange & Hall).
    assert (Hnone : callsOfAdmission k evs = []).
    { destruct (callsOfAdmission k evs) eqn:Hk; [reflexivity |].
      destruct (Hrange k); [rewrite Hk; discriminate | lia]. }
    split; [lia |]. split; [| split; [| split]].
    + rewrite unadmittedCalls_app, Hun, app_nil_r. apply (calls_of_block 0 k cs).
    + intros j. rewrite callsOfAdmission_app.
      destruct (calls_of_block j k cs) as [-> _].
      destruct (Nat.eqb_spec j k) as [-> | Hne]; [rewrite Hnone, app_nil_r; exact Hlen |].
      apply Hmax.
    + intros j. rewrite callsOfAdmission_app.
      destruct (calls_of_block j k cs) as [-> _].
      destruct (Nat.eqb_spec j k) as [-> | Hne]; [lia |].
      simpl. intros Hj. apply Hrange in Hj. lia.
    + rewrite requestsOf_app. destruct (requestsOf_block (Some k) cs) as [-> _].
      apply Forall_app. auto.
Qed.

(** Without it, no request is inside an admission. *)
Lemma blocks_disabled (P : remoteCall -> Prop) (k k' : nat) (evs : list sdkEvent) :
  admissionBlocks false P k evs k' ->
  k' = k /\ (forall j, callsOfAdmission j evs = []) /\
  unadmittedCalls evs = requestsOf evs /\ Forall P (requestsOf evs).
Proof.
  induction 1 as [k|k k' ms evs _ IH|k k' cs evs Hlen HP _ IH].
  - split; [reflexivity |]. split; [reflexivity |]. split; [reflexivity | constructor].
  - exact IH.
  - destruct IH as (Heq & Hnone & Hun & Hall).
    split; [exact Heq |]. split; [| split].
    + intros j. rewrite callsOfAdmission_app, Hnone.
      destruct (calls_of_untagged j cs) as [-> _]. reflexivity.
    + rewrite unadmittedCalls_app, requestsOf_app, Hun.
      destruct (calls_of_untagged 0 cs) as [_ ->].
      destruct (requestsOf_block None cs) as [-> _]. reflexivity.
    + rewrite requestsOf_app. destruct (requestsOf_block None cs) as [-> _].
      apply Forall_app. auto.
Qed.

Section BatchFacts.
Variable respond : nat -> remoteCall -> unit + errorMessage.
Variable localeCodes : nat -> list string + errorMessage.
Variable assetFiles : nat -> string -> list bool + errorMessage.
Variable opts : importOptions.
Variable bd : batchData.
Variable isFirstBatch : bool.

#[local] Abbreviation run enabled :=
  (fst (importBatch respond localeCodes assetFiles enabled opts bd isFirstBatch start)).

Lemma blocks_permitted (enabled : bool) (P : remoteCall -> Prop) (k k' : nat)
    (evs : list sdkEvent) :
  admissionBlocks enabled P k evs k' -> Forall P (requestsOf evs).
Proof.
  destruct enabled; intros Hb; [apply blocks_enabled in Hb | apply blocks_disabled in Hb];
    tauto.
Qed.

(** X19 (no request beyond the options).  Whatever the target answers,
    [importBatch] sends only requests that the options, the flag
    [isFirstBatch] and the batch document leave room for ([permitted]): a
    request for the content model (locales, tags, content types, editor
    interfaces) only when the flag is set and the batch has content types; a
    publication only when [skipContentPublishing] is off; the processing and
    the publication of an asset only when [uploadAssets] is on; a lookup of an
    entry only when [skipContentUpdates] is on; and every request about a
    locale, tag, content type, editor interface, asset or entry names one of
    the batch document. *)
Theorem only_permitted_requests_are_sent (enabled : bool) :
  Forall (fun c => permitted opts isFirstBatch bd c = true)
         (requestsOf (log (run enabled))).
Proof.
  destruct (importBatch_shape respond localeCodes assetFiles enabled opts bd
              isFirstBatch start eq_refl)
    as (session & evs & Hlog & Hsession & Hblocks & _).
  rewrite Hlog. simpl. rewrite requestsOf_app.
  destruct (requestsOf_block None session) as [-> _].
  apply Forall_app. split; [| eapply blocks_permitted, Hblocks].
  destruct Hsession as [[-> _] | ->]; repeat constructor.
Qed.

(** X20 (admissions).  With the rate limiter enabled, the requests that
    [importBatch] sends outside any admission are the one or two that open
    the session; every other request is sent inside an admission, an
    admission covers at most three requests, and the admissions are numbered
    from 0 up to the count kept by the process.  With the rate limiter
    disabled no admission is taken and no request is inside one. *)
Theorem requests_are_sent_in_admission_blocks :
  (unadmittedCalls (log (run true)) = [GetSpace] \/
   unadmittedCalls (log (run true)) = [GetSpace; GetEnvironment]) /\
  (forall k, length (callsOfAdmission k (log (run true))) <= 3) /\
  (forall k, callsOfAdmission k (log (run true)) <> [] -> k < admissions (run true)) /\
  admissions (run false) = 0 /\
  (forall k, callsOfAdmission k (log (run false)) = []).
Proof.
  destruct (importBatch_shape respond localeCodes assetFiles true opts bd
              isFirstBatch start eq_refl)
    as (s1 & e1 & Hlog1 & Hs1 & Hb1 & _).
  destruct (importBatch_shape respond localeCodes assetFiles false opts bd
              isFirstBatch start eq_refl)
    as (s2 & e2 & Hlog2 & Hs2 & Hb2 & _).
  apply blocks_enabled in Hb1 as (_ & Hun & Hmax & Hrange & _).
  apply blocks_disabled in Hb2 as (Hadm & Hnone & _).
  rewrite Hlog1, Hlog2. simpl.
  rewrite unadmittedCalls_app, Hun, app_nil_r.
  destruct (calls_of_untagged 0 s1) as [_ ->].
  split; [destruct Hs1 as [[-> _] | ->]; auto |].
  split; [| split; [| split; [exact Hadm |]]].
  - intros k. rewrite callsOfAdmission_app.
    destruct (calls_of_untagged k s1) as [-> _]. apply Hmax.
  - intros k. rewrite callsOfAdmission_app.
    destruct (calls_of_untagged k s1) as [-> _]. simpl. intros Hk.
    apply Hrange in Hk. lia.
  - intros k. rewrite callsOfAdmission_app, Hnone.
    destruct (calls_of_untagged k s2) as [-> _]. reflexivity.
Qed.

(** X21 (request budget).  The counter of requests is the number of
    requests in the log; [importBatch] sends at most [requestBudget] of them
    (two for the session, at most 35 per asset, three per entry, and for the
    content model two per locale, one per tag, two per content type and
    three per editor interface), and it pauses at most 30 times per asset
    while it polls for the processing to finish. *)
Theorem batch_requests_are_bounded (enabled : bool) :
  sent (run enabled) = length (requestsOf (log (run enabled))) /\
  sent (run enabled) <= requestBudget bd /\
  length (pausesOf (log (run enabled))) <= 30 * length (bd_assets bd).
Proof.
  destruct (importBatch_shape respond localeCodes assetFiles enabled opts bd
              isFirstBatch start eq_refl)
    as (session & evs & Hlog & Hsession & _ & Hsent & Hr & Hp).
  rewrite Hlog, Hsent. simpl. rewrite requestsOf_app, sdk_pausesOf_app, !length_app.
  destruct (requestsOf_block None session) as [-> ->]. simpl.
  assert (Hlen : length session <= 2) by (destruct Hsession as [[-> _] | ->]; simpl; lia).
  split; [reflexivity |]. split; lia.
Qed.

End BatchFacts.

End RequestsFacts.
(** ** The draft cleanup: analysis, report and what is kept *)

Module ReportFacts.
Import Cleanup Report.

(** The arrays of the analysis are the entries of each class, in order. *)
Lemma analyseEntry_lists (reqs : gmap string (string * list string)) (l : list entry) :
  forall acc,
  let r := fold_left (analyseEntry reqs) l acc in
  draftEntries r = draftEntries acc ++
    List.filter (fun e => negb (isPublished reqs e)) l /\
  invalidDrafts r = invalidDrafts acc ++ List.filter (isInvalid reqs) l /\
  orphanDrafts r = orphanDrafts acc ++ List.filter (isOrphan reqs) l /\
  validPublishedEntries r = validPublishedEntries acc ++ List.filter (isPublished reqs) l /\
  validDraftEntries r = validDraftEntries acc ++ List.filter (isValidDraft reqs) l.
Proof.
  induction l as [|e l IH]; intros acc; simpl.
  - rewrite !app_nil_r. auto.
  - destruct (IH (analyseEntry reqs acc e)) as (H1 & H2 & H3 & H4 & H5).
    rewrite H1, H2, H3, H4, H5.
    unfold analyseEntry, isPublished, isInvalid, isOrphan, isValidDraft.
    destruct (classifyEntry reqs e); simpl; rewrite <- ?app_assoc; auto.
Qed.

Lemma analyseAsset_lists (l : list asset) :
  forall acc,
  let r := fold_left analyseAsset l acc in
  draftAssets r = draftAssets acc ++
    List.filter (fun a => isDraft (a_version a) (a_publishedVersion a)) l /\
  invalidAssetDrafts r = invalidAssetDrafts acc ++ List.filter isInvalidAssetDraft l /\
  validPublishedAssets r = validPublishedAssets acc ++
    List.filter (fun a => negb (isDraft (a_version a) (a_publishedVersion a))) l /\
  validDraftAssets r = validDraftAssets acc ++
    List.filter (fun a => isDraft (a_version a) (a_publishedVersion a) && hasFile a) l.
Proof.
  induction l as [|a l IH]; intros acc; simpl.
  - rewrite !app_nil_r. auto.
  - destruct (IH (analyseAsset acc a)) as (H1 & H2 & H3 & H4).
    rewrite H1, H2, H3, H4.
    unfold analyseAsset, isInvalidAssetDraft, hasFile.
    destruct (isDraft (a_version a) (a_publishedVersion a)); simpl;
      [destruct (a_file a) as [f|]; [destruct (Nat.ltb 0 (length f)) |] |];
      simpl; rewrite <- ?app_assoc; auto.
Qed.

Lemma class_counts (reqs : gmap string (string * list string)) (l : list entry) :
  length l =
    length (List.filter (isPublished reqs) l) +
    length (List.filter (fun e => negb (isPublished reqs e)) l) /\
  length (List.filter (fun e => negb (isPublished reqs e)) l) =
    length (List.filter (isValidDraft reqs) l) +
    length (List.filter (isInvalid reqs) l) +
    length (List.filter (isOrphan reqs) l).
Proof.
  induction l as [|e l [IH1 IH2]]; simpl; [auto |].
  unfold isPublished, isInvalid, isOrphan, isValidDraft in *.
  destruct (classifyEntry reqs e); simpl; lia.
Qed.

Lemma asset_counts (l : list asset) :
  length l =
    length (List.filter (fun a => negb (isDraft (a_version a) (a_publishedVersion a))) l) +
    length (List.filter (fun a => isDraft (a_version a) (a_publishedVersion a)) l) /\
  length (List.filter (fun a => isDraft (a_version a) (a_publishedVersion a)) l) =
    length (List.filter
              (fun a => isDraft (a_version a) (a_publishedVersion a) && hasFile a) l) +
    length (List.filter isInvalidAssetDraft l).
Proof.
  induction l as [|a l [IH1 IH2]]; simpl; [auto |].
  unfold isInvalidAssetDraft, hasFile in *.
  destruct (isDraft (a_version a) (a_publishedVersion a)); simpl;
    [destruct (a_file a) as [f|]; [destruct (Nat.ltb 0 (length f)) |] |]; simpl; lia.
Qed.

Lemma toRemove_split (reqs : gmap string (string * list string)) (e : entry) :
  toRemove reqs e = isInvalid reqs e || isOrphan reqs e.
Proof.
  unfold toRemove, isInvalid, isOrphan. destruct (classifyEntry reqs e); reflexivity.
Qed.

(** X22 (report).  In the report of the analysis every entry is counted in
    exactly one of the four classes (published, valid draft, invalid draft,
    orphan draft) and every asset in one of three; the drafts are the entries
    (assets) that are not published; [totalToRemove] is the number of invalid
    and orphan draft entries plus that of invalid draft assets; and the sets
    of ids to remove are the ids of those entries and assets. *)
Theorem report_counts_add_up (E : export) :
  let s := summaryOf E in
  s_totalEntries s = s_validPublishedEntries s + s_draftEntries s /\
  s_draftEntries s = s_validDraftEntries s + s_invalidDrafts s + s_orphanDrafts s /\
  s_totalAssets s = s_validPublishedAssets s + s_draftAssets s /\
  s_draftAssets s = s_validDraftAssets s + s_invalidAssetDrafts s /\
  s_totalToRemove s + s_validPublishedEntries s + s_validDraftEntries s +
    s_validPublishedAssets s + s_validDraftAssets s
    = s_totalEntries s + s_totalAssets s /\
  removedEntryIds E = entriesToRemove E /\
  removedAssetIds E = assetsToRemove E.
Proof.
  intros s. unfold s, summaryOf, removedEntryIds, removedAssetIds. simpl.
  unfold analyseEntries, analyseAssets.
  destruct (analyseEntry_lists (buildRequirements (contentTypes E)) (entries E)
              {| draftEntries := []; invalidDrafts := []; orphanDrafts := [];
                 validPublishedEntries := []; validDraftEntries := [] |})
    as (-> & -> & -> & -> & ->).
  destruct (analyseAsset_lists (assets E)
              {| draftAssets := []; invalidAssetDrafts := []; validPublishedAssets := [];
                 validDraftAssets := [] |})
    as (-> & -> & -> & ->).
  simpl.
  destruct (class_counts (buildRequirements (contentTypes E)) (entries E)) as [He1 He2].
  destruct (asset_counts (assets E)) as [Ha1 Ha2].
  split; [lia |]. split; [lia |]. split; [lia |]. split; [lia |]. split; [lia |].
  split; [| reflexivity].
  unfold entriesToRemove. apply set_eq. intros id.
  rewrite !elem_of_list_to_set, elem_of_app, !list_elem_of_In, !in_map_iff.
  fold (toRemove (buildRequirements (contentTypes E))).
  split.
  - intros [(e & Heq & Hin) | (e & Heq & Hin)]; apply filter_In in Hin as [Hin Hc];
      exists e; (split; [exact Heq |]); apply filter_In; (split; [exact Hin |]);
      rewrite toRemove_split, Hc, ?orb_true_r; reflexivity.
  - intros (e & Heq & Hin). apply filter_In in Hin as [Hin Hc].
    rewrite toRemove_split in Hc. apply orb_prop in Hc as [Hc | Hc]; [left | right];
      exists e; (split; [exact Heq |]); apply filter_In; auto.
Qed.


Lemma same_id_same_item {A : Type} (id : A -> string) (l : list A) (a b : A) :
  NoDup (map id l) -> In a l -> In b l -> id a = id b -> a = b.
Proof.
  induction l as [|x l IH]; intros Hnd Ha Hb Heq; [destruct Ha |].
  simpl in Hnd. apply NoDup_cons in Hnd as [Hx Hnd].
  assert (Hfresh : forall y, In y l -> id y <> id x).
  { intros y Hy Hyx. apply Hx. rewrite <- Hyx. apply list_elem_of_In, in_map, Hy. }
  destruct Ha as [<- | Ha]; destruct Hb as [<- | Hb].
  - reflexivity.
  - destruct (Hfresh b Hb). symmetry. exact Heq.
  - destruct (Hfresh a Ha). exact Heq.
  - apply IH; assumption.
Qed.

Lemma omap_cons_eq {A B : Type} (f : A -> option B) (x : A) (l : list A) :
  omap f (x :: l) = match f x with Some y => y :: omap f l | None => omap f l end.
Proof. reflexivity. Qed.

Lemma cleanField_locales (re ra : gset string) (f : localized) :
  map fst (cleanField re ra f) `sublist_of` map fst f.
Proof.
  unfold cleanField. induction f as [|[locale v] f IH]; [constructor |].
  rewrite omap_cons_eq. unfold cleanLocale at 1.
  destruct (linksToRemoved re ra v).
  - apply sublist_cons, IH.
  - destruct v; simpl; apply sublist_skip, IH.
Qed.

(** X23 (what the cleanup keeps).  The content types are written back
    unchanged.  With distinct entry ids the cleaned export holds, in their
    order, exactly the entries that are published or valid drafts, and with
    distinct asset ids exactly the assets that are not invalid drafts, each
    asset unchanged.  An entry that is kept keeps its id, versions, content
    type and its field ids in their order; in each field no locale is added. *)
Theorem cleanup_keeps_the_rest (E : export) :
  contentTypes (cleanedData E) = contentTypes E /\
  (NoDup (map e_id (entries E)) ->
   entries (cleanedData E) =
     map (cleanEntry (entriesToRemove E) (assetsToRemove E))
         (List.filter (fun e => negb (toRemove (buildRequirements (contentTypes E)) e))
                      (entries E))) /\
  (NoDup (map a_id (assets E)) ->
   assets (cleanedData E) =
     List.filter (fun a => negb (isInvalidAssetDraft a)) (assets E)) /\
  (forall e,
     let e' := cleanEntry (entriesToRemove E) (assetsToRemove E) e in
     e_id e' = e_id e /\ e_version e' = e_version e /\
     e_publishedVersion e' = e_publishedVersion e /\
     e_contentType e' = e_contentType e /\
     map fst (e_fields e') = map fst (e_fields e) /\
     Forall2 (fun f' f => map fst (snd f') `sublist_of` map fst (snd f))
             (e_fields e') (e_fields e)).
Proof.
  split; [reflexivity |]. split; [| split].
  - intros Hnd. unfold cleanedData. simpl. f_equal.
    apply filter_ext_in. intros e He. f_equal.
    apply eq_true_iff_eq. rewrite bool_decide_eq_true.
    unfold entriesToRemove. rewrite elem_of_list_to_set, list_elem_of_In, in_map_iff.
    fold (toRemove (buildRequirements (contentTypes E))). split.
    + intros (e0 & Heq & Hin). apply filter_In in Hin as [Hin Hc].
      rewrite <- (same_id_same_item e_id _ e0 e Hnd Hin He Heq). exact Hc.
    + intros Hc. exists e. split; [reflexivity |]. apply filter_In. auto.
  - intros Hnd. unfold cleanedData. simpl.
    apply filter_ext_in. intros a Ha. f_equal.
    apply eq_true_iff_eq. rewrite bool_decide_eq_true.
    unfold assetsToRemove. rewrite elem_of_list_to_set, list_elem_of_In, in_map_iff.
    split.
    + intros (a0 & Heq & Hin). apply filter_In in Hin as [Hin Hc].
      rewrite <- (same_id_same_item a_id _ a0 a Hnd Hin Ha Heq). exact Hc.
    + intros Hc. exists a. split; [reflexivity |]. apply filter_In. auto.
  - intros e e'. unfold e'. simpl. repeat (split; [reflexivity |]).
    split.
    + rewrite map_map. reflexivity.
    + induction (e_fields e) as [|[k f] fs IH]; simpl; constructor; [| exact IH].
      simpl. apply cleanField_locales.
Qed.

Lemma cleanup_keeps_the_rest_witness :
  NoDup (map e_id (entries sampleExport)) /\
  NoDup (map a_id (assets sampleExport)) /\
  entries (cleanedData sampleExport) =
    map (cleanEntry (entriesToRemove sampleExport) (assetsToRemove sampleExport))
        (List.filter
           (fun e => negb (toRemove (buildRequirements (contentTypes sampleExport)) e))
           (entries sampleExport)) /\
  assets (cleanedData sampleExport) =
    List.filter (fun a => negb (isInvalidAssetDraft a)) (assets sampleExport).
Proof.
  assert (He : NoDup (map e_id (entries sampleExport))).
  { apply (bool_decide_unpack _). vm_compute. exact I. }
  assert (Ha : NoDup (map a_id (assets sampleExport))).
  { apply (bool_decide_unpack _). vm_compute. exact I. }
  destruct (cleanup_keeps_the_rest sampleExport) as (_ & Hentries & Hassets & _).
  exact (conj He (conj Ha (conj (Hentries He) (Hassets Ha)))).
Defined.

Lemma nothing_links_to_removed (v : value) :
  linksToRemoved ∅ ∅ v = false.
Proof.
  unfold linksToRemoved. destruct (get "sys" v) as [sys|]; [| reflexivity].
  assert (Hno : forall o, hasId ∅ o = false).
  { intros [[]|]; reflexivity. }
  rewrite !Hno, !andb_false_r. reflexivity.
Qed.

Lemma cleanField_nothing (f : localized) : cleanField ∅ ∅ f = f.
Proof.
  unfold cleanField. induction f as [|[locale v] f IH]; [reflexivity |].
  rewrite omap_cons_eq, IH. unfold cleanLocale.
  rewrite nothing_links_to_removed.
  destruct v; try reflexivity.
  rewrite (List.filter_ext _ (fun _ => true))
    by (intros item; rewrite nothing_links_to_removed; reflexivity).
  rewrite filter_true. reflexivity.
Qed.

Lemma cleanEntry_nothing (e : entry) : cleanEntry ∅ ∅ e = e.
Proof.
  destruct e as [id version published ct fields]. unfold cleanEntry. simpl. f_equal.
  induction fields as [|[k f] fields IH]; simpl; [reflexivity |].
  rewrite cleanField_nothing, IH. reflexivity.
Qed.

(** X24 (a clean export).  When the analysis finds nothing to remove, the
    cleaned export that is written is the export that was read. *)
Theorem clean_export_is_unchanged (E : export) :
  entriesToRemove E = ∅ -> assetsToRemove E = ∅ -> cleanedData E = E.
Proof.
  intros He Ha. unfold cleanedData. rewrite He, Ha. destruct E as [cts es assets]. simpl.
  f_equal.
  - rewrite (List.filter_ext _ (fun _ => true))
      by (intros e; apply negb_true_iff, bool_decide_eq_false; set_solver).
    rewrite filter_true. clear He Ha.
    induction es as [|e es IH]; simpl; [reflexivity |].
    rewrite cleanEntry_nothing, IH. reflexivity.
  - rewrite (List.filter_ext _ (fun _ => true))
      by (intros a; apply negb_true_iff, bool_decide_eq_false; set_solver).
    apply filter_true.
Qed.

Lemma clean_export_is_unchanged_witness :
  entriesToRemove publishedExport = ∅ /\ assetsToRemove publishedExport = ∅ /\
  cleanedData publishedExport = publishedExport.
Proof.
  assert (He : entriesToRemove publishedExport = ∅) by reflexivity.
  assert (Ha : assetsToRemove publishedExport = ∅) by reflexivity.
  split; [exact He |]. split; [exact Ha |].
  apply (clean_export_is_unchanged publishedExport He Ha).
Defined.

End ReportFacts.
(** ** The validation: pagination, target counts and verdict *)

Module ValidateFacts.
Import Validate.

Lemma limit_pos : 0 < limit.
Proof. unfold limit. lia. Qed.

Lemma bind_returns {W A B : Type} (m : T (W := W) A) (k : A -> T B) (w w' : W)
    (a : A) (sent : list request) :
  m w = Some (inr a, w', sent) ->
  bind m k w = match k a w' with
               | None => None
               | Some (r, w'', sent') => Some (r, w'', sent ++ sent')
               end.
Proof. intros Hm. unfold bind. rewrite Hm. reflexivity. Qed.

Lemma send_serve (d : nat) (t : space) (q : request) :
  send (serve d t) q tt = Some (inr (answer d t q), tt, [q]).
Proof. reflexivity. Qed.

(** The loop over the pages of a collection that does not change: from
    [skip] on it reads the rest of the collection, with one request per
    started page and one more when the last page is full. *)
Lemma fetchAll_fixed {W : Type} (respond : request -> W -> (string + list item) * W)
    (get : nat -> nat -> request) (all : list item) :
  (forall s w, respond (get limit s) w = (inr (page limit s all), w)) ->
  forall fuel skip acc w,
    (length all - skip) / limit < fuel ->
    fetchAll respond fuel get skip acc w =
      Some (inr (acc ++ skipn skip all), w,
            map (fun k => get limit (skip + k * limit))
                (seq 0 ((length all - skip) / limit + 1))).
Proof.
  intros Hget. pose proof limit_pos as Hpos.
  induction fuel as [|fuel IH]; intros skip acc w Hfuel; [lia |].
  cbn [fetchAll]. unfold bind at 1, send. rewrite Hget.
  assert (Hlen : length (page limit skip all) = Nat.min limit (length all - skip)).
  { unfold page. rewrite length_take, length_drop. reflexivity. }
  destruct (Nat.eqb_spec (length (page limit skip all)) limit) as [Hfull | Hlast].
  - assert (Hrest : limit <= length all - skip) by lia.
    assert (Hdiv : (length all - skip) / limit
                   = (length all - (skip + limit)) / limit + 1).
    { replace (length all - skip) with ((length all - (skip + limit)) + 1 * limit) by lia.
      rewrite Nat.div_add by lia. lia. }
    rewrite IH by lia.
    f_equal. f_equal.
    + rewrite <- app_assoc. unfold page.
      rewrite <- (drop_drop all limit skip), take_drop. reflexivity.
    + rewrite Hdiv.
      rewrite (Nat.add_comm _ 1) at 2. cbn [Nat.add seq map].
      rewrite Nat.add_0_r. cbn [app]. f_equal.
      rewrite <- seq_shift, map_map. apply map_ext. intros k. f_equal. lia.
  - assert (Hrest : length all - skip < limit) by lia.
    rewrite Nat.div_small by lia. cbn [Nat.add seq map ret app].
    rewrite Nat.add_0_r. unfold page.
    rewrite (take_ge (drop skip all)) by (rewrite length_drop; lia). reflexivity.
Qed.

Lemma fetchAll_serve_entries (d : nat) (t : space) (fuel : nat) :
  length (t_entries t) / limit < fuel ->
  fetchAll (serve d t) fuel GetEntries 0 [] tt =
    Some (inr (t_entries t), tt, pagesOf GetEntries (length (t_entries t))).
Proof.
  intros Hfuel.
  rewrite (fetchAll_fixed (serve d t) GetEntries (t_entries t))
    by (reflexivity || (rewrite Nat.sub_0_r; exact Hfuel)).
  rewrite Nat.sub_0_r. reflexivity.
Qed.

Lemma fetchAll_serve_assets (d : nat) (t : space) (fuel : nat) :
  length (t_assets t) / limit < fuel ->
  fetchAll (serve d t) fuel GetAssets 0 [] tt =
    Some (inr (t_assets t), tt, pagesOf GetAssets (length (t_assets t))).
Proof.
  intros Hfuel.
  rewrite (fetchAll_fixed (serve d t) GetAssets (t_assets t))
    by (reflexivity || (rewrite Nat.sub_0_r; exact Hfuel)).
  rewrite Nat.sub_0_r. reflexivity.
Qed.

Lemma length_page (n : nat) (l : list item) :
  length (page n 0 l) = Nat.min n (length l).
Proof. unfold page. rewrite length_take, length_drop. f_equal. lia. Qed.

(** The counts read from a target that does not change. *)
Lemma getTargetCounts_serve (d : nat) (t : space) (fuel : nat) :
  length (t_entries t) / limit < fuel ->
  length (t_assets t) / limit < fuel ->
  getTargetCounts (serve d t) fuel tt =
    Some (inr {| c_contentTypes := Nat.min 1000 (length (t_contentTypes t));
                 c_entries := length (t_entries t);
                 c_assets := length (t_assets t);
                 c_tags := Nat.min 1000 (length (t_tags t));
                 c_locales := Nat.min d (length (t_locales t));
                 c_publishedEntries :=
                   length (List.filter hasPublishedVersion (t_entries t));
                 c_publishedAssets :=
                   length (List.filter hasPublishedVersion (t_assets t)) |},
          tt,
          [GetSpace; GetEnvironment; GetContentTypes 1000]
            ++ pagesOf GetEntries (length (t_entries t))
            ++ pagesOf GetAssets (length (t_assets t))
            ++ [GetTags 1000; GetLocales]).
Proof.
  intros He Ha. unfold getTargetCounts, rethrow.
  rewrite (bind_returns _ _ _ _ _ _ (send_serve d t GetSpace)).
  rewrite (bind_returns _ _ _ _ _ _ (send_serve d t GetEnvironment)).
  rewrite (bind_returns _ _ _ _ _ _ (send_serve d t (GetContentTypes 1000))).
  rewrite (bind_returns _ _ _ _ _ _ (fetchAll_serve_entries d t fuel He)).
  rewrite (bind_returns _ _ _ _ _ _ (fetchAll_serve_assets d t fuel Ha)).
  rewrite (bind_returns _ _ _ _ _ _ (send_serve d t (GetTags 1000))).
  rewrite (bind_returns _ _ _ _ _ _ (send_serve d t GetLocales)).
  unfold ret, answer. rewrite !length_page, app_nil_r. reflexivity.
Qed.

Lemma length_pagesOf (get : nat -> nat -> request) (n : nat) :
  length (pagesOf get n) = n / 1000 + 1.
Proof. unfold pagesOf. rewrite length_map, length_seq. reflexivity. Qed.

(** X25 (pagination).  Against a target that does not change and honours
    [limit] and [skip], with fuel for the pages of the entries and of the
    assets, [getTargetCounts] returns: it counts every entry and every asset
    (and the published ones among them), while content types and tags are
    counted up to 1000 and locales up to the page the target returns when no
    limit is given.  It requests the pages of entries and assets at skip 0,
    1000, 2000, ... in order, one more than the number of full pages, so
    [7 + entries / 1000 + assets / 1000] requests in all. *)
Theorem target_counts_of_a_fixed_target (d : nat) (t : space) (fuel : nat) :
  length (t_entries t) / 1000 < fuel ->
  length (t_assets t) / 1000 < fuel ->
  exists sent,
    getTargetCounts (serve d t) fuel tt =
      Some (inr {| c_contentTypes := Nat.min 1000 (length (t_contentTypes t));
                   c_entries := length (t_entries t);
                   c_assets := length (t_assets t);
                   c_tags := Nat.min 1000 (length (t_tags t));
                   c_locales := Nat.min d (length (t_locales t));
                   c_publishedEntries :=
                     length (List.filter hasPublishedVersion (t_entries t));
                   c_publishedAssets :=
                     length (List.filter hasPublishedVersion (t_assets t)) |},
            tt, sent) /\
    sent = [GetSpace; GetEnvironment; GetContentTypes 1000]
             ++ map (fun k => GetEntries 1000 (k * 1000))
                    (seq 0 (length (t_entries t) / 1000 + 1))
             ++ map (fun k => GetAssets 1000 (k * 1000))
                    (seq 0 (length (t_assets t) / 1000 + 1))
             ++ [GetTags 1000; GetLocales] /\
    length sent = 7 + length (t_entries t) / 1000 + length (t_assets t) / 1000.
Proof.
  intros He Ha. eexists. split; [apply getTargetCounts_serve; assumption |].
  split; [reflexivity |].
  rewrite !length_app, !length_pagesOf. cbn [length]. lia.
Qed.

Lemma target_counts_of_a_fixed_target_witness :
  exists sent,
    getTargetCounts (serve 100 smallSpace) 1 tt =
      Some (inr {| c_contentTypes := Nat.min 1000 1; c_entries := 2; c_assets := 1;
                   c_tags := Nat.min 1000 0; c_locales := Nat.min 100 1;
                   c_publishedEntries := 1; c_publishedAssets := 1 |}, tt, sent) /\
    sent = [GetSpace; GetEnvironment; GetContentTypes 1000]
             ++ map (fun k => GetEntries 1000 (k * 1000)) (seq 0 (2 / 1000 + 1))
             ++ map (fun k => GetAssets 1000 (k * 1000)) (seq 0 (1 / 1000 + 1))
             ++ [GetTags 1000; GetLocales] /\
    length sent = 7 + 2 / 1000 + 1 / 1000.
Proof.
  assert (He : length (t_entries smallSpace) / 1000 < 1) by (vm_compute; lia).
  assert (Ha : length (t_assets smallSpace) / 1000 < 1) by (vm_compute; lia).
  exact (target_counts_of_a_fixed_target 100 smallSpace 1 He Ha).
Defined.

Lemma runCheck_cases (t : tally) (c : check) :
  let t' := runCheck t c in
  passed t' + failed t' + warnings t' = S (passed t + failed t + warnings t) /\
  failed t' = failed t + (if negb (Nat.eqb (source c) (target c)) && critical c
                          then 1 else 0) /\
  warnings t' = warnings t
                + (if negb (Nat.eqb (source c) (target c)) && negb (critical c)
                   then 1 else 0).
Proof.
  unfold runCheck. destruct (Nat.eqb (source c) (target c)), (critical c); simpl; lia.
Qed.

(** What the five checks count. *)
Lemma runChecks_verdict (src : sourceData) (tc : counts) :
  let t := runChecks src tc in
  passed t + failed t + warnings t = 5 /\
  (failed t = 0 <->
     lengthOr0 (src_contentTypes src) = c_contentTypes tc /\
     lengthOr0 (src_entries src) = c_entries tc /\
     lengthOr0 (src_assets src) = c_assets tc /\
     lengthOr0 (src_locales src) = c_locales tc) /\
  (warnings t = 0 <-> lengthOr0 (src_tags src) = c_tags tc) /\
  warnings t <= 1 /\
  (exitCode (Summary t) = 0 <-> failed t = 0).
Proof.
  unfold runChecks, checks. cbn [fold_left].
  repeat match goal with
  | |- context [runCheck ?t ?c] =>
      lazymatch t with
      | context [runCheck] => fail
      | _ => let H := fresh "H" in
             pose proof (runCheck_cases t c) as H; cbv zeta in H;
             cbn [source target critical passed failed warnings negb andb] in H;
             generalize dependent (runCheck t c); intros
      end
  end.
  cbn [passed failed warnings] in *.
  repeat match goal with
  | H : context [Nat.eqb ?a ?b] |- _ => destruct (Nat.eqb_spec a b)
  end; cbn [negb andb] in *;
  (split; [lia |]); (split; [split; [intros; repeat split; lia | intros (? & ? & ? & ?); lia] |]);
  (split; [split; [intros; lia | intros; lia] |]);
  (split; [lia |]);
  (cbn [exitCode]; destruct (Nat.ltb_spec 0 (failed t3)); split; intros;
   (lia || discriminate || reflexivity)).
Qed.

(** X26 (verdict).  Each of the five checks is counted once, as passed,
    failed or warning.  A check fails exactly when a count of content types,
    entries, assets or locales differs between source and target, and only a
    difference in the number of tags is a warning; the counts of published
    items do not enter.  The exit code of the summary is 1 exactly when one
    of the four critical counts differs. *)
Theorem verdict_follows_the_critical_counts (src : sourceData) (tc : counts) :
  let t := runChecks src tc in
  passed t + failed t + warnings t = 5 /\
  (failed t = 0 <->
     lengthOr0 (src_contentTypes src) = c_contentTypes tc /\
     lengthOr0 (src_entries src) = c_entries tc /\
     lengthOr0 (src_assets src) = c_assets tc /\
     lengthOr0 (src_locales src) = c_locales tc) /\
  (warnings t = 0 <-> lengthOr0 (src_tags src) = c_tags tc) /\
  warnings t <= 1 /\
  (exitCode (Summary t) = 0 <-> failed t = 0) /\
  (forall pe pa,
     runChecks src {| c_contentTypes := c_contentTypes tc; c_entries := c_entries tc;
                      c_assets := c_assets tc; c_tags := c_tags tc;
                      c_locales := c_locales tc; c_publishedEntries := pe;
                      c_publishedAssets := pa |} = t).
Proof.
  destruct (runChecks_verdict src tc) as (Hsum & Hfailed & Hwarn & Hone & Hexit).
  repeat (split; [assumption |]). intros pe pa. reflexivity.
Qed.

(** X27 (a complete migration).  When the target holds exactly the
    collections of the source and does not change, and the state file is
    missing or holds the document of a state, the validation ends with the
    summary; no check on entries or assets fails whatever their number, but
    the run exits with 1 as soon as the space holds more than 1000 content
    types or more locales than the target returns in one page, and more than
    1000 tags give a warning.  When the state file cannot be read (as the
    empty file that an interrupted save leaves), the same requests are sent,
    the run ends in the [catch] block without a summary and exits with 1,
    although every count agrees. *)
Theorem complete_migration_verdict (d : nat) (t : space) (fuel : nat)
    (stored : stateFile) :
  length (t_entries t) / 1000 < fuel ->
  length (t_assets t) / 1000 < fuel ->
  exists tc sent,
    getTargetCounts (serve d t) fuel tt = Some (inr tc, tt, sent) /\
    match stored with
    | Unreadable message =>
        validateMigration (serve d t) fuel (exportOf t) stored tt
          = Some (Crashed message, tt, sent) /\
        exitCode (Crashed message) = 1
    | NoStateFile | StateDocument _ =>
        validateMigration (serve d t) fuel (exportOf t) stored tt
          = Some (Summary (runChecks (exportOf t) tc), tt, sent) /\
        (exitCode (Summary (runChecks (exportOf t) tc)) = 0 <->
           length (t_contentTypes t) <= 1000 /\ length (t_locales t) <= d) /\
        (warnings (runChecks (exportOf t) tc) = 0 <-> length (t_tags t) <= 1000)
    end.
Proof.
  intros He Ha. unfold validateMigration.
  rewrite (getTargetCounts_serve d t fuel He Ha).
  eexists. eexists. split; [reflexivity |].
  destruct (runChecks_verdict (exportOf t)
              {| c_contentTypes := Nat.min 1000 (length (t_contentTypes t));
                 c_entries := length (t_entries t);
                 c_assets := length (t_assets t);
                 c_tags := Nat.min 1000 (length (t_tags t));
                 c_locales := Nat.min d (length (t_locales t));
                 c_publishedEntries :=
                   length (List.filter hasPublishedVersion (t_entries t));
                 c_publishedAssets :=
                   length (List.filter hasPublishedVersion (t_assets t)) |})
    as (_ & Hfailed & Hwarn & _ & Hexit).
  cbn [exportOf lengthOr0 src_contentTypes src_entries src_assets src_tags src_locales
       c_contentTypes c_entries c_assets c_tags c_locales] in Hfailed, Hwarn.
  assert (Hsummary :
    (exitCode (Summary (runChecks (exportOf t)
        {| c_contentTypes := Nat.min 1000 (length (t_contentTypes t));
           c_entries := length (t_entries t);
           c_assets := length (t_assets t);
           c_tags := Nat.min 1000 (length (t_tags t));
           c_locales := Nat.min d (length (t_locales t));
           c_publishedEntries :=
             length (List.filter hasPublishedVersion (t_entries t));
           c_publishedAssets :=
             length (List.filter hasPublishedVersion (t_assets t)) |})) = 0 <->
       length (t_contentTypes t) <= 1000 /\ length (t_locales t) <= d) /\
    (warnings (runChecks (exportOf t)
        {| c_contentTypes := Nat.min 1000 (length (t_contentTypes t));
           c_entries := length (t_entries t);
           c_assets := length (t_assets t);
           c_tags := Nat.min 1000 (length (t_tags t));
           c_locales := Nat.min d (length (t_locales t));
           c_publishedEntries :=
             length (List.filter hasPublishedVersion (t_entries t));
           c_publishedAssets :=
             length (List.filter hasPublishedVersion (t_assets t)) |}) = 0 <->
       length (t_tags t) <= 1000)).
  { split; [rewrite Hexit, Hfailed; lia | rewrite Hwarn; lia]. }
  destruct stored as [|st|message].
  - split; [reflexivity | exact Hsummary].
  - split; [reflexivity | exact Hsummary].
  - split; reflexivity.
Qed.

Lemma complete_migration_verdict_witness :
  (exists tl sent,
     validateMigration (serve 100 smallSpace) 1 (exportOf smallSpace) NoStateFile tt
       = Some (Summary tl, tt, sent) /\
     exitCode (Summary tl) = 0 /\ warnings tl = 0) /\
  (exists sent,
     validateMigration (serve 100 smallSpace) 1 (exportOf smallSpace)
       truncatedStateFile tt
       = Some (Crashed "Unexpected end of JSON input", tt, sent) /\
     exitCode (Crashed "Unexpected end of JSON input") = 1).
Proof.
  assert (He : length (t_entries smallSpace) / 1000 < 1) by (vm_compute; lia).
  assert (Ha : length (t_assets smallSpace) / 1000 < 1) by (vm_compute; lia).
  split.
  - destruct (complete_migration_verdict 100 smallSpace 1 NoStateFile He Ha)
      as (tc & sent & _ & Hrun & Hexit & Hwarn).
    exists (runChecks (exportOf smallSpace) tc), sent. split; [exact Hrun |].
    split; [apply Hexit | apply Hwarn]; vm_compute; repeat constructor.
  - destruct (complete_migration_verdict 100 smallSpace 1 truncatedStateFile He Ha)
      as (tc & sent & _ & Hrun & Hexit).
    exists sent. split; [exact Hrun | exact Hexit].
Defined.

End ValidateFacts.
